(** * Price Bandit: the variant pricing engine of [backend/scripts/Price_Bandit.py]

    A shallow embedding of the band parser, the variant synthesizer, the
    match-back step and the per-product pipeline, together with the part of
    the Python runtime they lean on ([str], [int], [decimal.Decimal],
    [sorted], [requests]).  Text is modelled as byte strings (UTF-8, whose
    byte order is the order of the code points); the readers of numbers
    written out below are exact on ASCII input, and treat bytes above 127
    as ordinary characters that are neither digits nor whitespace.  The
    engine itself takes [int] on text, [float] on text and the JSON codec
    as parameters, so what is proved of it holds for every text. *)

From Stdlib Require Import ZArith List Bool Lia String Ascii Permutation Sorted.
Import ListNotations.

Set Warnings "-register-all".

Local Open Scope string_scope.
Local Open Scope list_scope.
Local Open Scope Z_scope.

(* ===================================================================== *)
(** * Python values, exceptions and results *)
(* ===================================================================== *)

(** JSON-shaped Python values.  A float is carried by its [repr] (the
    shortest text that reads back as the same float), which is what
    [str(price)] hands to [Decimal]. *)
Inductive pyval : Type :=
| PNone
| PBool (b : bool)
| PInt (z : Z)
| PFloat (repr : string)
| PStr (s : string)
| PList (l : list pyval)
| PDict (d : list (string * pyval)).

(** The exception classes the pipeline can meet. *)
Inductive exn : Type :=
| ValueError
| TypeError
| KeyError
| AttributeError
| InvalidOperation      (* decimal.InvalidOperation, an ArithmeticError *)
| OverflowError
| RequestException      (* requests: connection failures and HTTPError *)
| JSONDecodeError.

Inductive result (A : Type) : Type :=
| Ret (a : A)
| Raise (e : exn).
Arguments Ret {A} a.
Arguments Raise {A} e.

Definition rbind {A B} (r : result A) (k : A -> result B) : result B :=
  match r with
  | Ret a => k a
  | Raise e => Raise e
  end.

Notation "x <-? r ;; k" := (rbind r (fun x => k))
  (at level 61, r at next level, right associativity).

Fixpoint rmap {A B} (f : A -> result B) (l : list A) : result (list B) :=
  match l with
  | [] => Ret []
  | x :: t => y <-? f x ;; ys <-? rmap f t ;; Ret (y :: ys)
  end.

(* ===================================================================== *)
(** * Text helpers *)
(* ===================================================================== *)

Module Text.

Definition chars (s : string) : list ascii := list_ascii_of_string s.
Definition text (l : list ascii) : string := string_of_list_ascii l.

Definition code (c : ascii) : Z := Z.of_N (N_of_ascii c).
Definition chr (z : Z) : ascii := ascii_of_N (Z.to_N z).

Definition dquote : ascii := chr 34.
Definition squote : ascii := chr 39.
Definition backslash : ascii := chr 92.

Definition is_digit (c : ascii) : bool := (48 <=? code c) && (code c <=? 57).
Definition digit_val (c : ascii) : Z := code c - 48.
Definition digit_char (d : Z) : ascii := chr (48 + d).

(** [str.isspace] on ASCII: tab, LF, VT, FF, CR, the separators 28..31
    and the blank.  [int] skips the C blanks only. *)
Definition is_space (c : ascii) : bool :=
  let n := code c in
  ((9 <=? n) && (n <=? 13)) || ((28 <=? n) && (n <=? 32)).

Definition is_cspace (c : ascii) : bool :=
  let n := code c in
  ((9 <=? n) && (n <=? 13)) || (n =? 32).

Fixpoint lstrip_by (sp : ascii -> bool) (l : list ascii) : list ascii :=
  match l with
  | c :: t => if sp c then lstrip_by sp t else l
  | [] => []
  end.

Definition strip_by (sp : ascii -> bool) (l : list ascii) : list ascii :=
  rev (lstrip_by sp (rev (lstrip_by sp l))).

Definition strip_chars (l : list ascii) : list ascii := strip_by is_space l.

Definition strip (s : string) : string := text (strip_chars (chars s)).

Definition lower_char (c : ascii) : ascii :=
  let n := code c in
  if (65 <=? n) && (n <=? 90) then chr (n + 32) else c.

Definition lower (s : string) : string := text (map lower_char (chars s)).

(** Decimal digits of a non-negative integer, most significant first. *)
Fixpoint digits_fuel (fuel : nat) (n : Z) : list ascii :=
  match fuel with
  | O => []
  | S f =>
      if n <? 10 then [digit_char n]
      else digits_fuel f (n / 10) ++ [digit_char (n mod 10)]
  end.

Definition digits (n : Z) : list ascii :=
  digits_fuel (S (Z.to_nat (Z.log2 n))) n.

Fixpoint digits_value (acc : Z) (l : list ascii) : Z :=
  match l with
  | [] => acc
  | c :: t => digits_value (10 * acc + digit_val c) t
  end.

(** [str(z)] for an [int]. *)
Definition str_of_int (z : Z) : string :=
  if z <? 0 then text ("-"%char :: digits (- z)) else text (digits z).

(** [s.split(sep)] for a one-character separator. *)
Fixpoint split_chars (sep : ascii) (cur : list ascii) (l : list ascii)
  : list (list ascii) :=
  match l with
  | [] => [rev cur]
  | c :: t =>
      if Ascii.eqb c sep then rev cur :: split_chars sep [] t
      else split_chars sep (c :: cur) t
  end.

Definition split (sep : ascii) (s : string) : list string :=
  map text (split_chars sep [] (chars s)).

(** [s.split(sep)[0]]: the text before the first separator. *)
Fixpoint before_chars (sep : ascii) (l : list ascii) : list ascii :=
  match l with
  | [] => []
  | c :: t => if Ascii.eqb c sep then [] else c :: before_chars sep t
  end.

Definition before (sep : ascii) (s : string) : string :=
  text (before_chars sep (chars s)).

(** [s.split(sep, 1)]: the text before and after the first separator. *)
Fixpoint split_once_chars (sep : ascii) (l : list ascii)
  : list ascii * option (list ascii) :=
  match l with
  | [] => ([], None)
  | c :: t =>
      if Ascii.eqb c sep then ([], Some t)
      else let '(a, b) := split_once_chars sep t in (c :: a, b)
  end.

Definition contains_char (c : ascii) (s : string) : bool :=
  existsb (Ascii.eqb c) (chars s).

Fixpoint is_prefix (p l : list ascii) : bool :=
  match p, l with
  | [], _ => true
  | _ :: _, [] => false
  | a :: p', b :: l' => Ascii.eqb a b && is_prefix p' l'
  end.

(** [needle in haystack] on text. *)
Fixpoint contains_chars (needle hay : list ascii) : bool :=
  is_prefix needle hay ||
  match hay with
  | [] => false
  | _ :: t => contains_chars needle t
  end.

Definition contains (needle hay : string) : bool :=
  contains_chars (chars needle) (chars hay).

(** [int(s)] for text, base ten: surrounding blanks, one optional sign,
    digits with single underscores between them. *)
Fixpoint int_body (prev_digit : bool) (acc : Z) (l : list ascii) : option Z :=
  match l with
  | [] => if prev_digit then Some acc else None
  | c :: t =>
      if is_digit c then int_body true (10 * acc + digit_val c) t
      else if Ascii.eqb c "_"%char
           then (if prev_digit then int_body false acc t else None)
           else None
  end.

Definition int_of_chars (l : list ascii) : option Z :=
  match strip_by is_cspace l with
  | c :: t =>
      if Ascii.eqb c "-"%char then option_map Z.opp (int_body false 0 t)
      else if Ascii.eqb c "+"%char then int_body false 0 t
      else int_body false 0 (c :: t)
  | [] => None
  end.

Definition int_of_str (s : string) : result Z :=
  match int_of_chars (chars s) with
  | Some z => Ret z
  | None => Raise ValueError
  end.

End Text.

(* ===================================================================== *)
(** * [str] and [repr] of values *)
(* ===================================================================== *)

Module Py.
Import Text.

Definition hex_char (d : Z) : ascii :=
  if d <? 10 then chr (48 + d) else chr (87 + d).

(** One character of [repr(s)], for the quote [q] chosen for the text. *)
Definition repr_char (q : ascii) (c : ascii) : list ascii :=
  let n := code c in
  if Ascii.eqb c q || Ascii.eqb c backslash then [backslash; c]
  else if n =? 9 then [backslash; "t"%char]
  else if n =? 10 then [backslash; "n"%char]
  else if n =? 13 then [backslash; "r"%char]
  else if (n <? 32) || (n =? 127)
       then [backslash; "x"%char; hex_char (n / 16); hex_char (n mod 16)]
       else [c].

Definition repr_str (s : string) : list ascii :=
  let l := chars s in
  let q := if existsb (Ascii.eqb squote) l && negb (existsb (Ascii.eqb dquote) l)
           then dquote else squote in
  q :: flat_map (repr_char q) l ++ [q].

Fixpoint join (sep : list ascii) (parts : list (list ascii)) : list ascii :=
  match parts with
  | [] => []
  | [p] => p
  | p :: rest => p ++ sep ++ join sep rest
  end.

Fixpoint repr_chars (v : pyval) : list ascii :=
  match v with
  | PNone => chars "None"
  | PBool true => chars "True"
  | PBool false => chars "False"
  | PInt z => chars (str_of_int z)
  | PFloat r => chars r
  | PStr s => repr_str s
  | PList l => "["%char :: join (chars ", ") (map repr_chars l) ++ ["]"%char]
  | PDict d =>
      "{"%char ::
      join (chars ", ")
           (map (fun kv => repr_str (fst kv) ++ chars ": " ++ repr_chars (snd kv)) d)
      ++ ["}"%char]
  end.

(** [str(v)], also what an f-string field renders. *)
Definition str (v : pyval) : string :=
  match v with
  | PStr s => s
  | _ => text (repr_chars v)
  end.

(** Truthiness, as tested by [if v:] and [not v]. *)
Definition truthy (v : pyval) : bool :=
  match v with
  | PNone => false
  | PBool b => b
  | PInt z => negb (z =? 0)
  | PFloat r => negb (String.eqb r "0.0" || String.eqb r "-0.0")
  | PStr s => negb (String.eqb s "")
  | PList l => match l with [] => false | _ => true end
  | PDict d => match d with [] => false | _ => true end
  end.

(** Dictionaries keep insertion order; a key occurs once. *)
Fixpoint dict_get (d : list (string * pyval)) (k : string) : option pyval :=
  match d with
  | [] => None
  | (k', v) :: t => if String.eqb k' k then Some v else dict_get t k
  end.

Fixpoint dict_set (d : list (string * pyval)) (k : string) (v : pyval)
  : list (string * pyval) :=
  match d with
  | [] => [(k, v)]
  | (k', v') :: t =>
      if String.eqb k' k then (k, v) :: t else (k', v') :: dict_set t k v
  end.

Definition has_key (d : list (string * pyval)) (k : string) : bool :=
  match dict_get d k with Some _ => true | None => false end.

(** [v[k]] on a value: [KeyError] on a missing key, [TypeError] when the
    value cannot be indexed by a string key. *)
Definition subscript (v : pyval) (k : string) : result pyval :=
  match v with
  | PDict d => match dict_get d k with Some x => Ret x | None => Raise KeyError end
  | _ => Raise TypeError
  end.

(** [v.get(k, default)]: only dictionaries have the method. *)
Definition get (v : pyval) (k : string) (default : pyval) : result pyval :=
  match v with
  | PDict d => Ret (match dict_get d k with Some x => x | None => default end)
  | _ => Raise AttributeError
  end.

(** [try: r  except (classes): handler]. *)
Definition try_except {A} (r : result A) (caught : exn -> bool)
           (handler : exn -> result A) : result A :=
  match r with
  | Ret a => Ret a
  | Raise e => if caught e then handler e else Raise e
  end.

Definition any_exception (_ : exn) : bool := true.

End Py.

(* ===================================================================== *)
(** * [decimal.Decimal] as [format_price] uses it *)
(* ===================================================================== *)

Module Dec.
Import Text.

(** A decimal is a sign, a coefficient and an exponent, or a special. *)
Inductive decimal : Type :=
| DFin (neg : bool) (coef : Z) (exp : Z)
| DInf (neg : bool)
| DNaN (neg : bool) (signaling : bool) (diag : list ascii).

(** The default context. *)
Definition prec : Z := 28.
Definition Emax : Z := 999999.

Fixpoint span_digits (l : list ascii) : list ascii * list ascii :=
  match l with
  | c :: t =>
      if is_digit c then let '(d, r) := span_digits t in (c :: d, r)
      else ([], l)
  | [] => ([], [])
  end.

Fixpoint lstrip_zeros (l : list ascii) : list ascii :=
  match l with
  | c :: t => if Ascii.eqb c "0"%char then lstrip_zeros t else l
  | [] => []
  end.

Definition list_eqb (a b : list ascii) : bool := String.eqb (text a) (text b).

(** The optional exponent part, then the end of the text. *)
Definition parse_exponent (l : list ascii) : option Z :=
  match l with
  | [] => Some 0
  | c :: t =>
      if Ascii.eqb (lower_char c) "e"%char then
        let '(neg, t') :=
          match t with
          | s :: u =>
              if Ascii.eqb s "-"%char then (true, u)
              else if Ascii.eqb s "+"%char then (false, u) else (false, t)
          | [] => (false, t)
          end in
        let '(ds, rest) := span_digits t' in
        match ds, rest with
        | _ :: _, [] =>
            Some (if neg then - digits_value 0 ds else digits_value 0 ds)
        | _, _ => None
        end
      else None
  end.

Definition parse_number (neg : bool) (l : list ascii) : option decimal :=
  let '(ip, r1) := span_digits l in
  let '(fp, r2) :=
    match r1 with
    | c :: t => if Ascii.eqb c "."%char then span_digits t else ([], r1)
    | [] => ([], r1)
    end in
  match ip ++ fp with
  | [] => None
  | ds =>
      match parse_exponent r2 with
      | Some e => Some (DFin neg (digits_value 0 ds) (e - Z.of_nat (List.length fp)))
      | None => None
      end
  end.

Definition parse_special (neg : bool) (l : list ascii) : option decimal :=
  let lc := map lower_char l in
  if list_eqb lc (chars "inf") || list_eqb lc (chars "infinity")
  then Some (DInf neg)
  else
    let nan_of (sig : bool) (rest : list ascii) :=
      let '(ds, r) := span_digits rest in
      match r with
      | [] => Some (DNaN neg sig (lstrip_zeros ds))
      | _ => None
      end in
    match lc with
    | n1 :: a :: n2 :: rest =>
        if list_eqb [n1; a; n2] (chars "nan") then nan_of false rest
        else match rest with
             | n3 :: rest' =>
                 if list_eqb [n1; a; n2; n3] (chars "snan")
                 then nan_of true rest' else None
             | [] => None
             end
    | _ => None
    end.

(** [Decimal(s)] for text: blanks stripped at both ends, underscores
    dropped, a sign, then a number or a special value.  Anything else
    signals a conversion error, which the default context raises as
    [InvalidOperation]. *)
Definition of_str (s : string) : result decimal :=
  let l := filter (fun c => negb (Ascii.eqb c "_"%char)) (strip_chars (chars s)) in
  let '(neg, body) :=
    match l with
    | c :: t =>
        if Ascii.eqb c "-"%char then (true, t)
        else if Ascii.eqb c "+"%char then (false, t) else (false, l)
    | [] => (false, l)
    end in
  match parse_number neg body with
  | Some d => Ret d
  | None =>
      match parse_special neg body with
      | Some d => Ret d
      | None => Raise InvalidOperation
      end
  end.

Definition ndigits (c : Z) : Z := Z.of_nat (List.length (digits c)).

(** The coefficient after rescaling to exponent [-2] with ROUND_HALF_UP:
    pad with zeros, or drop [k] digits and add one when the first dropped
    digit is 5 or more. *)
Definition rescale_cents (c e : Z) : Z :=
  if -2 <=? e then c * 10 ^ (e + 2)
  else
    let k := -2 - e in
    if ndigits c - k <? 0 then 0
    else c / 10 ^ k + (if 5 <=? (c / 10 ^ (k - 1)) mod 10 then 1 else 0).

(** [d.quantize(Decimal('0.01'), rounding=ROUND_HALF_UP)]. *)
Definition quantize_cents (d : decimal) : result decimal :=
  match d with
  | DNaN neg true diag => Raise InvalidOperation
  | DNaN neg false diag =>
      Ret (DNaN neg false
             (if prec <? Z.of_nat (List.length diag)
              then lstrip_zeros (skipn (List.length diag - Z.to_nat prec) diag)
              else diag))
  | DInf _ => Raise InvalidOperation
  | DFin neg c e =>
      if c =? 0 then Ret (DFin neg 0 (-2))
      else
        let adjusted := e + ndigits c - 1 in
        if Emax <? adjusted then Raise InvalidOperation
        else if prec <? adjusted - (-2) + 1 then Raise InvalidOperation
        else
          let c' := rescale_cents c e in
          if prec <? ndigits c' then Raise InvalidOperation
          else Ret (DFin neg c' (-2))
  end.

Definition zeros (n : Z) : list ascii := repeat "0"%char (Z.to_nat n).

(** [str(d)]: plain notation when the exponent allows it, scientific
    notation otherwise. *)
Definition to_str (d : decimal) : string :=
  match d with
  | DInf neg => text ((if neg then ["-"%char] else []) ++ chars "Infinity")
  | DNaN neg sig diag =>
      text ((if neg then ["-"%char] else [])
            ++ chars (if sig then "sNaN" else "NaN") ++ diag)
  | DFin neg c e =>
      let int := digits c in
      let len := Z.of_nat (List.length int) in
      let leftdigits := e + len in
      let dotplace := if (e <=? 0) && (-6 <? leftdigits) then leftdigits else 1 in
      let '(intpart, fracpart) :=
        if dotplace <=? 0 then (["0"%char], "."%char :: zeros (- dotplace) ++ int)
        else if len <=? dotplace then (int ++ zeros (dotplace - len), [])
        else (firstn (Z.to_nat dotplace) int,
              "."%char :: skipn (Z.to_nat dotplace) int) in
      let exppart :=
        if leftdigits =? dotplace then []
        else "E"%char ::
             (if leftdigits - dotplace <? 0
              then "-"%char :: digits (dotplace - leftdigits)
              else "+"%char :: digits (leftdigits - dotplace)) in
      text ((if neg then ["-"%char] else []) ++ intpart ++ fracpart ++ exppart)
  end.

End Dec.

(* ===================================================================== *)
(** * Bands and prices *)
(* ===================================================================== *)

Definition catches_value_or_type (e : exn) : bool :=
  match e with
  | ValueError | TypeError => true
  | _ => false
  end.

(** Format price to 2 decimal places as string. *)
Definition format_price (price : pyval) : result string :=
  Py.try_except
    (decimal_price <-? Dec.of_str (Py.str price) ;;
     formatted <-? Dec.quantize_cents decimal_price ;;
     Ret (Dec.to_str formatted))
    catches_value_or_type
    (fun _ => Ret (Py.str price)).

Definition band_label (band : pyval) : result string :=
  lo <-? Py.subscript band "min" ;;
  hi <-? Py.subscript band "max" ;;
  Ret (Py.str lo ++ "-" ++ Py.str hi)%string.

Definition validate_band_structure (band : pyval) : bool :=
  match band with
  | PDict d => Py.has_key d "min" && Py.has_key d "max" && Py.has_key d "price"
  | _ => false
  end.

(** Stable insertion sort: what [sorted] computes for a total preorder. *)
Fixpoint insert_by {A} (le : A -> A -> bool) (x : A) (l : list A) : list A :=
  match l with
  | [] => [x]
  | y :: t => if le x y then x :: l else y :: insert_by le x t
  end.

Definition sort_by {A} (le : A -> A -> bool) (l : list A) : list A :=
  fold_right (insert_by le) [] l.

(** A candidate variant, as [build_variant_for_band] lays it out. *)
Record variant : Type := {
  price : string;
  inventory_management : pyval;
  inventory_policy : string;
  requires_shipping : bool;
  weight : Z;
  weight_unit : string;
  sku : pyval;
  taxable : bool;
  option1 : string;
  option2 : string;
  option3 : option string
}.

Definition variant_json (v : variant) : pyval :=
  PDict ([("price", PStr (price v));
          ("inventory_management", inventory_management v);
          ("inventory_policy", PStr (inventory_policy v));
          ("requires_shipping", PBool (requires_shipping v));
          ("weight", PInt (weight v));
          ("weight_unit", PStr (weight_unit v));
          ("sku", sku v);
          ("taxable", PBool (taxable v));
          ("option1", PStr (option1 v));
          ("option2", PStr (option2 v))]
         ++ match option3 v with
            | Some o => [("option3", PStr o)]
            | None => []
            end).

Definition build_variant_for_band (label : string) (band : pyval)
           (customer_type : string) (sku : pyval) (unit_weight : Z)
           (colour : option string) : result variant :=
  p <-? Py.subscript band "price" ;;
  formatted <-? format_price p ;;
  let mk o1 o2 o3 :=
    {| price := formatted;
       inventory_management := PNone;
       inventory_policy := "continue";
       requires_shipping := true;
       weight := unit_weight;
       weight_unit := "g";
       sku := sku;
       taxable := true;
       option1 := o1; option2 := o2; option3 := o3 |} in
  Ret (match colour with
       | Some c => if String.eqb c "" then mk label customer_type None
                   else mk c label (Some customer_type)
       | None => mk label customer_type None
       end).

(** [next((b for b in bands if band_label(b) == label), None)]. *)
Fixpoint first_band (bands : list pyval) (label : string)
  : result (option pyval) :=
  match bands with
  | [] => Ret None
  | b :: t =>
      l <-? band_label b ;;
      if String.eqb l label then Ret (Some b) else first_band t label
  end.

Definition is_some_truthy (o : option pyval) : bool :=
  match o with
  | Some v => Py.truthy v
  | None => false
  end.

(** [a + b] where [b] is text. *)
Definition add_text (a : pyval) (b : string) : result pyval :=
  match a with
  | PStr s => Ret (PStr (s ++ b))
  | _ => Raise TypeError
  end.

Fixpoint lookup_code (colour_codes : list (string * string)) (colour : string)
  : string :=
  match colour_codes with
  | [] => ""
  | (k, v) :: t => if String.eqb k colour then v else lookup_code t colour
  end.

Fixpoint rconcat {A B} (f : A -> result (list B)) (l : list A)
  : result (list B) :=
  match l with
  | [] => Ret []
  | x :: t => ys <-? f x ;; zs <-? rconcat f t ;; Ret (ys ++ zs)
  end.

Section Engine.

(** The runtime services the engine calls but does not define. *)
Variable json_loads : string -> result pyval.      (* [json.loads] on text *)
Variable float_of_str : string -> option string.   (* [float(s)]: the float's repr, or ValueError *)
Variable int_of_text : string -> result Z.         (* [int(s)] on text *)
Variable set_order : list string -> list string.   (* iteration order of [set(seq)] *)

(** [band["price"] = float(band["price"])] when the price is text. *)
Definition coerce_price (band : pyval) : pyval :=
  match band with
  | PDict d =>
      match Py.dict_get d "price" with
      | Some (PStr s) =>
          match float_of_str s with
          | Some r => PDict (Py.dict_set d "price" (PFloat r))
          | None => band
          end
      | _ => band
      end
  | _ => band
  end.

Definition parse_bands (value_str : pyval) : list pyval :=
  let decoded :=
    match value_str with
    | PStr s => json_loads s
    | _ => Raise TypeError
    end in
  match decoded with
  | Raise _ => []
  | Ret (PList data) =>
      if forallb validate_band_structure data then map coerce_price data else []
  | Ret _ => []
  end.

(** The sort key [int(str(x).split("-")[0])]. *)
Definition label_key (label : string) : result Z :=
  int_of_text (Text.before "-"%char label).

Definition key_le (a b : Z * string) : bool := fst a <=? fst b.

Definition collect_unique_band_labels (trade_bands endc_bands : list pyval)
  : result (list string) :=
  labels <-? rmap band_label (trade_bands ++ endc_bands) ;;
  let labels := set_order labels in
  match rmap label_key labels with
  | Ret keys => Ret (map snd (sort_by key_le (combine keys labels)))
  | Raise _ => Ret (sort_by String.leb labels)
  end.

Definition variants_for_label (trade_bands endc_bands : list pyval)
           (sku : pyval) (unit_weight : Z) (colour : option string)
           (label : string) : result (list variant) :=
  t_band <-? first_band trade_bands label ;;
  e_band <-? first_band endc_bands label ;;
  tv <-? match t_band with
         | Some b =>
             if Py.truthy b
             then v <-? build_variant_for_band label b "Trade" sku unit_weight colour ;;
                  Ret [v]
             else Ret []
         | None => Ret []
         end ;;
  ev <-? match e_band with
         | Some b =>
             if Py.truthy b
             then v <-? build_variant_for_band label b "End Customer" sku unit_weight colour ;;
                  Ret [v]
             else Ret []
         | None => Ret []
         end ;;
  Ret (tv ++ ev).

Definition build_variants (trade_bands endc_bands : list pyval) (sku : pyval)
           (unit_weight : Z) (colours : list string)
           (colour_codes : list (string * string)) : result (list variant) :=
  labels <-? collect_unique_band_labels trade_bands endc_bands ;;
  match colours with
  | _ :: _ =>
      rconcat
        (fun colour =>
           let colour_code := lookup_code colour_codes colour in
           variant_sku <-? (if String.eqb colour_code "" then Ret sku
                            else add_text sku ("/" ++ colour_code)) ;;
           rconcat (variants_for_label trade_bands endc_bands variant_sku
                                       unit_weight (Some colour))
                   labels)
        colours
  | [] =>
      rconcat (variants_for_label trade_bands endc_bands sku unit_weight None)
              labels
  end.

End Engine.

(** Iterating a value: a list yields its items, a dict its keys, text its
    characters; anything else is not iterable. *)
Definition py_iter (v : pyval) : result (list pyval) :=
  match v with
  | PList l => Ret l
  | PDict d => Ret (map (fun kv => PStr (fst kv)) d)
  | PStr s => Ret (map (fun c => PStr (String c "")) (Text.chars s))
  | _ => Raise TypeError
  end.

(** [v.get(key) == text]. *)
Definition get_is (v : pyval) (key : string) (expected : string) : result bool :=
  x <-? Py.get v key PNone ;;
  Ret (match x with
       | PStr s => String.eqb s expected
       | _ => false
       end).

(** [a and b] on tests that may raise: [b] is not run when [a] is false. *)
Definition and_then (a b : result bool) : result bool :=
  x <-? a ;; if x then b else Ret false.

(** [next((v for v in vs if test(v)), None)]. *)
Fixpoint first_match (test : pyval -> result bool) (vs : list pyval)
  : result (option pyval) :=
  match vs with
  | [] => Ret None
  | v :: t => ok <-? test v ;; if ok then Ret (Some v) else first_match test t
  end.

Definition match_colour (colour label customer_type : string) (v : pyval)
  : result bool :=
  and_then (get_is v "option1" colour)
           (and_then (get_is v "option2" label) (get_is v "option3" customer_type)).

Definition match_plain (label customer_type : string) (v : pyval) : result bool :=
  and_then (get_is v "option1" label) (get_is v "option2" customer_type).

Definition match_any_colour (label customer_type : string) (v : pyval)
  : result bool :=
  and_then (get_is v "option2" label) (get_is v "option3" customer_type).

Definition colour_given (colour : option string) : option string :=
  match colour with
  | Some c => if String.eqb c "" then None else Some c
  | None => None
  end.

(** The variant a band is matched to, if any. *)
Definition find_match (updated_variants : pyval) (label customer_type : string)
           (colour : option string) : result (option pyval) :=
  vs <-? py_iter updated_variants ;;
  match colour_given colour with
  | Some c => first_match (match_colour c label customer_type) vs
  | None =>
      m <-? first_match (match_plain label customer_type) vs ;;
      if is_some_truthy m then Ret m
      else first_match (match_any_colour label customer_type) vs
  end.

Definition enrich_band (updated_variants : pyval) (customer_type : string)
           (colour : option string) (band : pyval) : result (list pyval) :=
  label <-? band_label band ;;
  m <-? find_match updated_variants label customer_type colour ;;
  match m with
  | Some v =>
      if Py.truthy v then
        id <-? Py.get v "id" PNone ;;
        if Py.truthy id then
          id' <-? Py.subscript v "id" ;;
          match band with
          | PDict d =>
              let enriched := Py.dict_set d "id" id' in
              match Py.dict_get enriched "price" with
              | Some p =>
                  formatted <-? format_price p ;;
                  Ret [PDict (Py.dict_set enriched "price" (PStr formatted))]
              | None => Ret [PDict enriched]
              end
          | _ => Raise TypeError
          end
        else Ret []
      else Ret []
  | None => Ret []
  end.

Definition enrich_bands_with_variant_ids (bands : list pyval)
           (updated_variants : pyval) (customer_type : string)
           (colour : option string) : result (list pyval) :=
  rconcat (enrich_band updated_variants customer_type colour) bands.

(* ===================================================================== *)
(** * Vocabulary of the properties *)
(* ===================================================================== *)

(** ** Prices *)

(** The text after the first decimal point, if there is a point. *)
Fixpoint after_point (l : list ascii) : option (list ascii) :=
  match l with
  | [] => None
  | c :: t => if Ascii.eqb c "."%char then Some t else after_point t
  end.

(** Exactly two digits follow the decimal point. *)
Definition two_decimals (s : string) : bool :=
  match after_point (Text.chars s) with
  | Some [a; b] => Text.is_digit a && Text.is_digit b
  | _ => false
  end.

(** The magnitude [c * 10^e] in hundredths, rounded half up:
    [floor (100 * c * 10^e + 1/2)]. *)
Definition half_up_cents (c e : Z) : Z :=
  if -2 <=? e then c * 10 ^ (e + 2)
  else (2 * c + 10 ^ (-2 - e)) / (2 * 10 ^ (-2 - e)).

(** [n] hundredths written out: integer part, point, two digits. *)
Definition cents_text (neg : bool) (n : Z) : string :=
  Text.text ((if neg then ["-"%char] else [])
             ++ Text.digits (n / 100)
             ++ ["."%char; Text.digit_char (n / 10 mod 10);
                 Text.digit_char (n mod 10)]).

(** Text made of ASCII characters only, on which the readers of numbers
    above are exact. *)
Definition ascii_text (s : string) : bool :=
  forallb (fun c => Text.code c <? 128) (Text.chars s).

(** A price is numeric when its text reads as a finite decimal whose
    exponent lies in the default context's range. *)
Definition numeric_price (price : pyval) (neg : bool) (c e : Z) : Prop :=
  Dec.of_str (Py.str price) = Ret (Dec.DFin neg c e) /\
  0 <= c /\ - Dec.Emax <= e <= Dec.Emax.

(** ** Labels *)

(** The integer a label sorts under, when its prefix reads as one. *)
Definition key_of (int_of_text : string -> result Z) (label : string) : Z :=
  match label_key int_of_text label with
  | Ret k => k
  | Raise _ => 0
  end.

Definition key_parses (int_of_text : string -> result Z) (label : string)
  : bool :=
  match label_key int_of_text label with
  | Ret _ => true
  | Raise _ => false
  end.

(** A legal iteration order for a set: each distinct element once. *)
Definition set_order_ok (set_order : list string -> list string) : Prop :=
  forall l, Permutation (set_order l) (nodup string_dec l).

(** Two iteration orders Python may pick: insertion order and its reverse. *)
Definition insertion_order (l : list string) : list string := nodup string_dec l.
Definition reverse_order (l : list string) : list string := rev (nodup string_dec l).

(** A band with integer bounds and a price, as the parser returns it. *)
Definition band (lo hi : Z) (p : pyval) : pyval :=
  PDict [("min", PInt lo); ("max", PInt hi); ("price", p)].

(** ** Variants *)

(** The option tuple a variant carries. *)
Definition option_tuple (v : variant) : string * string * option string :=
  (option1 v, option2 v, option3 v).

(** The option tuples the bands and the colour list call for. *)
Definition implied_tuple (trade_bands endc_bands : list pyval)
           (colours : list string) (t : string * string * option string) : Prop :=
  exists b l,
    band_label b = Ret l /\
    match colours with
    | [] =>
        (In b trade_bands /\ t = (l, "Trade", None)) \/
        (In b endc_bands /\ t = (l, "End Customer", None))
    | _ :: _ =>
        exists c, In c colours /\
          ((In b trade_bands /\ t = (c, l, Some "Trade")) \/
           (In b endc_bands /\ t = (c, l, Some "End Customer")))
    end.

(** A band the synthesizer can price: it has a label and its price formats. *)
Definition priceable (b : pyval) : Prop :=
  exists l p s,
    band_label b = Ret l /\ Py.subscript b "price" = Ret p /\
    format_price p = Ret s.

(** No two distinct labels of the bands sort under the same integer. *)
Definition distinct_keys (int_of_text : string -> result Z)
           (trade_bands endc_bands : list pyval) : Prop :=
  forall labels,
    rmap band_label (trade_bands ++ endc_bands) = Ret labels ->
    forallb (key_parses int_of_text) labels = true ->
    forall a b, In a labels -> In b labels ->
                key_of int_of_text a = key_of int_of_text b -> a = b.

(** The option tuple laid out for a label, a customer type and a colour. *)
Definition shape (colour : option string) (label ctype : string)
  : string * string * option string :=
  match colour_given colour with
  | Some c => (c, label, Some ctype)
  | None => (label, ctype, None)
  end.

(** ** Match-back *)

(** The variant [v] carries the text [expected] under [key]. *)
Definition opt_is (v : pyval) (key expected : string) : Prop :=
  exists d, v = PDict d /\ Py.dict_get d key = Some (PStr expected).

(** The option tuple of [v] is [(colour, label, customer_type)]. *)
Definition matches_colour (v : pyval) (colour label customer_type : string) : Prop :=
  opt_is v "option1" colour /\ opt_is v "option2" label /\
  opt_is v "option3" customer_type.

(** The option tuple of [v] starts with [(label, customer_type)]. *)
Definition matches_plain (v : pyval) (label customer_type : string) : Prop :=
  opt_is v "option1" label /\ opt_is v "option2" customer_type.

(** The option tuple of [v] ends with [(label, customer_type)], whatever
    its first option is. *)
Definition matches_any_colour (v : pyval) (label customer_type : string) : Prop :=
  opt_is v "option2" label /\ opt_is v "option3" customer_type.

(** How [enrich_bands_with_variant_ids] matches, by its colour argument. *)
Definition matched (colour : option string) (v : pyval)
           (label customer_type : string) : Prop :=
  match colour_given colour with
  | Some c => matches_colour v c label customer_type
  | None => matches_plain v label customer_type \/
            matches_any_colour v label customer_type
  end.

(** [e] is the band [b] with [id] injected (and its price, if any,
    formatted). *)
Definition enriched_from (b e id : pyval) : Prop :=
  exists d, b = PDict d /\
    (e = PDict (Py.dict_set d "id" id) \/
     exists s, e = PDict (Py.dict_set (Py.dict_set d "id" id) "price" (PStr s))).

(** A confirmed variant as the platform returns it. *)
Definition confirmed (id : Z) (options : list (string * string)) : pyval :=
  PDict (("id", PInt id) :: map (fun kv => (fst kv, PStr (snd kv))) options).

(** ** Band parsing *)

(** A mapping with the keys [min], [max] and [price]. *)
Definition conforming (b : pyval) : Prop :=
  exists d, b = PDict d /\
    (exists x, Py.dict_get d "min" = Some x) /\
    (exists x, Py.dict_get d "max" = Some x) /\
    (exists x, Py.dict_get d "price" = Some x).

(** The price after coercion: text that reads as a float becomes that
    float, anything else stays. *)
Definition coerced_value (float_of_str : string -> option string) (p : pyval)
  : pyval :=
  match p with
  | PStr s => match float_of_str s with Some r => PFloat r | None => p end
  | _ => p
  end.

(** [b'] is the band [b] with its price coerced: same keys in the same
    order, same values except under [price]. *)
Definition price_coerced (float_of_str : string -> option string)
           (b b' : pyval) : Prop :=
  exists d d',
    b = PDict d /\ b' = PDict d' /\
    map fst d' = map fst d /\
    (forall k, k <> "price" -> Py.dict_get d' k = Py.dict_get d k) /\
    (forall p, Py.dict_get d "price" = Some p ->
               Py.dict_get d' "price" = Some (coerced_value float_of_str p)).

(** A decoder and a float reader defined on the few texts the examples
    use. *)
Definition quoted (s : string) : string :=
  String Text.dquote (s ++ String Text.dquote "").

Definition example_band_text : string :=
  "[{" ++ quoted "min" ++ ": 1, " ++ quoted "max" ++ ": 10, "
       ++ quoted "price" ++ ": " ++ quoted "5.00" ++ "}]".

Definition example_loads (s : string) : result pyval :=
  if String.eqb s example_band_text then Ret (PList [band 1 10 (PStr "5.00")])
  else if String.eqb s "[]" then Ret (PList [])
  else if String.eqb s "{}" then Ret (PDict [])
  else if String.eqb s "[1]" then Ret (PList [PInt 1])
  else Raise JSONDecodeError.

Definition example_float (s : string) : option string :=
  if String.eqb s "5.00" then Some "5.0" else None.

(* ===================================================================== *)
(** * The platform: requests, replies and the run of a script *)
(* ===================================================================== *)

Inductive method : Type := GET | POST | PUT.

(** The URLs the pipeline builds, by the resource they address. *)
Inductive endpoint : Type :=
| ProductsPage                          (* /products.json?limit=250 *)
| ProductMetafields (product_id : pyval) (limit : bool)
                                        (* /products/{id}/metafields.json[?limit=250] *)
| NextPage (url : string)               (* the URL of a Link rel="next" part *)
| Graphql                               (* /graphql.json *)
| ProductResource (product_id : pyval)  (* /products/{id}.json *)
| MetafieldResource (metafield_id : pyval)  (* /metafields/{id}.json *)
| MetafieldsCollection.                 (* /metafields.json *)

Record request : Type := {
  rq_method : method;
  rq_url : endpoint;
  rq_json : option pyval
}.

(** A response: its status, what [resp.json()] gives, and the URL the
    scan of the [Link] header yields for [rel="next"], if any. *)
Record response : Type := {
  status_code : Z;
  json : result pyval;
  link_next : option string
}.

(** The platform answers, or the connection fails. *)
Inductive reply : Type :=
| Reply (r : response)
| Unreachable.

Inductive event : Type :=
| Sent (rq : request)
| Slept (milliseconds : Z)
| Reported (successful failed : Z).

(** The world a run sees: the replies the platform will give, in order,
    and the trace of what the run did.  When the replies run out the
    platform is unreachable. *)
Record world : Type := { replies : list reply; trace : list event }.

Definition M (A : Type) : Type := world -> result A * world.

Definition ret {A} (a : A) : M A := fun w => (Ret a, w).
Definition raise {A} (e : exn) : M A := fun w => (Raise e, w).
Definition lift {A} (r : result A) : M A := fun w => (r, w).

Definition bind {A B} (m : M A) (k : A -> M B) : M B :=
  fun w =>
    match m w with
    | (Ret a, w') => k a w'
    | (Raise e, w') => (Raise e, w')
    end.

Notation "x <- m ;; k" := (bind m (fun x => k))
  (at level 61, m at next level, right associativity).
Notation "m ;;; k" := (bind m (fun _ => k))
  (at level 61, right associativity).

(** [try: m  except Exception: handler]. *)
Definition try_catch {A} (m : M A) (handler : exn -> M A) : M A :=
  fun w =>
    match m w with
    | (Ret a, w') => (Ret a, w')
    | (Raise e, w') => handler e w'
    end.

Definition log (e : event) (w : world) : world :=
  {| replies := replies w; trace := trace w ++ [e] |}.

Definition sleep (milliseconds : Z) : M unit :=
  fun w => (Ret tt, log (Slept milliseconds) w).

Definition report (successful failed : Z) : M unit :=
  fun w => (Ret tt, log (Reported successful failed) w).

(** [requests.request(method, url, **kwargs)]: one request, one reply. *)
Definition requests_request (rq : request) : M response :=
  fun w =>
    match replies w with
    | Reply r :: rest =>
        (Ret r, {| replies := rest; trace := trace w ++ [Sent rq] |})
    | Unreachable :: rest =>
        (Raise RequestException,
         {| replies := rest; trace := trace w ++ [Sent rq] |})
    | [] => (Raise RequestException, log (Sent rq) w)
    end.

(** [response.raise_for_status()]. *)
Definition raise_for_status (r : response) : result unit :=
  if (400 <=? status_code r) && (status_code r <? 600)
  then Raise RequestException else Ret tt.

(** Wrapper around requests with rate-limit handling (HTTP 429): retries
    on 429 with a short backoff, raises for other HTTP errors.  The loop
    runs once per reply it consumes. *)
Fixpoint safe_request_from (rq : request) (pending : list reply)
         (done : list event) : result response * world :=
  match pending with
  | Reply r :: rest =>
      if status_code r =? 429
      then safe_request_from rq rest (done ++ [Sent rq; Slept 2000])
      else (_ <-? raise_for_status r ;; Ret r,
            {| replies := rest; trace := done ++ [Sent rq] |})
  | Unreachable :: rest =>
      (Raise RequestException, {| replies := rest; trace := done ++ [Sent rq] |})
  | [] => (Raise RequestException, {| replies := []; trace := done ++ [Sent rq] |})
  end.

Definition safe_request (rq : request) : M response :=
  fun w => safe_request_from rq (replies w) (trace w).

Definition get_request (url : endpoint) : request :=
  {| rq_method := GET; rq_url := url; rq_json := None |}.

(** Return list of items from a REST collection endpoint with Link
    pagination.  Every page costs at least one reply, so a fuel of one
    more than the pending replies is never used up. *)
Fixpoint get_paginated_fuel (fuel : nat) (url : endpoint) : M (list pyval) :=
  match fuel with
  | O => raise RequestException
  | S f =>
      resp <- safe_request (get_request url) ;;
      data <- lift (json resp) ;;
      match link_next resp with
      | Some next_url =>
          if String.eqb next_url "" then ret [data]
          else rest <- get_paginated_fuel f (NextPage next_url) ;;
               ret (data :: rest)
      | None => ret [data]
      end
  end.

Definition _get_paginated (url : endpoint) : M (list pyval) :=
  fun w => get_paginated_fuel (S (List.length (replies w))) url w.

(** [collected.extend(page.get(key, []))] over the pages. *)
Definition collect_pages (key : string) (pages : list pyval) : result (list pyval) :=
  rconcat (fun page => items <-? Py.get page key (PList []) ;; py_iter items) pages.

(** Return list of products via REST, following Link pagination. *)
Definition get_all_products : M (list pyval) :=
  pages <- _get_paginated ProductsPage ;;
  lift (collect_pages "products" pages).

(** Return list of metafields for a product via REST, following
    pagination. *)
Definition get_all_metafields (product_id : pyval) : M (list pyval) :=
  pages <- _get_paginated (ProductMetafields product_id true) ;;
  lift (collect_pages "metafields" pages).

Definition is_text (v : pyval) (s : string) : bool :=
  match v with
  | PStr t => String.eqb t s
  | _ => false
  end.

(** Return mapping key -> {id, value} filtered by namespace 'custom' and
    provided keys. *)
Fixpoint select_metafields (keys : list string) (metafields : list pyval)
         (acc : list (string * pyval)) : result (list (string * pyval)) :=
  match metafields with
  | [] => Ret acc
  | mf :: rest =>
      ns <-? Py.get mf "namespace" PNone ;;
      acc' <-? (if is_text ns "custom" then
                  k <-? Py.get mf "key" PNone ;;
                  match k with
                  | PStr key =>
                      if existsb (String.eqb key) keys then
                        id <-? Py.get mf "id" PNone ;;
                        value <-? Py.get mf "value" PNone ;;
                        Ret (Py.dict_set acc key (PDict [("id", id); ("value", value)]))
                      else Ret acc
                  | _ => Ret acc
                  end
                else Ret acc) ;;
      select_metafields keys rest acc'
  end.

Definition get_metafields_by_keys (product_id : pyval) (keys : list string)
  : M (list (string * pyval)) :=
  metafields <- get_all_metafields product_id ;;
  lift (select_metafields keys metafields []).

Definition keys_to_fetch : list string :=
  ["pricejsontr"; "pricejsoner"; "pricejsontid"; "pricejsoneid";
   "unit_weight"; "sku"; "product_colours"].

(** [metafields.get(key, {}).get("value")]. *)
Definition metafield_value (metafields : list (string * pyval)) (key : string)
  : result pyval :=
  match Py.dict_get metafields key with
  | Some mf => Py.get mf "value" PNone
  | None => Ret PNone
  end.

Definition get_sku (metafields : list (string * pyval)) : result pyval :=
  sku <-? metafield_value metafields "sku" ;;
  Ret (if Py.truthy sku then sku else PStr "").

(** [len(v)]. *)
Definition py_len (v : pyval) : result Z :=
  match v with
  | PList l => Ret (Z.of_nat (List.length l))
  | PDict d => Ret (Z.of_nat (List.length d))
  | PStr s => Ret (Z.of_nat (String.length s))
  | _ => Raise TypeError
  end.

(** [text in v]. *)
Definition py_contains (needle : string) (v : pyval) : result bool :=
  match v with
  | PDict d => Ret (Py.has_key d needle)
  | PList l => Ret (existsb (fun x => is_text x needle) l)
  | PStr s => Ret (Text.contains needle s)
  | _ => Raise TypeError
  end.

(** The option names and, where the variants carry any, their sorted
    values, as [update_product_variants] sends them. *)
Definition option_values (colour_mode : bool) (variants : list variant)
  : list (string * list string) :=
  let used := filter (fun v => negb (String.eqb (option1 v) "")) variants in
  let third v := match option3 v with Some o => o | None => "" end in
  let sorted_set l := sort_by String.leb (nodup string_dec l) in
  if colour_mode
  then [("Colour", sorted_set (map option1 used));
        ("Quantity", sorted_set (map option2 used));
        ("Customer Type", sorted_set (map third used))]
  else [("Quantity", sorted_set (map option1 used));
        ("Customer Type", sorted_set (map option2 used))].

Definition options_with_values (colour_mode : bool) (variants : list variant)
  : pyval :=
  PList (map (fun nv =>
                match snd nv with
                | [] => PDict [("name", PStr (fst nv))]
                | vals => PDict [("name", PStr (fst nv));
                                 ("values", PList (map PStr vals))]
                end)
             (option_values colour_mode variants)).

Definition nonempty {A} (l : list A) : bool :=
  match l with [] => false | _ => true end.

Definition variants_payload (product_id : pyval) (variants : list variant)
           (colours : list string) : pyval :=
  PDict [("product",
          PDict [("id", product_id);
                 ("options", options_with_values (nonempty colours) variants);
                 ("variants", PList (map variant_json variants))])].

(** PUT full product options + variants array.  Returns updated variants
    list on success.  The request goes out through [requests.put]. *)
Definition update_product_variants (product_id : pyval) (variants : list variant)
           (colours : list string) : M pyval :=
  try_catch
    (resp <- requests_request
               {| rq_method := PUT; rq_url := ProductResource product_id;
                  rq_json := Some (variants_payload product_id variants colours) |} ;;
     if status_code resp =? 200 then
       lift (body <-? json resp ;;
             result <-? Py.get body "product" (PDict []) ;;
             created_variants <-? Py.get result "variants" (PList []) ;;
             _ <-? py_len created_variants ;;
             Ret created_variants)
     else ret (PList []))
    (fun _ => ret (PList [])).

Definition gid (product_id : pyval) : pyval :=
  PStr ("gid://shopify/Product/" ++ Py.str product_id).

Definition graphql_request (operation : string) (variables : pyval) : request :=
  {| rq_method := POST; rq_url := Graphql;
     rq_json := Some (PDict [("query", PStr operation); ("variables", variables)]) |}.

(** The bulk delete of the existing variants in [process_product]: two
    direct GraphQL posts inside a [try]; whatever fails, the run goes on. *)
Definition delete_existing_variants (product_id : pyval) : M unit :=
  try_catch
    (get_response <- requests_request
                       (graphql_request "getProductVariants"
                                        (PDict [("id", gid product_id)])) ;;
     if status_code get_response =? 200 then
       get_data <- lift (json get_response) ;;
       has_errors <- lift (py_contains "errors" get_data) ;;
       if has_errors then ret tt
       else
         variant_ids <- lift (data <-? Py.get get_data "data" (PDict []) ;;
                              product <-? Py.get data "product" (PDict []) ;;
                              vars <-? Py.get product "variants" (PDict []) ;;
                              edges <-? Py.get vars "edges" (PList []) ;;
                              edges <-? py_iter edges ;;
                              rmap (fun edge => node <-? Py.subscript edge "node" ;;
                                                Py.subscript node "id") edges) ;;
         match variant_ids with
         | [] => ret tt
         | _ :: _ =>
             delete_response <-
               requests_request
                 (graphql_request "productVariantsBulkDelete"
                    (PDict [("productId", gid product_id);
                            ("variantsIds", PList variant_ids)])) ;;
             if status_code delete_response =? 200 then
               delete_data <- lift (json delete_response) ;;
               has_errors <- lift (py_contains "errors" delete_data) ;;
               if has_errors then ret tt
               else
                 user_errors <- lift (data <-? Py.get delete_data "data" (PDict []) ;;
                                      res <-? Py.get data "productVariantsBulkDelete"
                                                     (PDict []) ;;
                                      Py.get res "userErrors" PNone) ;;
                 if Py.truthy user_errors then ret tt else sleep 1000
             else ret tt
         end
     else ret tt)
    (fun _ => ret tt).

(** The direct look at the product's metafields that [process_product]
    makes when [product_colours] was not among those fetched; it only
    prints. *)
Definition peek_metafields (product_id : pyval) : M unit :=
  try_catch
    (requests_request (get_request (ProductMetafields product_id false)) ;;; ret tt)
    (fun _ => ret tt).

Definition codes_set (codes : list (string * string)) (k v : string)
  : list (string * string) :=
  if existsb (fun kv => String.eqb (fst kv) k) codes
  then map (fun kv => if String.eqb (fst kv) k then (k, v) else kv) codes
  else codes ++ [(k, v)].

(** Colour options, in the format "Colour:Code" or just "Colour". *)
Fixpoint parse_colour_entries (entries : list string) (colours : list string)
         (codes : list (string * string)) : list string * list (string * string) :=
  match entries with
  | [] => (colours, codes)
  | entry :: rest =>
      let entry := Text.strip entry in
      match Text.split_once_chars ":"%char (Text.chars entry) with
      | (name, Some code) =>
          let colour := Text.strip (Text.text name) in
          parse_colour_entries rest (colours ++ [colour])
            (codes_set codes colour (Text.strip (Text.text code)))
      | (_, None) =>
          parse_colour_entries rest (colours ++ [entry]) (codes_set codes entry "")
      end
  end.

Definition parse_colours (metafields : list (string * pyval))
  : result (list string * list (string * string)) :=
  match Py.dict_get metafields "product_colours" with
  | Some mf =>
      value <-? Py.get mf "value" (PStr "") ;;
      match value with
      | PStr s =>
          let colours_str := Text.strip s in
          if String.eqb colours_str "" then Ret ([], [])
          else Ret (parse_colour_entries (Text.split ","%char colours_str) [] [])
      | _ => Raise AttributeError
      end
  | None => Ret ([], [])
  end.

Section Pipeline.

Variable json_loads : string -> result pyval.      (* [json.loads] on text *)
Variable json_dumps : pyval -> string.             (* [json.dumps(v, separators=(",", ": "))] *)
Variable float_of_str : string -> option string.   (* [float(s)] *)
Variable int_of_text : string -> result Z.         (* [int(s)] on text *)
Variable int_of_float : string -> result Z.        (* [int(x)] for the float with this repr *)
Variable set_order : list string -> list string.   (* iteration order of [set(seq)] *)

(** The image binder; the pipeline calls it last and ignores its result. *)
Variable attach_main_image_to_variants :
  pyval -> pyval -> list string -> pyval -> M bool.

Definition py_int (v : pyval) : result Z :=
  match v with
  | PInt z => Ret z
  | PBool b => Ret (if b then 1 else 0)
  | PFloat r => int_of_float r
  | PStr s => int_of_text s
  | _ => Raise TypeError
  end.

Definition catches_value (e : exn) : bool :=
  match e with ValueError => true | _ => false end.

Definition get_unit_weight_grams (metafields : list (string * pyval))
  : result Z :=
  unit_weight <-? metafield_value metafields "unit_weight" ;;
  match unit_weight with
  | PNone => Ret 0
  | _ => Py.try_except (py_int unit_weight) catches_value (fun _ => Ret 0)
  end.

Definition update_metafield (metafield_id : pyval) (value : pyval) : M bool :=
  resp <- safe_request
            {| rq_method := PUT; rq_url := MetafieldResource metafield_id;
               rq_json := Some (PDict [("metafield",
                                        PDict [("id", metafield_id);
                                               ("value", PStr (json_dumps value))])]) |} ;;
  ret (status_code resp =? 200).

Definition create_metafield (product_id : pyval) (key : string) (value : pyval)
  : M pyval :=
  resp <- safe_request
            {| rq_method := POST; rq_url := MetafieldsCollection;
               rq_json := Some (PDict [("metafield",
                                        PDict [("namespace", PStr "custom");
                                               ("key", PStr key);
                                               ("value", PStr (json_dumps value));
                                               ("type", PStr "single_line_text_field");
                                               ("owner_id", product_id);
                                               ("owner_resource", PStr "product")])]) |} ;;
  if status_code resp =? 201 then
    lift (body <-? json resp ;;
          metafield <-? Py.get body "metafield" PNone ;;
          Py.get (if Py.truthy metafield then metafield else PDict []) "id" PNone)
  else ret PNone.

Definition set_or_update_metafield (metafields : list (string * pyval))
           (product_id : pyval) (key : string) (value : pyval) : M unit :=
  match Py.dict_get metafields key with
  | Some mf =>
      id <- lift (Py.get mf "id" PNone) ;;
      if Py.truthy id
      then (id' <- lift (Py.subscript mf "id") ;;
            update_metafield id' value ;;; ret tt)
      else create_metafield product_id key value ;;; ret tt
  | None => create_metafield product_id key value ;;; ret tt
  end.

(** What [process_product] has in hand when it reaches the variant
    update. *)
Record prepared : Type := {
  p_product_id : pyval;
  p_product_name : pyval;
  p_metafields : list (string * pyval);
  p_sku : pyval;
  p_colours : list string;
  p_trade_raw : list pyval;
  p_endc_raw : list pyval;
  p_variants : list variant
}.

(** [process_product] up to and including the delete attempt: either an
    early [return] (with its value: [None] for a skipped product), or
    the state in which the variant update runs. *)
Definition prepare (product : pyval) : M (option bool + prepared) :=
  product_id <- lift (Py.get product "id" PNone) ;;
  product_name <- lift (Py.get product "title" (PStr "Unknown Product")) ;;
  if negb (Py.truthy product_id) then ret (inl None)
  else
    name <- lift (match product_name with
                  | PStr s => Ret (Text.lower s)
                  | _ => if Py.truthy product_name then Raise AttributeError
                         else Ret ""
                  end) ;;
    if Text.contains "origination" name then ret (inl None)
    else
      metafields <- get_metafields_by_keys product_id keys_to_fetch ;;
      (if Py.has_key metafields "product_colours" then ret tt
       else peek_metafields product_id) ;;;
      sku <- lift (get_sku metafields) ;;
      unit_weight <- lift (get_unit_weight_grams metafields) ;;
      cc <- lift (parse_colours metafields) ;;
      let '(colours, colour_codes) := cc in
      match Py.dict_get metafields "pricejsontr",
            Py.dict_get metafields "pricejsoner" with
      | Some tr, Some er =>
          tr_value <- lift (Py.get tr "value" (PStr "[]")) ;;
          er_value <- lift (Py.get er "value" (PStr "[]")) ;;
          let trade_raw := parse_bands json_loads float_of_str tr_value in
          let endc_raw := parse_bands json_loads float_of_str er_value in
          if negb (nonempty trade_raw) && negb (nonempty endc_raw) then ret (inl None)
          else
            variants <- lift (build_variants int_of_text set_order trade_raw
                                             endc_raw sku unit_weight colours
                                             colour_codes) ;;
            delete_existing_variants product_id ;;;
            ret (inr {| p_product_id := product_id;
                        p_product_name := product_name;
                        p_metafields := metafields;
                        p_sku := sku;
                        p_colours := colours;
                        p_trade_raw := trade_raw;
                        p_endc_raw := endc_raw;
                        p_variants := variants |})
      | _, _ => ret (inl None)
      end.

(** [process_product] from the variant update on. *)
Definition finish (product : pyval) (p : prepared) : M (option bool) :=
  updated_variants <- update_product_variants (p_product_id p) (p_variants p)
                                              (p_colours p) ;;
  (if Py.truthy updated_variants then lift (py_len updated_variants) else ret 0) ;;;
  if negb (Py.truthy updated_variants) then ret (Some false)
  else
    enriched_trade <- lift (enrich_bands_with_variant_ids
                              (p_trade_raw p) updated_variants "Trade" None) ;;
    enriched_endc <- lift (enrich_bands_with_variant_ids
                             (p_endc_raw p) updated_variants "End Customer" None) ;;
    set_or_update_metafield (p_metafields p) (p_product_id p) "pricejsontid"
                            (PList enriched_trade) ;;;
    set_or_update_metafield (p_metafields p) (p_product_id p) "pricejsoneid"
                            (PList enriched_endc) ;;;
    colour_images <- lift (Py.get product "_colour_images" PNone) ;;
    attach_main_image_to_variants (p_product_id p) (p_product_name p)
                                  (p_colours p) colour_images ;;;
    ret (Some true).

(** One product's run.  Its value is [True], [False], or [None] for a
    product that is skipped.  The handler reads the product's title, so a
    product that is not a mapping raises out of the function. *)
Definition process_product (product : pyval) : M (option bool) :=
  try_catch
    (r <- prepare product ;;
     match r with
     | inl early => ret early
     | inr p => finish product p
     end)
    (fun _ => _ <- lift (Py.get product "title" (PStr "Unknown")) ;;
              ret (Some false)).

End Pipeline.

(** [(p.get("title") or "").lower()]. *)
Definition lowered_or_empty (v : pyval) : result string :=
  match v with
  | PStr s => Ret (Text.lower s)
  | _ => if Py.truthy v then Raise AttributeError else Ret ""
  end.

(** The SKU of a product's first variant, lower-cased; the lookup sits in
    a [try] and yields the empty text on any failure. *)
Definition first_variant_sku (p : list (string * pyval)) : string :=
  match Py.dict_get p "variants" with
  | Some (PList (PDict v0 :: _)) =>
      match Py.dict_get v0 "sku" with
      | Some sku =>
          match lowered_or_empty sku with
          | Ret s => s
          | Raise _ => ""
          end
      | None => ""
      end
  | _ => ""
  end.

Fixpoint filter_by_text (flt : string) (products : list pyval)
  : result (list pyval) :=
  match products with
  | [] => Ret []
  | p :: rest =>
      match p with
      | PDict d =>
          match Py.dict_get d "id" with
          | Some id =>
              let pid := Py.str id in
              name <-? lowered_or_empty
                         (match Py.dict_get d "title" with Some t => t | None => PNone end) ;;
              let sku := first_variant_sku d in
              out <-? filter_by_text flt rest ;;
              Ret (if String.eqb flt (Text.lower pid) || String.eqb flt (Text.lower name)
                      || String.eqb flt (Text.lower sku)
                      || Text.contains flt name || Text.contains flt sku
                   then p :: out else out)
          | None => filter_by_text flt rest
          end
      | _ => filter_by_text flt rest
      end
  end.

Definition _filter_products (products : list pyval)
           (product_ids : option (list string)) (product_filter : option string)
  : result (list pyval) :=
  match product_ids with
  | Some ((_ :: _) as ids) =>
      let wanted := map Text.strip ids in
      Ret (filter (fun p =>
                     match p with
                     | PDict d =>
                         let id := match Py.dict_get d "id" with
                                   | Some x => x | None => PNone end in
                         existsb (String.eqb (Py.str id)) wanted
                     | _ => false
                     end)
                  products)
  | _ =>
      match product_filter with
      | Some f =>
          if String.eqb f "" then Ret products
          else filter_by_text (Text.strip (Text.lower f)) products
      | None => Ret products
      end
  end.

Section Batch.

Variable json_loads : string -> result pyval.
Variable json_dumps : pyval -> string.
Variable float_of_str : string -> option string.
Variable int_of_text : string -> result Z.
Variable int_of_float : string -> result Z.
Variable set_order : list string -> list string.
Variable attach_main_image_to_variants :
  pyval -> pyval -> list string -> pyval -> M bool.

Definition run_product : pyval -> M (option bool) :=
  process_product json_loads json_dumps float_of_str int_of_text int_of_float
                  set_order attach_main_image_to_variants.

(** The loop of [main] over the products: counters, the per-product
    [try], and the pause between products.  Each handler reads the
    product's title before it counts. *)
Fixpoint main_loop (products : list pyval) (successful failed : Z)
  : M (Z * Z) :=
  match products with
  | [] => ret (successful, failed)
  | product :: rest =>
      counted <-
        try_catch
          (_ <- lift (Py.get product "title" (PStr "Unknown")) ;;
           run_product product ;;;
           ret (successful + 1, failed, true))
          (fun _ =>
             _ <- lift (Py.get product "title" (PStr "Unknown")) ;;
             ret (successful, failed + 1, false)) ;;
      let '(s, f, ok) := counted in
      (if ok && nonempty rest then sleep 700 else ret tt) ;;;
      main_loop rest s f
  end.

(** [main], given [sys.argv[1:]]; its value is the exit code. *)
Definition main (argv : list string) : M Z :=
  try_catch
    (let '(product_ids, product_filter) :=
       match argv with
       | [] => (None, None)
       | a :: more =>
           match more with
           | ids :: _ =>
               if String.eqb a "--products"
               then (Some (Text.split ","%char (Text.strip ids)), None)
               else (None, Some (Text.strip a))
           | [] => (None, Some (Text.strip a))
           end
       end in
     products <- get_all_products ;;
     if negb (nonempty products) then ret 1
     else
       products <- lift (_filter_products products product_ids product_filter) ;;
       if negb (nonempty products) then ret 1
       else
         counts <- main_loop products 0 0 ;;
         report (fst counts) (snd counts) ;;;
         ret 0)
    (fun _ => ret 1).

End Batch.

(** ** Vocabulary of the pipeline properties *)

(** A request that writes a metafield. *)
Definition is_metafield_write (e : event) : bool :=
  match e with
  | Sent rq =>
      match rq_method rq, rq_url rq with
      | PUT, MetafieldResource _ => true
      | POST, MetafieldsCollection => true
      | _, _ => false
      end
  | _ => false
  end.

Definition metafield_writes (tr : list event) : list event :=
  filter is_metafield_write tr.

(** A response with a status and a JSON body. *)
Definition answer (status : Z) (body : pyval) : reply :=
  Reply {| status_code := status; json := Ret body; link_next := None |}.

(** An image binder that does nothing, for the examples. *)
Definition no_image_binder (_ _ : pyval) (_ : list string) (_ : pyval) : M bool :=
  ret true.

Definition example_dumps (v : pyval) : string := Py.str v.

Definition example_int_of_float (_ : string) : result Z := Raise ValueError.

(** The run from [w] to [w'] only appended events, none of them a
    metafield write. *)
Definition extends_quietly (w w' : world) : Prop :=
  exists evs, trace w' = trace w ++ evs /\ metafield_writes evs = [].

(** A computation that never writes a metafield. *)
Definition quiet {A} (m : M A) : Prop :=
  forall w, extends_quietly w (snd (m w)).

(** ** Example runs *)

Definition is_sleep (e : event) : bool :=
  match e with Slept _ => true | _ => false end.

(** A request that sends the variants of a product. *)
Definition is_variant_update (e : event) : bool :=
  match e with
  | Sent rq =>
      match rq_method rq, rq_url rq with
      | PUT, ProductResource _ => true
      | _, _ => false
      end
  | _ => false
  end.

Definition metafield_json (key : string) (id : Z) (value : string) : pyval :=
  PDict [("namespace", PStr "custom"); ("key", PStr key);
         ("id", PInt id); ("value", PStr value)].

Definition product_json (id : Z) (title : string) : pyval :=
  PDict [("id", PInt id); ("title", PStr title)].

(** The platform's side of a run up to the variant update: the page of
    metafields with one Trade band and no End Customer band, the answer
    to the direct look at the metafields, and a product with no variant
    to delete. *)
Definition replies_before_update : list reply :=
  [answer 200 (PDict [("metafields",
                       PList [metafield_json "pricejsontr" 11 example_band_text;
                              metafield_json "pricejsoner" 12 "[]"])]);
   answer 200 (PDict [("metafields", PList [])]);
   answer 200 (PDict [("data",
                       PDict [("product",
                               PDict [("variants", PDict [("edges", PList [])])])])])].

(** The platform's answer to a variant update that worked. *)
Definition update_accepted : reply :=
  answer 200 (PDict [("product",
                      PDict [("variants",
                              PList [confirmed 41 [("option1", "1-10");
                                                   ("option2", "Trade")]])])]).

Definition fresh (rs : list reply) : world := {| replies := rs; trace := [] |}.

Definition example_run : pyval -> M (option bool) :=
  process_product example_loads example_dumps example_float Text.int_of_str
                  example_int_of_float insertion_order no_image_binder.

Definition example_main : list string -> M Z :=
  main example_loads example_dumps example_float Text.int_of_str
       example_int_of_float insertion_order no_image_binder.

(** ** Vocabulary of the further properties *)

(** A page of a collection: a status that is neither a rate limit nor an
    error, a JSON body, and the URL of the next page, if any. *)
Definition page (data : pyval) (next : option string) : response :=
  {| status_code := 200; json := Ret data; link_next := next |}.

(** The requests a collection of [pages] linked from [url] costs. *)
Definition page_requests (url : endpoint) (nexts : list string) : list event :=
  map (fun u => Sent (get_request u)) (url :: map NextPage nexts).

(** [n] rounds of a rate-limited request: sent, then a two-second sleep. *)
Fixpoint retries (rq : request) (n : nat) : list event :=
  match n with
  | O => []
  | S k => Sent rq :: Slept 2000 :: retries rq k
  end.

(** The third option of a variant as [update_product_variants] reads it:
    [variant.get("option3", "")]. *)
Definition third_option (v : variant) : string :=
  match option3 v with Some o => o | None => "" end.

(** Which option of a variant an option name stands for. *)
Definition option_reader (colour_mode : bool) (name : string)
  : option (variant -> string) :=
  if colour_mode then
    if String.eqb name "Colour" then Some option1
    else if String.eqb name "Quantity" then Some option2
    else if String.eqb name "Customer Type" then Some third_option
    else None
  else
    if String.eqb name "Quantity" then Some option1
    else if String.eqb name "Customer Type" then Some option2
    else None.

(** The request that updates an existing metafield, and the one that
    creates a metafield. *)
Definition update_request (json_dumps : pyval -> string)
           (metafield_id value : pyval) : request :=
  {| rq_method := PUT; rq_url := MetafieldResource metafield_id;
     rq_json := Some (PDict [("metafield",
                              PDict [("id", metafield_id);
                                     ("value", PStr (json_dumps value))])]) |}.

Definition create_request (json_dumps : pyval -> string)
           (product_id : pyval) (key : string) (value : pyval) : request :=
  {| rq_method := POST; rq_url := MetafieldsCollection;
     rq_json := Some (PDict [("metafield",
                              PDict [("namespace", PStr "custom");
                                     ("key", PStr key);
                                     ("value", PStr (json_dumps value));
                                     ("type", PStr "single_line_text_field");
                                     ("owner_id", product_id);
                                     ("owner_resource", PStr "product")])]) |}.

(** The request [set_or_update_metafield] makes for [key]: an update when
    the fetched metafields hold the key with a truthy id, a creation
    otherwise. *)
Definition metafield_request (json_dumps : pyval -> string)
           (metafields : list (string * pyval)) (product_id : pyval)
           (key : string) (value : pyval) : request :=
  match Py.dict_get metafields key with
  | Some (PDict mf) =>
      match Py.dict_get mf "id" with
      | Some id => if Py.truthy id then update_request json_dumps id value
                   else create_request json_dumps product_id key value
      | None => create_request json_dumps product_id key value
      end
  | _ => create_request json_dumps product_id key value
  end.

(** The variant update request. *)
Definition variants_request (product_id : pyval) (variants : list variant)
           (colours : list string) : request :=
  {| rq_method := PUT; rq_url := ProductResource product_id;
     rq_json := Some (variants_payload product_id variants colours) |}.

(** A metafield as [get_metafields_by_keys] keeps it. *)
Definition kept_metafield (mf : pyval) (key : string) (entry : pyval) : Prop :=
  exists id value,
    Py.get mf "namespace" PNone = Ret (PStr "custom") /\
    Py.get mf "key" PNone = Ret (PStr key) /\
    Py.get mf "id" PNone = Ret id /\ Py.get mf "value" PNone = Ret value /\
    entry = PDict [("id", id); ("value", value)].

(** A metafield that [get_metafields_by_keys] does not keep under [key]. *)
Definition unkept (key : string) (mf : pyval) : Prop :=
  forall entry, ~ kept_metafield mf key entry.

(** A variant with the given options and the fixed fields of
    [build_variant_for_band]. *)
Definition variant_of_options (o1 o2 : string) (o3 : option string) : variant :=
  {| price := "1.00"; inventory_management := PNone;
     inventory_policy := "continue"; requires_shipping := true;
     weight := 0; weight_unit := "g"; sku := PStr ""; taxable := true;
     option1 := o1; option2 := o2; option3 := o3 |}.

(** An event that changes nothing on the platform: a GET, a sleep, a
    report. *)
Definition is_read (e : event) : bool :=
  match e with
  | Sent rq => match rq_method rq with GET => true | _ => false end
  | _ => true
  end.

(** A computation that only appends events, all of them of the kind
    [allowed]. *)
Definition confined (allowed : event -> bool) {A} (m : M A) : Prop :=
  forall w, exists evs,
    trace (snd (m w)) = trace w ++ evs /\ forallb allowed evs = true.

Definition any_event (_ : event) : bool := true.

(** A value that is a mapping. *)
Definition is_mapping (v : pyval) : bool :=
  match v with PDict _ => true | _ => false end.

(** A computation whose value, when it returns one, is a verdict rather
    than the [None] of a skipped product. *)
Definition decides (m : M (option bool)) : Prop :=
  forall w r w', m w = (Ret r, w') -> r <> None.

(** The run from [w] to [w'] only appended events that change nothing on
    the platform. *)
Definition only_read (w w' : world) : Prop :=
  exists evs, trace w' = trace w ++ evs /\ forallb is_read evs = true.

(** A computation that has only read whenever it returns early. *)
Definition reads_until_early {P : Type} (m : M (option bool + P)) : Prop :=
  forall w x w', m w = (Ret (inl x), w') -> only_read w w'.

(** ** The products endpoint of the web application *)




(** The test [_filter_products] applies to a product under a non-empty
    list of ids. *)
Definition wanted_by_id (ids : list string) (p : pyval) : Prop :=
  exists d, p = PDict d /\
            In (Py.str (match Py.dict_get d "id" with Some x => x | None => PNone end))
               (map Text.strip ids).

(* ===================================================================== *)
(** * Facts and theorems *)
(* ===================================================================== *)

Module TextFacts.
Import Text.

Lemma digits_fuel_S : forall f n,
  digits_fuel (S f) n =
  if n <? 10 then [digit_char n]
  else digits_fuel f (n / 10) ++ [digit_char (n mod 10)].
Proof. reflexivity. Qed.

Lemma digits_fuel_indep : forall f1 f2 n,
  0 <= n < 2 ^ Z.of_nat (S f1) -> 0 <= n < 2 ^ Z.of_nat (S f2) ->
  digits_fuel (S f1) n = digits_fuel (S f2) n.
Proof.
  induction f1 as [|f1 IH]; intros f2 n H1 H2.
  - simpl in H1. simpl. destruct (n <? 10) eqn:E; [reflexivity|].
    apply Z.ltb_ge in E. lia.
  - rewrite (digits_fuel_S (S f1)), (digits_fuel_S f2).
    destruct (n <? 10) eqn:E; [reflexivity|].
    apply Z.ltb_ge in E.
    destruct f2 as [|f2]; [simpl in H2; lia|].
    rewrite (IH f2 (n / 10)); [reflexivity| |].
    + rewrite (Nat2Z.inj_succ (S f1)), Z.pow_succ_r in H1 by lia.
      split; [apply Z.div_pos; lia|].
      apply Z.div_lt_upper_bound; lia.
    + rewrite (Nat2Z.inj_succ (S f2)), Z.pow_succ_r in H2 by lia.
      split; [apply Z.div_pos; lia|].
      apply Z.div_lt_upper_bound; lia.
Qed.

Lemma log2_fuel_bound : forall n, 0 <= n ->
  0 <= n < 2 ^ Z.of_nat (S (Z.to_nat (Z.log2 n))).
Proof.
  intros n Hn. rewrite Nat2Z.inj_succ, Z2Nat.id by apply Z.log2_nonneg.
  destruct (Z.eq_dec n 0) as [->|Hz]; [simpl; lia|].
  pose proof (Z.log2_spec n ltac:(lia)). lia.
Qed.

Lemma digits_small : forall n, 0 <= n < 10 -> digits n = [digit_char n].
Proof.
  intros n H. unfold digits. simpl.
  destruct (n <? 10) eqn:E; [reflexivity|]. apply Z.ltb_ge in E. lia.
Qed.

Lemma digits_step : forall n, 10 <= n ->
  digits n = digits (n / 10) ++ [digit_char (n mod 10)].
Proof.
  intros n H. unfold digits at 1. rewrite digits_fuel_S.
  destruct (n <? 10) eqn:E; [apply Z.ltb_lt in E; lia|].
  f_equal. unfold digits.
  assert (0 < Z.log2 n) as L by (apply Z.log2_pos; lia).
  destruct (Z.to_nat (Z.log2 n)) as [|f] eqn:F; [lia|].
  apply digits_fuel_indep.
  - pose proof (log2_fuel_bound n ltac:(lia)) as B. rewrite F in B.
    rewrite (Nat2Z.inj_succ (S f)), Z.pow_succ_r in B by lia.
    split; [apply Z.div_pos; lia|].
    apply Z.div_lt_upper_bound; lia.
  - apply log2_fuel_bound. apply Z.div_pos; lia.
Qed.

(** Induction over the decimal digits of a number. *)
Lemma digits_ind (P : Z -> Prop) :
  (forall n, 0 <= n < 10 -> P n) ->
  (forall n, 10 <= n -> P (n / 10) -> P n) ->
  forall n, 0 <= n -> P n.
Proof.
  intros Hs Hstep n Hn.
  revert n Hn. apply Zlt_0_ind.
  intros m IH Hm.
  destruct (Z_lt_ge_dec m 10) as [Hlt|Hge].
  - apply Hs; lia.
  - apply Hstep; [lia|]. apply IH.
    split; [apply Z.div_pos; lia|]. apply Z.div_lt; lia.
Qed.

Lemma is_digit_digit_char : forall d, 0 <= d < 10 -> is_digit (digit_char d) = true.
Proof.
  intros d H.
  assert (d = 0 \/ d = 1 \/ d = 2 \/ d = 3 \/ d = 4 \/ d = 5 \/ d = 6 \/ d = 7
          \/ d = 8 \/ d = 9) as C by lia.
  repeat (destruct C as [->|C]; [reflexivity|]). subst; reflexivity.
Qed.

Lemma digits_all_digits : forall n, 0 <= n -> Forall (fun c => is_digit c = true) (digits n).
Proof.
  apply digits_ind.
  - intros n H. rewrite digits_small by lia. constructor; [|constructor].
    apply is_digit_digit_char; lia.
  - intros n H IH. rewrite digits_step by lia.
    apply Forall_app; split; [exact IH|]. constructor; [|constructor].
    apply is_digit_digit_char. apply Z.mod_pos_bound; lia.
Qed.

Lemma digits_length_pos : forall n, 0 <= n -> (0 < List.length (digits n))%nat.
Proof.
  intros n Hn. destruct (Z_lt_ge_dec n 10).
  - rewrite digits_small by lia. simpl. lia.
  - rewrite digits_step by lia. rewrite length_app. simpl. lia.
Qed.

Lemma digits_bounds : forall n, 0 <= n -> 0 < n ->
  10 ^ (Z.of_nat (List.length (digits n)) - 1) <= n
  < 10 ^ Z.of_nat (List.length (digits n)).
Proof.
  intros n Hn. pattern n. revert n Hn. apply digits_ind.
  - intros n H Hp. rewrite digits_small by lia. simpl. lia.
  - intros n H IH _. rewrite digits_step by lia. rewrite length_app. simpl.
    assert (0 < n / 10) as Hq by (apply Z.div_str_pos; lia).
    specialize (IH Hq).
    pose proof (digits_length_pos (n / 10) ltac:(lia)) as Lp.
    set (k := List.length (digits (n / 10))) in *.
    replace (Z.of_nat (k + 1) - 1) with (Z.succ (Z.of_nat k - 1)) by lia.
    replace (Z.of_nat (k + 1)) with (Z.succ (Z.of_nat k)) by lia.
    rewrite !Z.pow_succ_r by lia.
    pose proof (Z.div_mod n 10 ltac:(lia)) as DM.
    pose proof (Z.mod_pos_bound n 10 ltac:(lia)) as MB.
    lia.
Qed.

End TextFacts.

Module DecFacts.
Import Text Dec TextFacts.

Lemma ndigits_bounds : forall c, 0 < c ->
  10 ^ (ndigits c - 1) <= c < 10 ^ ndigits c.
Proof. intros c H. unfold ndigits. apply digits_bounds; lia. Qed.

Lemma ndigits_pos : forall c, 0 <= c -> 0 < ndigits c.
Proof.
  intros c H. unfold ndigits. pose proof (digits_length_pos c H). lia.
Qed.

Lemma ndigits_le : forall c m, 0 <= c -> 0 <= m -> c < 10 ^ m -> 0 < m -> ndigits c <= m.
Proof.
  intros c m Hc Hm Hlt Hmp.
  destruct (Z.eq_dec c 0) as [->|Hz].
  - unfold ndigits. rewrite digits_small by lia. simpl. lia.
  - pose proof (ndigits_bounds c ltac:(lia)) as [Hlo _].
    destruct (Z_le_gt_dec (ndigits c) m) as [|Hgt]; [assumption|exfalso].
    assert (10 ^ m <= 10 ^ (ndigits c - 1)) by (apply Z.pow_le_mono_r; lia).
    lia.
Qed.

Lemma ndigits_ge : forall c m, 0 < c -> 0 <= m -> 10 ^ m <= c -> m < ndigits c.
Proof.
  intros c m Hc Hm Hle.
  pose proof (ndigits_bounds c Hc) as [_ Hhi].
  pose proof (ndigits_pos c ltac:(lia)).
  destruct (Z_lt_ge_dec m (ndigits c)) as [|Hge]; [assumption|exfalso].
  assert (10 ^ ndigits c <= 10 ^ m) by (apply Z.pow_le_mono_r; lia).
  lia.
Qed.

(** The digit test of ROUND_HALF_UP computes [floor (x + 1/2)]. *)
Lemma rescale_is_half_up : forall c e, 0 <= c ->
  rescale_cents c e = half_up_cents c e.
Proof.
  intros c e Hc. unfold rescale_cents, half_up_cents.
  destruct (-2 <=? e) eqn:E; [reflexivity|]. apply Z.leb_gt in E.
  set (k := -2 - e). assert (0 < k) as Hk by (unfold k; lia).
  assert (10 ^ k = 10 * 10 ^ (k - 1)) as Hpow.
  { replace k with (Z.succ (k - 1)) at 1 by lia. rewrite Z.pow_succ_r by lia. reflexivity. }
  assert (0 < 10 ^ (k - 1)) as Hp by (apply Z.pow_pos_nonneg; lia).
  set (P := 10 ^ (k - 1)) in *. rewrite Hpow.
  destruct (ndigits c - k <? 0) eqn:N.
  - apply Z.ltb_lt in N.
    assert (c < P) as Hsmall.
    { destruct (Z.eq_dec c 0) as [->|Hz]; [lia|].
      pose proof (ndigits_bounds c ltac:(lia)) as [_ Hhi].
      assert (10 ^ ndigits c <= P).
      { unfold P. apply Z.pow_le_mono_r; lia. }
      lia. }
    symmetry. apply Z.div_small. lia.
  - pose proof (Z.div_mod c (10 * P) ltac:(lia)) as DM.
    pose proof (Z.mod_pos_bound c (10 * P) ltac:(lia)) as MB.
    set (q := c / (10 * P)) in *. set (r := c mod (10 * P)) in *.
    assert (c / P = 10 * q + r / P) as HcP.
    { rewrite DM at 1.
      replace (10 * P * q + r) with (r + (10 * q) * P) by ring.
      rewrite Z.div_add by lia. ring. }
    assert (0 <= r / P < 10) as HrP.
    { split; [apply Z.div_pos; lia|]. apply Z.div_lt_upper_bound; lia. }
    assert ((c / P) mod 10 = r / P) as Hd.
    { rewrite HcP. replace (10 * q + r / P) with (r / P + q * 10) by ring.
      rewrite Z.mod_add by lia. apply Z.mod_small. lia. }
    rewrite Hd.
    pose proof (Z.div_mod r P ltac:(lia)) as DM2.
    pose proof (Z.mod_pos_bound r P ltac:(lia)) as MB2.
    destruct (5 <=? r / P) eqn:F.
    + apply Z.leb_le in F.
      apply Z.div_unique with (r := 2 * r - 10 * P); nia.
    + apply Z.leb_gt in F.
      apply Z.div_unique with (r := 2 * r + 10 * P); nia.
Qed.

(** [floor (x + 1/2)] is the nearest number of hundredths, ties going up. *)
Lemma half_up_nearest : forall c e, 0 <= c -> e < -2 ->
  let n := half_up_cents c e in
  let s := 10 ^ (-2 - e) in
  2 * n * s - s <= 2 * c < 2 * n * s + s.
Proof.
  intros c e Hc He n s. unfold n, half_up_cents.
  destruct (-2 <=? e) eqn:E; [apply Z.leb_le in E; lia|].
  fold s. assert (0 < s) as Hs by (unfold s; apply Z.pow_pos_nonneg; lia).
  pose proof (Z.div_mod (2 * c + s) (2 * s) ltac:(lia)) as DM.
  pose proof (Z.mod_pos_bound (2 * c + s) (2 * s) ltac:(lia)) as MB.
  nia.
Qed.

Lemma half_up_nonneg : forall c e, 0 <= c -> 0 <= half_up_cents c e.
Proof.
  intros c e Hc. unfold half_up_cents. destruct (-2 <=? e) eqn:E.
  - apply Z.leb_le in E. apply Z.mul_nonneg_nonneg; [lia|]. apply Z.pow_nonneg; lia.
  - apply Z.leb_gt in E.
    assert (0 < 10 ^ (-2 - e)) by (apply Z.pow_pos_nonneg; lia).
    apply Z.div_pos; lia.
Qed.

End DecFacts.

Module PriceFacts.
Import Text Dec TextFacts DecFacts.

Lemma chars_text : forall l, chars (text l) = l.
Proof. intro l. apply list_ascii_of_string_of_list_ascii. Qed.

Lemma to_str_cents : forall neg n, 0 <= n ->
  to_str (DFin neg n (-2)) = cents_text neg n.
Proof.
  intros neg n Hn. unfold to_str, cents_text.
  destruct (Z_lt_ge_dec n 10) as [H10|H10].
  - rewrite (digits_small n) by lia. simpl.
    rewrite (Z.div_small n 100) by lia. rewrite (Z.div_small n 10) by lia.
    rewrite (Z.mod_small n 10) by lia. reflexivity.
  - destruct (Z_lt_ge_dec n 100) as [H100|H100].
    + rewrite (digits_step n) by lia.
      assert (0 <= n / 10 < 10) as Hq.
      { split; [apply Z.div_pos; lia|apply Z.div_lt_upper_bound; lia]. }
      rewrite (digits_small (n / 10)) by lia. simpl.
      rewrite (Z.div_small n 100) by lia.
      rewrite (Z.mod_small (n / 10) 10) by lia. reflexivity.
    + rewrite (digits_step n) by lia.
      assert (10 <= n / 10) as Hq by (apply Z.div_le_lower_bound; lia).
      rewrite (digits_step (n / 10)) by lia.
      rewrite Z.div_div by lia. change (10 * 10) with 100.
      pose proof (digits_length_pos (n / 100) ltac:(apply Z.div_pos; lia)) as Lp.
      set (hd := digits (n / 100)) in *.
      assert (exists m, Z.of_nat (List.length hd) = m /\ 0 < m) as [m [Hm Hmp]]
        by (eexists; split; [reflexivity|lia]).
      remember ((hd ++ [digit_char ((n / 10) mod 10)]) ++ [digit_char (n mod 10)])
        as ds eqn:Hds.
      assert (Z.of_nat (List.length ds) = m + 2) as Hlen
        by (subst ds; rewrite !length_app; cbn [List.length]; lia).
      rewrite Hlen.
      replace (-2 + (m + 2)) with m by lia.
      replace (-2 <=? 0) with true by reflexivity. cbn [andb].
      replace (-6 <? m) with true by (symmetry; apply Z.ltb_lt; lia).
      replace (m <=? 0) with false by (symmetry; apply Z.leb_gt; lia).
      replace (m + 2 <=? m) with false by (symmetry; apply Z.leb_gt; lia).
      rewrite Z.eqb_refl. rewrite <- Hm, Nat2Z.id. subst ds.
      rewrite <- !app_assoc. rewrite firstn_app, firstn_all, Nat.sub_diag.
      rewrite skipn_app, skipn_all, Nat.sub_diag. simpl.
      rewrite !app_nil_r. reflexivity.
Qed.

Lemma after_point_digits : forall l r,
  Forall (fun c => is_digit c = true) l ->
  after_point (l ++ "."%char :: r) = Some r.
Proof.
  induction l as [|c l IH]; intros r H; [reflexivity|].
  inversion H as [|? ? Hc Hl]; subst. simpl.
  destruct (Ascii.eqb c ".") eqn:E.
  - apply Ascii.eqb_eq in E. subst c. discriminate Hc.
  - apply IH. assumption.
Qed.

Lemma two_decimals_cents_text : forall neg n, 0 <= n ->
  two_decimals (cents_text neg n) = true.
Proof.
  intros neg n Hn. unfold two_decimals, cents_text. rewrite chars_text.
  assert (after_point
            (digits (n / 100)
             ++ ["."%char; digit_char (n / 10 mod 10); digit_char (n mod 10)])
          = Some [digit_char (n / 10 mod 10); digit_char (n mod 10)]) as H.
  { apply after_point_digits. apply digits_all_digits. apply Z.div_pos; lia. }
  assert (is_digit (digit_char (n / 10 mod 10)) && is_digit (digit_char (n mod 10))
          = true) as D.
  { rewrite !is_digit_digit_char; [reflexivity| |]; apply Z.mod_pos_bound; lia. }
  destruct neg; simpl; simpl in H; rewrite H; exact D.
Qed.

Lemma half_up_zero : forall e, half_up_cents 0 e = 0.
Proof.
  intro e. unfold half_up_cents. destruct (-2 <=? e) eqn:E; [reflexivity|].
  apply Z.leb_gt in E.
  assert (0 < 10 ^ (-2 - e)) by (apply Z.pow_pos_nonneg; lia).
  apply Z.div_small. lia.
Qed.

(** [quantize] succeeds exactly when the rounded coefficient fits the
    context precision; this is the direction the engine relies on. *)
Lemma quantize_cents_fits : forall neg c e,
  0 <= c -> half_up_cents c e < 10 ^ prec ->
  quantize_cents (DFin neg c e) = Ret (DFin neg (half_up_cents c e) (-2)).
Proof.
  intros neg c e Hc Hfit. unfold quantize_cents.
  destruct (c =? 0) eqn:Z0.
  - apply Z.eqb_eq in Z0. subst c. rewrite half_up_zero. reflexivity.
  - apply Z.eqb_neq in Z0. assert (0 < c) as Hpos by lia.
    pose proof (ndigits_bounds c Hpos) as [Hlo _].
    pose proof (ndigits_pos c Hc) as Np.
    assert (e + ndigits c <= 26) as Hadj.
    { destruct (Z_le_gt_dec (e + ndigits c) 26) as [|Hgt]; [assumption|exfalso].
      unfold half_up_cents in Hfit. unfold prec in Hfit.
      destruct (-2 <=? e) eqn:E.
      - apply Z.leb_le in E.
        assert (10 ^ 28 <= 10 ^ (ndigits c - 1 + (e + 2))) as B
          by (apply Z.pow_le_mono_r; lia).
        rewrite Z.pow_add_r in B by lia.
        assert (0 < 10 ^ (e + 2)) by (apply Z.pow_pos_nonneg; lia).
        nia.
      - apply Z.leb_gt in E. set (k := -2 - e) in *.
        assert (0 < 10 ^ k) as Hs by (apply Z.pow_pos_nonneg; lia).
        assert (10 ^ (28 + k) <= 10 ^ (ndigits c - 1)) as B
          by (apply Z.pow_le_mono_r; lia).
        rewrite Z.pow_add_r in B by lia.
        pose proof (Z.div_mod (2 * c + 10 ^ k) (2 * 10 ^ k) ltac:(lia)) as DM.
        pose proof (Z.mod_pos_bound (2 * c + 10 ^ k) (2 * 10 ^ k) ltac:(lia)) as MB.
        nia. }
    unfold Emax, prec.
    replace (999999 <? e + ndigits c - 1) with false by (symmetry; apply Z.ltb_ge; lia).
    replace (28 <? e + ndigits c - 1 - -2 + 1) with false by (symmetry; apply Z.ltb_ge; lia).
    rewrite rescale_is_half_up by assumption.
    pose proof (half_up_nonneg c e Hc) as Hnn.
    pose proof (ndigits_le (half_up_cents c e) 28 Hnn ltac:(lia) Hfit ltac:(lia)) as Hnd.
    replace (28 <? ndigits (half_up_cents c e)) with false by (symmetry; apply Z.ltb_ge; lia).
    reflexivity.
Qed.

End PriceFacts.

Import PriceFacts.

(** C4 (as amended).  For every numeric price whose value, rounded half up
    to hundredths, has at most 28 digits, [format_price] returns that
    rounded value written with exactly two digits after the decimal point. *)
Theorem format_price_two_decimals_half_up :
  forall (price : pyval) (neg : bool) (c e : Z),
    numeric_price price neg c e ->
    half_up_cents c e < 10 ^ Dec.prec ->
    format_price price = Ret (cents_text neg (half_up_cents c e)) /\
    two_decimals (cents_text neg (half_up_cents c e)) = true.
Proof.
  intros price neg c e [Hparse [Hc He]] Hfit. split.
  - unfold format_price. rewrite Hparse. cbn [rbind].
    rewrite quantize_cents_fits by assumption. cbn [rbind Py.try_except].
    rewrite to_str_cents by (apply DecFacts.half_up_nonneg; assumption).
    reflexivity.
  - apply two_decimals_cents_text. apply DecFacts.half_up_nonneg; assumption.
Qed.

Lemma format_price_two_decimals_half_up_witness :
  numeric_price (PFloat "2.005") false 2005 (-3) /\
  half_up_cents 2005 (-3) < 10 ^ Dec.prec /\
  format_price (PFloat "2.005") = Ret "2.01" /\
  numeric_price (PStr "2.004") false 2004 (-3) /\
  format_price (PStr "2.004") = Ret "2.00".
Proof.
  assert (numeric_price (PFloat "2.005") false 2005 (-3)) as N1
    by (repeat split; vm_compute; congruence).
  assert (numeric_price (PStr "2.004") false 2004 (-3)) as N2
    by (repeat split; vm_compute; congruence).
  assert (half_up_cents 2005 (-3) < 10 ^ Dec.prec) as F1 by (vm_compute; reflexivity).
  assert (half_up_cents 2004 (-3) < 10 ^ Dec.prec) as F2 by (vm_compute; reflexivity).
  split; [exact N1|]. split; [exact F1|].
  split; [exact (proj1 (format_price_two_decimals_half_up _ _ _ _ N1 F1))|].
  split; [exact N2|].
  exact (proj1 (format_price_two_decimals_half_up _ _ _ _ N2 F2)).
Defined.

(** C4 (as stated) fails: the integer price 10^26 is numeric, yet
    [format_price] raises instead of returning a two-decimal text. *)
Lemma format_price_rejects_large_number :
  numeric_price (PInt (10 ^ 26)) false (10 ^ 26) 0 /\
  format_price (PInt (10 ^ 26)) = Raise InvalidOperation.
Proof. repeat split; vm_compute; congruence. Qed.

(** C10.  [format_price] is not total on text: the text "abc" does not
    read as a decimal and [format_price] raises [InvalidOperation] on it
    instead of returning it, because the handler catches [ValueError] and
    [TypeError] only; the same holds for every ASCII text that does not
    read as a decimal. *)
Theorem format_price_raises_on_non_decimal_text :
  catches_value_or_type InvalidOperation = false /\
  Dec.of_str "abc" = Raise InvalidOperation /\
  format_price (PStr "abc") = Raise InvalidOperation /\
  format_price (PStr "abc") <> Ret "abc" /\
  (forall s : string,
      ascii_text s = true ->
      Dec.of_str s = Raise InvalidOperation ->
      format_price (PStr s) = Raise InvalidOperation).
Proof.
  split; [reflexivity|]. split; [reflexivity|]. split; [reflexivity|].
  split; [discriminate|].
  intros s _ H. unfold format_price. cbn [Py.str]. rewrite H. reflexivity.
Qed.

Lemma format_price_raises_on_non_decimal_text_witness :
  ascii_text "12 pounds" = true /\
  Dec.of_str "12 pounds" = Raise InvalidOperation /\
  format_price (PStr "12 pounds") = Raise InvalidOperation.
Proof.
  assert (ascii_text "12 pounds" = true) as A by reflexivity.
  assert (Dec.of_str "12 pounds" = Raise InvalidOperation) as H by reflexivity.
  split; [exact A|]. split; [exact H|].
  exact (proj2 (proj2 (proj2 (proj2 format_price_raises_on_non_decimal_text)))
               "12 pounds" A H).
Defined.

Module SortFacts.

Section Sorting.
Context {A : Type} (le : A -> A -> bool).
Hypothesis le_total : forall a b, le a b = true \/ le b a = true.
Hypothesis le_trans : forall a b c, le a b = true -> le b c = true -> le a c = true.

Let R (a b : A) : Prop := le a b = true.

Lemma insert_by_perm : forall x l, Permutation (insert_by le x l) (x :: l).
Proof.
  intros x l. induction l as [|y t IH]; simpl.
  - apply Permutation_refl.
  - destruct (le x y).
    + apply Permutation_refl.
    + eapply perm_trans; [apply perm_skip, IH|apply perm_swap].
Qed.

Lemma sort_by_perm : forall l, Permutation (sort_by le l) l.
Proof.
  induction l as [|x t IH]; simpl.
  - constructor.
  - eapply perm_trans; [apply insert_by_perm|]. apply perm_skip, IH.
Qed.

Lemma insert_by_sorted : forall x l,
  StronglySorted R l -> StronglySorted R (insert_by le x l).
Proof.
  intros x l. induction l as [|y t IH]; intro S; simpl.
  - constructor; constructor.
  - inversion S as [|? ? St Fy]; subst.
    destruct (le x y) eqn:E.
    + constructor; [assumption|]. constructor; [exact E|].
      eapply Forall_impl; [|exact Fy]. intros z Hz. eapply le_trans; eassumption.
    + constructor; [apply IH; assumption|].
      apply (Permutation_Forall (Permutation_sym (insert_by_perm x t))).
      constructor; [|assumption].
      destruct (le_total x y) as [H|H]; [congruence|exact H].
Qed.

Lemma sort_by_sorted : forall l, StronglySorted R (sort_by le l).
Proof.
  induction l as [|x t IH]; simpl.
  - constructor.
  - apply insert_by_sorted, IH.
Qed.

End Sorting.

(** A list sorted under an asymmetric relation is determined by its
    elements. *)
Lemma sorted_perm_unique {A} (R : A -> A -> Prop) :
  (forall a b, R a b -> R b a -> False) ->
  forall l1 l2, StronglySorted R l1 -> StronglySorted R l2 ->
                Permutation l1 l2 -> l1 = l2.
Proof.
  intros Hasym. induction l1 as [|a t1 IH]; intros l2 S1 S2 P.
  - apply Permutation_nil in P. congruence.
  - destruct l2 as [|b t2]; [apply Permutation_sym, Permutation_nil in P; discriminate|].
    inversion S1 as [|? ? S1t F1]; subst. inversion S2 as [|? ? S2t F2]; subst.
    assert (a = b) as ->.
    { assert (In a (b :: t2)) as Ia by (eapply Permutation_in; [exact P|left; reflexivity]).
      assert (In b (a :: t1)) as Ib
        by (eapply Permutation_in; [apply Permutation_sym, P|left; reflexivity]).
      destruct Ia as [->|Ia]; [reflexivity|].
      destruct Ib as [->|Ib]; [reflexivity|].
      rewrite Forall_forall in F1, F2.
      exfalso. apply (Hasym a b); [apply F1, Ib|apply F2, Ia]. }
    f_equal. apply IH; try assumption. eapply Permutation_cons_inv; exact P.
Qed.

Lemma sorted_nodup_strict {A} (R : A -> A -> Prop) : forall l,
  StronglySorted R l -> NoDup l ->
  StronglySorted (fun a b => R a b /\ a <> b) l.
Proof.
  induction l as [|a t IH]; intros S N; [constructor|].
  inversion S as [|? ? St F]; subst. inversion N as [|? ? Hn Nt]; subst.
  constructor; [apply IH; assumption|].
  rewrite Forall_forall in *. intros x Hx. split; [apply F, Hx|].
  intros ->. contradiction.
Qed.

Lemma sorted_impl {A} (R S : A -> A -> Prop) : forall l,
  (forall a b, In a l -> In b l -> R a b -> S a b) ->
  StronglySorted R l -> StronglySorted S l.
Proof.
  induction l as [|a t IH]; intros H SR; [constructor|].
  inversion SR as [|? ? St F]; subst. constructor.
  - apply IH; [|assumption]. intros x y Hx Hy. apply H; right; assumption.
  - rewrite Forall_forall in *. intros x Hx. apply H; [left; reflexivity|right; exact Hx|].
    apply F, Hx.
Qed.

(** Text order is transitive. *)
Lemma ascii_compare_cases : forall a b,
  Ascii.compare a b = N.compare (N_of_ascii a) (N_of_ascii b).
Proof. reflexivity. Qed.

Lemma ascii_compare_eq : forall a b, Ascii.compare a b = Eq -> a = b.
Proof.
  intros a b H. rewrite ascii_compare_cases in H. apply N.compare_eq in H.
  rewrite <- (ascii_N_embedding a), <- (ascii_N_embedding b). congruence.
Qed.

Lemma string_leb_trans : forall a b c,
  String.leb a b = true -> String.leb b c = true -> String.leb a c = true.
Proof.
  unfold String.leb.
  induction a as [|x a IH]; intros b c Hab Hbc.
  - destruct c; reflexivity.
  - destruct b as [|y b]; [discriminate|]. destruct c as [|z c]; [discriminate|].
    simpl in *. rewrite ascii_compare_cases in *.
    destruct (N.compare_spec (N_of_ascii x) (N_of_ascii y)) as [Exy|Lxy|Gxy];
      try discriminate;
      destruct (N.compare_spec (N_of_ascii y) (N_of_ascii z)) as [Eyz|Lyz|Gyz];
      try discriminate.
    + rewrite Exy, Eyz, N.compare_refl. eapply IH; eassumption.
    + rewrite Exy. rewrite (proj2 (N.compare_lt_iff _ _) Lyz). reflexivity.
    + rewrite <- Eyz. rewrite (proj2 (N.compare_lt_iff _ _) Lxy). reflexivity.
    + rewrite (proj2 (N.compare_lt_iff _ _) (N.lt_trans _ _ _ Lxy Lyz)). reflexivity.
Qed.

Lemma string_leb_neq_ltb : forall a b,
  String.leb a b = true -> a <> b -> String.ltb a b = true.
Proof.
  intros a b H N. unfold String.leb, String.ltb in *.
  destruct (String.compare a b) eqn:C; try reflexivity; try discriminate.
  apply String.compare_eq_iff in C. contradiction.
Qed.

Lemma string_ltb_asym : forall a b,
  String.ltb a b = true -> String.ltb b a = true -> False.
Proof.
  intros a b H1 H2. unfold String.ltb in *.
  rewrite String.compare_antisym in H2.
  destruct (String.compare a b); simpl in *; discriminate.
Qed.

End SortFacts.

Module ResultFacts.

Lemma rmap_ret {A B} (f : A -> result B) : forall l ys,
  rmap f l = Ret ys -> Forall2 (fun x y => f x = Ret y) l ys.
Proof.
  induction l as [|x t IH]; intros ys H; simpl in H.
  - inversion H. constructor.
  - destruct (f x) as [y|e] eqn:Fx; [|discriminate]. cbn [rbind] in H.
    destruct (rmap f t) as [ys'|e] eqn:Ft; [|discriminate]. cbn [rbind] in H.
    inversion H; subst. constructor; [assumption|]. apply IH. reflexivity.
Qed.

Lemma rmap_raise {A B} (f : A -> result B) : forall l e,
  rmap f l = Raise e -> exists x, In x l /\ f x = Raise e.
Proof.
  induction l as [|x t IH]; intros e H; simpl in H; [discriminate|].
  destruct (f x) as [y|e'] eqn:Fx.
  - cbn [rbind] in H. destruct (rmap f t) as [ys'|e''] eqn:Ft; [discriminate|].
    cbn [rbind] in H. inversion H; subst.
    destruct (IH e eq_refl) as [z [Hz Fz]]. exists z. split; [right; exact Hz|exact Fz].
  - cbn [rbind] in H. inversion H; subst. exists x. split; [left; reflexivity|exact Fx].
Qed.

Lemma rmap_total {A B} (f : A -> result B) : forall l,
  Forall (fun x => exists y, f x = Ret y) l -> exists ys, rmap f l = Ret ys.
Proof.
  induction l as [|x t IH]; intro H; simpl.
  - eexists; reflexivity.
  - inversion H as [|? ? [y Hy] Ht]; subst. destruct (IH Ht) as [ys Hys].
    rewrite Hy, Hys. eexists; reflexivity.
Qed.

Lemma rmap_app {A B} (f : A -> result B) : forall l1 l2 ys,
  rmap f (l1 ++ l2) = Ret ys ->
  exists y1 y2, rmap f l1 = Ret y1 /\ rmap f l2 = Ret y2 /\ ys = y1 ++ y2.
Proof.
  induction l1 as [|x t IH]; intros l2 ys H; simpl in *.
  - exists [], ys. auto.
  - destruct (f x) as [y|e]; [|discriminate]. cbn [rbind] in *.
    destruct (rmap f (t ++ l2)) as [r|e] eqn:E; [|discriminate]. cbn [rbind] in H.
    inversion H; subst. destruct (IH l2 r E) as [y1 [y2 [H1 [H2 ->]]]].
    rewrite H1. exists (y :: y1), y2. auto.
Qed.

End ResultFacts.

Module LabelFacts.
Import SortFacts ResultFacts.

Lemma key_le_total : forall a b, key_le a b = true \/ key_le b a = true.
Proof. intros a b. unfold key_le. rewrite !Z.leb_le. lia. Qed.

Lemma key_le_trans : forall a b c,
  key_le a b = true -> key_le b c = true -> key_le a c = true.
Proof. intros a b c. unfold key_le. rewrite !Z.leb_le. lia. Qed.

Section Keys.

Variable int_of_text : string -> result Z.

Local Abbreviation key_of_ := (key_of int_of_text).

Lemma keys_are_key_of : forall ls keys,
  rmap (label_key int_of_text) ls = Ret keys -> keys = map key_of_ ls.
Proof.
  intros ls keys H. apply rmap_ret in H.
  induction H as [|l k ls ks Hk _ IH]; [reflexivity|].
  simpl. unfold key_of at 1. rewrite Hk. f_equal. exact IH.
Qed.

Lemma combine_map_self {A B} (f : A -> B) : forall l,
  combine (map f l) l = map (fun x => (f x, x)) l.
Proof. induction l; simpl; congruence. Qed.

(** What the numeric branch returns: a permutation, ascending by key. *)
Lemma numeric_branch_sorted : forall ls,
  let out := map snd (sort_by key_le (map (fun l => (key_of_ l, l)) ls)) in
  Permutation out ls /\
  StronglySorted (fun a b => key_of_ a <= key_of_ b) out.
Proof.
  intros ls out. split.
  - unfold out. eapply perm_trans.
    + apply Permutation_map. apply sort_by_perm.
    + rewrite map_map. simpl. rewrite map_id. apply Permutation_refl.
  - unfold out.
    pose proof (sort_by_sorted key_le key_le_total key_le_trans
                  (map (fun l => (key_of_ l, l)) ls)) as S.
    assert (Forall (fun p => fst p = key_of_ (snd p))
                   (sort_by key_le (map (fun l => (key_of_ l, l)) ls))) as F.
    { apply (Permutation_Forall (Permutation_sym (sort_by_perm key_le _))).
      apply Forall_forall. intros p Hp. apply in_map_iff in Hp.
      destruct Hp as [l [<- _]]. reflexivity. }
    induction S as [|p ps Sp IH Fp]; [constructor|].
    inversion F as [|? ? Hp Fps]; subst. simpl. constructor; [apply IH; assumption|].
    rewrite Forall_forall in *. intros x Hx. apply in_map_iff in Hx.
    destruct Hx as [q [<- Hq]]. rewrite <- Hp, <- (Fps q Hq).
    apply Z.leb_le. apply (Fp q Hq).
Qed.

End Keys.

(** What the fallback branch returns: a permutation, ascending as text. *)
Lemma fallback_branch_sorted : forall ls,
  Permutation (sort_by String.leb ls) ls /\
  StronglySorted (fun a b => String.leb a b = true) (sort_by String.leb ls).
Proof.
  intro ls. split; [apply sort_by_perm|].
  apply sort_by_sorted; [apply String.leb_total|apply string_leb_trans].
Qed.

End LabelFacts.

Import SortFacts ResultFacts LabelFacts.

Section LabelOrdering.

Variable int_of_text : string -> result Z.
Variable set_order : list string -> list string.
Hypothesis set_order_legal : set_order_ok set_order.

Local Abbreviation key_of_ := (key_of int_of_text).
Local Abbreviation key_parses_ := (key_parses int_of_text).
Local Abbreviation collect_ := (collect_unique_band_labels int_of_text set_order).

Lemma collect_shape : forall trade endc labels,
  rmap band_label (trade ++ endc) = Ret labels ->
  collect_ trade endc =
  Ret (if forallb key_parses_ (set_order labels)
       then map snd (sort_by key_le
                       (map (fun l => (key_of_ l, l)) (set_order labels)))
       else sort_by String.leb (set_order labels)).
Proof.
  intros trade endc labels H. unfold collect_unique_band_labels.
  rewrite H. cbn [rbind].
  destruct (rmap (label_key int_of_text) (set_order labels)) as [keys|e] eqn:K.
  - pose proof (keys_are_key_of _ _ _ K) as ->. rewrite combine_map_self.
    replace (forallb key_parses_ (set_order labels)) with true; [reflexivity|].
    symmetry. apply forallb_forall. intros l Hl.
    apply rmap_ret in K.
    assert (exists k, label_key int_of_text l = Ret k) as [k Hk].
    { clear - K Hl. induction K as [|x y xs ys Hxy _ IH]; [contradiction|].
      destruct Hl as [->|Hl]; [eauto|apply IH, Hl]. }
    unfold key_parses. rewrite Hk. reflexivity.
  - replace (forallb key_parses_ (set_order labels)) with false; [reflexivity|].
    symmetry. apply not_true_is_false. intro F. rewrite forallb_forall in F.
    apply rmap_raise in K. destruct K as [l [Hl Hr]].
    specialize (F l Hl). unfold key_parses in F. rewrite Hr in F. discriminate.
Qed.

Lemma collect_spec :
  forall (trade endc : list pyval) (labels : list string),
    rmap band_label (trade ++ endc) = Ret labels ->
    exists out,
      collect_ trade endc = Ret out /\
      NoDup out /\
      (forall l, In l out <-> In l labels) /\
      (forallb key_parses_ labels = true ->
       StronglySorted (fun a b => key_of_ a <= key_of_ b) out) /\
      (forallb key_parses_ labels = false ->
       StronglySorted (fun a b => String.ltb a b = true) out).
Proof.
  intros trade endc labels H.
  rewrite (collect_shape _ _ _ H).
  pose proof (set_order_legal labels) as P.
  assert (NoDup (set_order labels)) as ND.
  { eapply Permutation_NoDup; [apply Permutation_sym, P|]. apply NoDup_nodup. }
  assert (forall l, In l (set_order labels) <-> In l labels) as Mem.
  { intro l. rewrite <- (nodup_In string_dec labels l). split; intro Hl.
    - eapply Permutation_in; [exact P|exact Hl].
    - eapply Permutation_in; [apply Permutation_sym, P|exact Hl]. }
  assert (forallb key_parses_ (set_order labels) = forallb key_parses_ labels) as Same.
  { apply eq_true_iff_eq. rewrite !forallb_forall. split; intros F l Hl; apply F, Mem, Hl. }
  rewrite Same. eexists. split; [reflexivity|].
  destruct (forallb key_parses_ labels) eqn:KP.
  - destruct (numeric_branch_sorted int_of_text (set_order labels)) as [Pn Sn].
    split; [eapply Permutation_NoDup; [apply Permutation_sym, Pn|exact ND]|].
    split.
    + intro l. rewrite <- Mem. split; intro Hl.
      * eapply Permutation_in; [exact Pn|exact Hl].
      * eapply Permutation_in; [apply Permutation_sym, Pn|exact Hl].
    + split; [intros _; exact Sn|discriminate].
  - destruct (fallback_branch_sorted (set_order labels)) as [Pf Sf].
    assert (NoDup (sort_by String.leb (set_order labels))) as NDf
      by (eapply Permutation_NoDup; [apply Permutation_sym, Pf|exact ND]).
    split; [exact NDf|]. split.
    + intro l. rewrite <- Mem. split; intro Hl.
      * eapply Permutation_in; [exact Pf|exact Hl].
      * eapply Permutation_in; [apply Permutation_sym, Pf|exact Hl].
    + split; [discriminate|intros _].
      eapply sorted_impl; [|apply sorted_nodup_strict; [exact Sf|exact NDf]].
      intros a b _ _ [Hle Hne]. apply string_leb_neq_ltb; assumption.
Qed.

(** C5.  [collect_unique_band_labels] returns each distinct label of the
    two band lists once; the labels come in ascending order of the integer
    before the dash when every such prefix reads as an integer, and in
    ascending text order otherwise; each of the two cases occurs for some
    input. *)
Theorem collect_unique_band_labels_sorted :
  (forall (trade endc : list pyval) (labels : list string),
      rmap band_label (trade ++ endc) = Ret labels ->
      exists out,
        collect_ trade endc = Ret out /\
        NoDup out /\
        (forall l, In l out <-> In l labels) /\
        (forallb key_parses_ labels = true ->
         StronglySorted (fun a b => key_of_ a <= key_of_ b) out) /\
        (forallb key_parses_ labels = false ->
         StronglySorted (fun a b => String.ltb a b = true) out)) /\
  (exists trade endc labels,
      rmap band_label (trade ++ endc) = Ret labels /\
      forallb (key_parses Text.int_of_str) labels = true) /\
  (exists trade endc labels,
      rmap band_label (trade ++ endc) = Ret labels /\
      forallb (key_parses Text.int_of_str) labels = false).
Proof.
  split; [exact collect_spec|]. split.
  - exists [band 10 20 (PInt 1)], [band 2 5 (PInt 2)], ["10-20"; "2-5"].
    split; reflexivity.
  - exists [band 10 20 (PInt 1)], [band (-5) 1 (PInt 2)], ["10-20"; "-5-1"].
    split; reflexivity.
Qed.

End LabelOrdering.

Lemma insertion_order_ok : set_order_ok insertion_order.
Proof. intro l. apply Permutation_refl. Qed.

Lemma reverse_order_ok : set_order_ok reverse_order.
Proof. intro l. apply Permutation_sym, Permutation_rev. Qed.

(** Both orderings are reached: bounds 10 and 2 sort numerically, and a
    negative lower bound (empty text before the dash) forces text order. *)
Lemma collect_unique_band_labels_sorted_witness :
  (exists out,
     collect_unique_band_labels Text.int_of_str insertion_order
       [band 10 20 (PInt 1); band 2 5 (PInt 1)] [band 2 5 (PInt 2)] = Ret out /\
     out = ["2-5"; "10-20"]) /\
  (exists out,
     collect_unique_band_labels Text.int_of_str insertion_order
       [band 10 20 (PInt 1); band 2 5 (PInt 1)] [band (-5) 1 (PInt 2)] = Ret out /\
     out = ["-5-1"; "10-20"; "2-5"]).
Proof.
  split.
  - destruct (proj1 (collect_unique_band_labels_sorted Text.int_of_str insertion_order
                       insertion_order_ok)
                [band 10 20 (PInt 1); band 2 5 (PInt 1)] [band 2 5 (PInt 2)]
                ["10-20"; "2-5"; "2-5"] eq_refl) as [out [Hout _]].
    exists out. split; [exact Hout|].
    vm_compute in Hout. congruence.
  - destruct (proj1 (collect_unique_band_labels_sorted Text.int_of_str insertion_order
                       insertion_order_ok)
                [band 10 20 (PInt 1); band 2 5 (PInt 1)] [band (-5) 1 (PInt 2)]
                ["10-20"; "2-5"; "-5-1"] eq_refl) as [out [Hout _]].
    exists out. split; [exact Hout|].
    vm_compute in Hout. congruence.
Defined.

Module SynthFacts.
Import SortFacts ResultFacts LabelFacts.

Lemma rconcat_ret {A B} (f : A -> result (list B)) : forall l ys,
  rconcat f l = Ret ys ->
  forall y, In y ys <-> exists x zs, In x l /\ f x = Ret zs /\ In y zs.
Proof.
  induction l as [|x t IH]; intros ys H y; simpl in H.
  - inversion H; subst. split; [contradiction|]. intros [? [? [[] _]]].
  - destruct (f x) as [zs|e] eqn:Fx; [|discriminate]. cbn [rbind] in H.
    destruct (rconcat f t) as [ws|e] eqn:Ft; [|discriminate]. cbn [rbind] in H.
    inversion H; subst. rewrite in_app_iff, (IH ws eq_refl y). split.
    + intros [Hy|[x' [zs' [Hx' [Hf Hy]]]]].
      * exists x, zs. auto with datatypes.
      * exists x', zs'. auto with datatypes.
    + intros [x' [zs' [[->|Hx'] [Hf Hy]]]].
      * left. congruence.
      * right. exists x', zs'. auto.
Qed.

Lemma rconcat_total {A B} (f : A -> result (list B)) : forall l,
  Forall (fun x => exists ys, f x = Ret ys) l -> exists ys, rconcat f l = Ret ys.
Proof.
  induction l as [|x t IH]; intro H; simpl.
  - eexists; reflexivity.
  - inversion H as [|? ? [ys Hy] Ht]; subst. destruct (IH Ht) as [zs Hzs].
    rewrite Hy, Hzs. eexists; reflexivity.
Qed.

Lemma band_label_truthy : forall b l, band_label b = Ret l -> Py.truthy b = true.
Proof.
  intros b l H. unfold band_label, Py.subscript in H.
  destruct b; try discriminate. destruct d; [discriminate|reflexivity].
Qed.

Lemma first_band_some : forall bands label b,
  first_band bands label = Ret (Some b) -> In b bands /\ band_label b = Ret label.
Proof.
  induction bands as [|x t IH]; intros label b H; simpl in H; [discriminate|].
  destruct (band_label x) as [l|e] eqn:L; [|discriminate]. cbn [rbind] in H.
  destruct (String.eqb l label) eqn:E.
  - apply String.eqb_eq in E. inversion H; subst. auto with datatypes.
  - destruct (IH _ _ H). auto with datatypes.
Qed.

Lemma first_band_none : forall bands label,
  first_band bands label = Ret None ->
  forall b, In b bands -> band_label b <> Ret label.
Proof.
  induction bands as [|x t IH]; intros label H b Hb; simpl in H; [contradiction|].
  destruct (band_label x) as [l|e] eqn:L; [|discriminate]. cbn [rbind] in H.
  destruct (String.eqb l label) eqn:E; [discriminate|].
  apply String.eqb_neq in E. destruct Hb as [->|Hb].
  - rewrite L. congruence.
  - eapply IH; eassumption.
Qed.

Lemma first_band_total : forall bands label,
  Forall (fun b => exists l, band_label b = Ret l) bands ->
  exists o, first_band bands label = Ret o.
Proof.
  induction bands as [|x t IH]; intros label H; simpl; [eexists; reflexivity|].
  inversion H as [|? ? [l Hl] Ht]; subst. rewrite Hl. cbn [rbind].
  destruct (String.eqb l label); [eexists; reflexivity|apply IH, Ht].
Qed.

Lemma build_variant_tuple : forall label b ctype sku w colour v,
  build_variant_for_band label b ctype sku w colour = Ret v ->
  option_tuple v = shape colour label ctype.
Proof.
  intros label b ctype sku w colour v H. unfold build_variant_for_band in H.
  destruct (Py.subscript b "price") as [p|e]; [|discriminate]. cbn [rbind] in H.
  destruct (format_price p) as [s|e]; [|discriminate]. cbn [rbind] in H.
  inversion H; subst. unfold shape, colour_given.
  destruct colour as [c|]; [destruct (String.eqb c "")|]; reflexivity.
Qed.

(** The tuples one label contributes: one per customer type that has a
    band with this label. *)
Lemma variants_for_label_tuples : forall trade endc sku w colour label vs,
  variants_for_label trade endc sku w colour label = Ret vs ->
  forall t, In t (map option_tuple vs) <->
    (exists b, In b trade /\ band_label b = Ret label /\ t = shape colour label "Trade") \/
    (exists b, In b endc /\ band_label b = Ret label /\ t = shape colour label "End Customer").
Proof.
  intros trade endc sku w colour label vs H t. unfold variants_for_label in H.
  destruct (first_band trade label) as [tb|e] eqn:FT; [|discriminate]. cbn [rbind] in H.
  destruct (first_band endc label) as [eb|e] eqn:FE; [|discriminate]. cbn [rbind] in H.
  assert (exists tv, (match tb with
            | Some b => if Py.truthy b
                        then v <-? build_variant_for_band label b "Trade" sku w colour ;; Ret [v]
                        else Ret []
            | None => Ret [] end) = Ret tv /\
          (forall t, In t (map option_tuple tv) <->
             exists b, In b trade /\ band_label b = Ret label /\ t = shape colour label "Trade"))
    as [tv [Htv Ttv]].
  { destruct tb as [b|].
    - destruct (first_band_some _ _ _ FT) as [Ib Lb].
      rewrite (band_label_truthy _ _ Lb) in *.
      destruct (build_variant_for_band label b "Trade" sku w colour) as [v|e] eqn:B;
        [|discriminate].
      exists [v]. split; [reflexivity|]. intro t'. simpl.
      rewrite (build_variant_tuple _ _ _ _ _ _ _ B). split.
      + intros [<-|[]]. exists b. auto.
      + intros [? [_ [_ ->]]]. left; reflexivity.
    - exists []. split; [reflexivity|]. intro t'. simpl. split; [contradiction|].
      intros [b [Ib [Lb _]]]. exact (first_band_none _ _ FT b Ib Lb). }
  rewrite Htv in H. cbn [rbind] in H.
  assert (exists ev, (match eb with
            | Some b => if Py.truthy b
                        then v <-? build_variant_for_band label b "End Customer" sku w colour ;; Ret [v]
                        else Ret []
            | None => Ret [] end) = Ret ev /\
          (forall t, In t (map option_tuple ev) <->
             exists b, In b endc /\ band_label b = Ret label /\ t = shape colour label "End Customer"))
    as [ev [Hev Tev]].
  { destruct eb as [b|].
    - destruct (first_band_some _ _ _ FE) as [Ib Lb].
      rewrite (band_label_truthy _ _ Lb) in *.
      destruct (build_variant_for_band label b "End Customer" sku w colour) as [v|e] eqn:B;
        [|discriminate].
      exists [v]. split; [reflexivity|]. intro t'. simpl.
      rewrite (build_variant_tuple _ _ _ _ _ _ _ B). split.
      + intros [<-|[]]. exists b. auto.
      + intros [? [_ [_ ->]]]. left; reflexivity.
    - exists []. split; [reflexivity|]. intro t'. simpl. split; [contradiction|].
      intros [b [Ib [Lb _]]]. exact (first_band_none _ _ FE b Ib Lb). }
  rewrite Hev in H. cbn [rbind] in H. inversion H; subst.
  rewrite map_app, in_app_iff, Ttv, Tev. reflexivity.
Qed.

Lemma labels_of_bands : forall bands labels,
  rmap band_label bands = Ret labels ->
  forall l, In l labels <-> exists b, In b bands /\ band_label b = Ret l.
Proof.
  intros bands labels H. apply rmap_ret in H.
  induction H as [|b l bs ls Hbl _ IH]; intro l'.
  - simpl. split; [contradiction|]. intros [? [[] _]].
  - simpl. rewrite IH. split.
    + intros [<-|[b' [Hb' Hl']]]; [exists b; auto|exists b'; auto].
    + intros [b' [[<-|Hb'] Hl']]; [left; congruence|right; exists b'; auto].
Qed.

End SynthFacts.

Module SynthTotal.
Import SortFacts ResultFacts LabelFacts SynthFacts.

Lemma rconcat_ret_all {A B} (f : A -> result (list B)) : forall l ys,
  rconcat f l = Ret ys -> forall x, In x l -> exists zs, f x = Ret zs.
Proof.
  induction l as [|x t IH]; intros ys H x' Hx'; simpl in H; [contradiction|].
  destruct (f x) as [zs|e] eqn:Fx; [|discriminate]. cbn [rbind] in H.
  destruct (rconcat f t) as [ws|e] eqn:Ft; [|discriminate].
  destruct Hx' as [<-|Hx']; [eauto|]. eapply IH; [reflexivity|exact Hx'].
Qed.

Lemma rconcat_map {A B C} (f : A -> result (list B)) (g : B -> C) : forall l ys,
  rconcat f l = Ret ys ->
  forall t, In t (map g ys) <-> exists x zs, In x l /\ f x = Ret zs /\ In t (map g zs).
Proof.
  intros l ys H t. rewrite in_map_iff. split.
  - intros [y [<- Hy]]. apply (rconcat_ret f l ys H) in Hy.
    destruct Hy as [x [zs [Hx [Hf Hz]]]]. exists x, zs. repeat split; try assumption.
    apply in_map. exact Hz.
  - intros [x [zs [Hx [Hf Ht]]]]. apply in_map_iff in Ht. destruct Ht as [y [<- Hy]].
    exists y. split; [reflexivity|]. apply (rconcat_ret f l ys H). eauto.
Qed.

Lemma shape_none : forall l ty, shape None l ty = (l, ty, None).
Proof. reflexivity. Qed.

Lemma shape_colour : forall c l ty, c <> "" -> shape (Some c) l ty = (c, l, Some ty).
Proof.
  intros c l ty H. unfold shape, colour_given.
  destruct (String.eqb c "") eqn:E; [apply String.eqb_eq in E; contradiction|reflexivity].
Qed.

Lemma variants_for_label_total : forall trade endc sku w colour label,
  Forall priceable (trade ++ endc) ->
  exists vs, variants_for_label trade endc sku w colour label = Ret vs.
Proof.
  intros trade endc sku w colour label P. unfold variants_for_label.
  apply Forall_app in P. destruct P as [Pt Pe].
  assert (forall bs, Forall priceable bs ->
                     Forall (fun b => exists l, band_label b = Ret l) bs) as PL.
  { intros bs F. eapply Forall_impl; [|exact F]. intros b [l [p [s [H _]]]]. eauto. }
  assert (forall bs o ty, Forall priceable bs -> first_band bs label = Ret o ->
            exists r, (match o with
               | Some b => if Py.truthy b
                           then v <-? build_variant_for_band label b ty sku w colour ;; Ret [v]
                           else Ret []
               | None => Ret [] end) = Ret r) as Step.
  { intros bs o ty F Ho. destruct o as [b|]; [|eexists; reflexivity].
    destruct (first_band_some _ _ _ Ho) as [Ib Lb].
    rewrite (band_label_truthy _ _ Lb).
    rewrite Forall_forall in F. destruct (F b Ib) as [l [p [s [_ [Hp Hs]]]]].
    unfold build_variant_for_band. rewrite Hp. cbn [rbind]. rewrite Hs. cbn [rbind].
    eexists; reflexivity. }
  destruct (first_band_total trade label (PL _ Pt)) as [tb Htb]. rewrite Htb. cbn [rbind].
  destruct (first_band_total endc label (PL _ Pe)) as [eb Heb]. rewrite Heb. cbn [rbind].
  destruct (Step trade tb "Trade" Pt Htb) as [r1 ->]. cbn [rbind].
  destruct (Step endc eb "End Customer" Pe Heb) as [r2 ->]. cbn [rbind].
  eexists; reflexivity.
Qed.

Lemma collect_ret_labels : forall i o trade endc out,
  collect_unique_band_labels i o trade endc = Ret out ->
  exists labels, rmap band_label (trade ++ endc) = Ret labels.
Proof.
  intros i o trade endc out H. unfold collect_unique_band_labels in H.
  destruct (rmap band_label (trade ++ endc)) as [ls|e]; [eauto|discriminate].
Qed.

End SynthTotal.

Import SynthFacts SynthTotal.

Section Synthesis.

Variable int_of_text : string -> result Z.
Variable set_order : list string -> list string.
Hypothesis set_order_legal : set_order_ok set_order.

Local Abbreviation collect_ := (collect_unique_band_labels int_of_text set_order).
Local Abbreviation build_variants_ := (build_variants int_of_text set_order).

Lemma collect_members : forall trade endc out,
  collect_ trade endc = Ret out ->
  forall l, In l out <-> exists b, In b (trade ++ endc) /\ band_label b = Ret l.
Proof.
  intros trade endc out H l.
  destruct (collect_ret_labels _ _ _ _ _ H) as [labels HL].
  destruct (collect_spec int_of_text set_order set_order_legal _ _ _ HL)
    as [out' [Ho [_ [Mem _]]]].
  rewrite H in Ho. inversion Ho; subst out'.
  rewrite Mem. apply labels_of_bands. exact HL.
Qed.

(** C2 (as amended).  When every colour name is non-empty, the option
    tuples of the synthesized variants are exactly those the bands and the
    colour list call for; and the synthesis returns whenever every band
    can be priced and the SKU is text. *)
Theorem build_variants_label_complete :
  forall (trade endc : list pyval) (sku : pyval) (w : Z)
         (colours : list string) (codes : list (string * string)),
    Forall (fun c => c <> "") colours ->
    (forall vs,
        build_variants_ trade endc sku w colours codes = Ret vs ->
        forall t, In t (map option_tuple vs) <-> implied_tuple trade endc colours t) /\
    (Forall priceable (trade ++ endc) -> (exists s, sku = PStr s) ->
     exists vs, build_variants_ trade endc sku w colours codes = Ret vs).
Proof.
  intros trade endc sku w colours codes NE. split.
  - intros vs H t. unfold build_variants in H.
    destruct (collect_ trade endc) as [labels|e] eqn:C;
      [|discriminate].
    cbn [rbind] in H. pose proof (collect_members _ _ _ C) as Mem.
    destruct colours as [|c0 cs].
    + rewrite (rconcat_map _ option_tuple _ _ H). unfold implied_tuple. split.
      * intros [label [zs [Hl [Hf Ht]]]].
        apply (variants_for_label_tuples _ _ _ _ _ _ _ Hf) in Ht.
        destruct Ht as [[b [Ib [Lb ->]]]|[b [Ib [Lb ->]]]]; exists b, label;
          (split; [exact Lb|]); rewrite shape_none; auto.
      * intros [b [l [Lb Hcase]]].
        assert (In l labels) as Hl.
        { apply Mem. exists b. split; [|exact Lb].
          apply in_or_app. destruct Hcase as [[Ib _]|[Ib _]]; auto. }
        destruct (rconcat_ret_all _ _ _ H l Hl) as [zs Hf].
        exists l, zs. split; [exact Hl|]. split; [exact Hf|].
        apply (variants_for_label_tuples _ _ _ _ _ _ _ Hf).
        rewrite !shape_none.
        destruct Hcase as [[Ib ->]|[Ib ->]]; [left|right]; exists b; auto.
    + set (colours := c0 :: cs) in *.
      rewrite (rconcat_map _ option_tuple _ _ H). unfold implied_tuple. cbv zeta.
      change (match colours with
              | [] => ?x | _ :: _ => ?y end) with y.
      split.
      * intros [c [zs [Hc [Hf Ht]]]].
        destruct (if String.eqb (lookup_code codes c) "" then Ret sku
                  else add_text sku ("/" ++ lookup_code codes c)) as [vsku|e];
          [|discriminate].
        cbn [rbind] in Hf.
        rewrite (rconcat_map _ option_tuple _ _ Hf) in Ht.
        destruct Ht as [label [ws [Hl [Hg Ht]]]].
        apply (variants_for_label_tuples _ _ _ _ _ _ _ Hg) in Ht.
        rewrite Forall_forall in NE.
        rewrite !(shape_colour c) in Ht by (apply NE, Hc).
        destruct Ht as [[b [Ib [Lb ->]]]|[b [Ib [Lb ->]]]]; exists b, label;
          (split; [exact Lb|]); exists c; auto.
      * intros [b [l [Lb [c [Hc Hcase]]]]].
        assert (In l labels) as Hl.
        { apply Mem. exists b. split; [|exact Lb].
          apply in_or_app. destruct Hcase as [[Ib _]|[Ib _]]; auto. }
        destruct (rconcat_ret_all _ _ _ H c Hc) as [zs Hf].
        exists c, zs. split; [exact Hc|]. split; [exact Hf|].
        destruct (if String.eqb (lookup_code codes c) "" then Ret sku
                  else add_text sku ("/" ++ lookup_code codes c)) as [vsku|e];
          [|discriminate].
        cbn [rbind] in Hf.
        rewrite (rconcat_map _ option_tuple _ _ Hf).
        destruct (rconcat_ret_all _ _ _ Hf l Hl) as [ws Hg].
        exists l, ws. split; [exact Hl|]. split; [exact Hg|].
        apply (variants_for_label_tuples _ _ _ _ _ _ _ Hg).
        rewrite Forall_forall in NE.
        rewrite !(shape_colour c) by (apply NE, Hc).
        destruct Hcase as [[Ib ->]|[Ib ->]]; [left|right]; exists b; auto.
  - intros P [s ->]. unfold build_variants.
    assert (exists labels, rmap band_label (trade ++ endc) = Ret labels) as [ls HL].
    { apply rmap_total. eapply Forall_impl; [|exact P].
      intros b [l [p [s' [H _]]]]. eauto. }
    destruct (collect_spec int_of_text set_order set_order_legal _ _ _ HL)
      as [labels [-> _]].
    cbn [rbind]. destruct colours as [|c0 cs].
    + apply rconcat_total. apply Forall_forall. intros l _.
      apply variants_for_label_total. exact P.
    + apply rconcat_total. apply Forall_forall. intros c _.
      assert (exists vsku, (if String.eqb (lookup_code codes c) "" then Ret (PStr s)
                else add_text (PStr s) ("/" ++ lookup_code codes c)) = Ret vsku)
        as [vsku ->]
        by (destruct (String.eqb (lookup_code codes c) ""); eexists; reflexivity).
      cbn [rbind]. apply rconcat_total. apply Forall_forall. intros l _.
      apply variants_for_label_total. exact P.
Qed.

End Synthesis.

Lemma build_variants_label_complete_witness :
  exists vs,
    build_variants Text.int_of_str insertion_order
      [band 1 10 (PFloat "5.0")] [band 1 10 (PFloat "4.5")]
      (PStr "SKU") 12 ["Red"; "Blue"] [("Red", "r"); ("Blue", "")] = Ret vs /\
    forall t, In t (map option_tuple vs) <->
              implied_tuple [band 1 10 (PFloat "5.0")] [band 1 10 (PFloat "4.5")]
                            ["Red"; "Blue"] t.
Proof.
  assert (Forall (fun c : string => c <> "") ["Red"; "Blue"]) as NE
    by (repeat constructor; discriminate).
  assert (Forall priceable ([band 1 10 (PFloat "5.0")] ++ [band 1 10 (PFloat "4.5")]))
    as P.
  { repeat constructor.
    - exists "1-10", (PFloat "5.0"), "5.00". repeat split; reflexivity.
    - exists "1-10", (PFloat "4.5"), "4.50". repeat split; reflexivity. }
  destruct (build_variants_label_complete Text.int_of_str insertion_order
              insertion_order_ok
              [band 1 10 (PFloat "5.0")] [band 1 10 (PFloat "4.5")]
              (PStr "SKU") 12 ["Red"; "Blue"] [("Red", "r"); ("Blue", "")] NE)
    as [Sound Total].
  destruct (Total P (ex_intro _ "SKU" eq_refl)) as [vs Hvs].
  exists vs. split; [exact Hvs|]. exact (Sound vs Hvs).
Defined.

(** C2 (as stated) fails: with an empty colour name in the colour list the
    variant is laid out without a colour, so the tuple the colour list
    calls for is missing. *)
Lemma build_variants_empty_colour_drops_tuple :
  exists vs,
    build_variants Text.int_of_str insertion_order
      [band 1 10 (PInt 5)] [] (PStr "SKU") 0 [""] []
    = Ret vs /\
    map option_tuple vs = [("1-10", "Trade", None)] /\
    implied_tuple [band 1 10 (PInt 5)] [] [""] ("", "1-10", Some "Trade") /\
    ~ In ("", "1-10", Some "Trade") (map option_tuple vs).
Proof.
  eexists. split; [vm_compute; reflexivity|]. split; [reflexivity|]. split.
  - exists (band 1 10 (PInt 5)), "1-10". split; [reflexivity|].
    exists "". split; [left; reflexivity|]. left. split; [left; reflexivity|reflexivity].
  - simpl. intros [H|[]]. discriminate H.
Qed.

(** The synthesized list does not depend on the iteration order of the
    label set when distinct labels sort under distinct keys. *)
Lemma collect_order_independent :
  forall i o1 o2, set_order_ok o1 -> set_order_ok o2 ->
  forall trade endc, distinct_keys i trade endc ->
    collect_unique_band_labels i o1 trade endc =
    collect_unique_band_labels i o2 trade endc.
Proof.
  intros i o1 o2 L1 L2 trade endc D.
  destruct (rmap band_label (trade ++ endc)) as [labels|e] eqn:HL.
  - destruct (collect_spec i o1 L1 _ _ _ HL) as [out1 [-> [N1 [M1 [S1 T1]]]]].
    destruct (collect_spec i o2 L2 _ _ _ HL) as [out2 [-> [N2 [M2 [S2 T2]]]]].
    f_equal.
    assert (Permutation out1 out2) as P.
    { apply NoDup_Permutation; try assumption. intro l. rewrite M1, M2. reflexivity. }
    destruct (forallb (key_parses i) labels) eqn:KP.
    + apply (SortFacts.sorted_perm_unique (fun a b => key_of i a < key_of i b));
        [intros; lia| | |exact P].
      * eapply SortFacts.sorted_impl;
          [|apply SortFacts.sorted_nodup_strict; [exact (S1 eq_refl)|exact N1]].
        intros a b Ha Hb [Hle Hne].
        destruct (Z.eq_dec (key_of i a) (key_of i b)) as [E|E]; [|lia].
        exfalso. apply Hne. apply (D labels HL KP); [apply M1, Ha|apply M1, Hb|exact E].
      * eapply SortFacts.sorted_impl;
          [|apply SortFacts.sorted_nodup_strict; [exact (S2 eq_refl)|exact N2]].
        intros a b Ha Hb [Hle Hne].
        destruct (Z.eq_dec (key_of i a) (key_of i b)) as [E|E]; [|lia].
        exfalso. apply Hne. apply (D labels HL KP); [apply M2, Ha|apply M2, Hb|exact E].
    + apply (SortFacts.sorted_perm_unique (fun a b => String.ltb a b = true));
        [apply SortFacts.string_ltb_asym|exact (T1 eq_refl)|exact (T2 eq_refl)|exact P].
  - unfold collect_unique_band_labels. rewrite HL. reflexivity.
Qed.

(** C1 (as amended).  [build_variants] is a function of its six arguments
    and of the order in which the label set is iterated; when no two
    distinct labels share the integer before the dash, any two iteration
    orders give the same list. *)
Theorem build_variants_deterministic :
  forall (int_of_text : string -> result Z) (o1 o2 : list string -> list string),
    set_order_ok o1 -> set_order_ok o2 ->
    forall (trade endc : list pyval) (sku : pyval) (w : Z)
           (colours : list string) (codes : list (string * string)),
      distinct_keys int_of_text trade endc ->
      build_variants int_of_text o1 trade endc sku w colours codes =
      build_variants int_of_text o2 trade endc sku w colours codes.
Proof.
  intros i o1 o2 L1 L2 trade endc sku w colours codes D.
  unfold build_variants.
  rewrite (collect_order_independent i o1 o2 L1 L2 trade endc D). reflexivity.
Qed.

Lemma distinct_keys_example :
  distinct_keys Text.int_of_str
                [band 1 10 (PFloat "5.0"); band 11 20 (PFloat "4.0")]
                [band 1 10 (PFloat "4.5")].
Proof.
  intros labels HL _ a b Ha Hb E. inversion HL; subst labels. clear HL.
  simpl in Ha, Hb.
  repeat (destruct Ha as [<-|Ha]; [|]); try contradiction;
    repeat (destruct Hb as [<-|Hb]; [|]); try contradiction;
    try reflexivity; vm_compute in E; discriminate E.
Qed.

Lemma build_variants_deterministic_witness :
  build_variants Text.int_of_str insertion_order
    [band 1 10 (PFloat "5.0"); band 11 20 (PFloat "4.0")] [band 1 10 (PFloat "4.5")]
    (PStr "SKU") 12 ["Red"] [("Red", "r")] =
  build_variants Text.int_of_str reverse_order
    [band 1 10 (PFloat "5.0"); band 11 20 (PFloat "4.0")] [band 1 10 (PFloat "4.5")]
    (PStr "SKU") 12 ["Red"] [("Red", "r")].
Proof.
  exact (build_variants_deterministic Text.int_of_str insertion_order reverse_order
           insertion_order_ok reverse_order_ok _ _ _ _ _ _ distinct_keys_example).
Defined.

(** C1 (as stated) fails: two bands whose labels share the integer before
    the dash come out in the iteration order of the label set, and both
    orders are legal. *)
Lemma build_variants_depends_on_set_order :
  set_order_ok insertion_order /\ set_order_ok reverse_order /\
  build_variants Text.int_of_str insertion_order
    [band 1 10 (PInt 5); band 1 20 (PInt 6)] [] (PStr "SKU") 0 [] [] <>
  build_variants Text.int_of_str reverse_order
    [band 1 10 (PInt 5); band 1 20 (PInt 6)] [] (PStr "SKU") 0 [] [].
Proof.
  split; [exact insertion_order_ok|]. split; [exact reverse_order_ok|].
  vm_compute. discriminate.
Qed.

Module MatchFacts.
Import ResultFacts SynthFacts SynthTotal.

Lemma get_is_true : forall v k x, get_is v k x = Ret true -> opt_is v k x.
Proof.
  intros v k x H. unfold get_is, Py.get in H. destruct v; try discriminate.
  cbn [rbind] in H. exists d. split; [reflexivity|].
  destruct (Py.dict_get d k) as [[| | | |s| |]|]; try discriminate; inversion H as [E].
  apply String.eqb_eq in E. subst. reflexivity.
Qed.

Lemma and_then_true : forall a b,
  and_then a b = Ret true -> a = Ret true /\ b = Ret true.
Proof.
  intros a b H. unfold and_then in H. destruct a as [[|]|e]; try discriminate.
  cbn [rbind] in H. auto.
Qed.

Lemma first_match_some : forall test vs v,
  first_match test vs = Ret (Some v) -> In v vs /\ test v = Ret true.
Proof.
  induction vs as [|x t IH]; intros v H; simpl in H; [discriminate|].
  destruct (test x) as [[|]|e] eqn:T; try discriminate; cbn [rbind] in H.
  - inversion H; subst. auto with datatypes.
  - destruct (IH v H). auto with datatypes.
Qed.

Lemma match_colour_true : forall c l ty v,
  match_colour c l ty v = Ret true -> matches_colour v c l ty.
Proof.
  intros c l ty v H. unfold match_colour in H.
  apply and_then_true in H. destruct H as [H1 H]. apply and_then_true in H.
  destruct H as [H2 H3]. repeat split; apply get_is_true; assumption.
Qed.

Lemma match_plain_true : forall l ty v,
  match_plain l ty v = Ret true -> matches_plain v l ty.
Proof.
  intros l ty v H. apply and_then_true in H. destruct H.
  split; apply get_is_true; assumption.
Qed.

Lemma match_any_colour_true : forall l ty v,
  match_any_colour l ty v = Ret true -> matches_any_colour v l ty.
Proof.
  intros l ty v H. apply and_then_true in H. destruct H.
  split; apply get_is_true; assumption.
Qed.

(** A variant found by [find_match] is in the list and matches. *)
Lemma find_match_some : forall variants label ctype colour v,
  find_match variants label ctype colour = Ret (Some v) ->
  exists vs, py_iter variants = Ret vs /\ In v vs /\ matched colour v label ctype.
Proof.
  intros variants label ctype colour v H. unfold find_match in H.
  destruct (py_iter variants) as [vs|e]; [|discriminate]. cbn [rbind] in H.
  exists vs. split; [reflexivity|]. unfold matched.
  destruct (colour_given colour) as [c|].
  - apply first_match_some in H. destruct H as [I T].
    split; [exact I|]. apply match_colour_true, T.
  - destruct (first_match (match_plain label ctype) vs) as [m|e] eqn:F1; [|discriminate].
    cbn [rbind] in H. destruct (is_some_truthy m) eqn:Tr.
    + inversion H; subst m. apply first_match_some in F1. destruct F1 as [I T].
      split; [exact I|]. left. apply match_plain_true, T.
    + apply first_match_some in H. destruct H as [I T].
      split; [exact I|]. right. apply match_any_colour_true, T.
Qed.

(** What one band contributes: nothing, or itself with the id of a
    matching variant. *)
Lemma enrich_band_spec : forall variants ctype colour b r,
  enrich_band variants ctype colour b = Ret r ->
  r = [] \/
  exists e label v id vs,
    r = [e] /\ band_label b = Ret label /\
    py_iter variants = Ret vs /\ In v vs /\ matched colour v label ctype /\
    Py.subscript v "id" = Ret id /\ Py.truthy id = true /\
    enriched_from b e id.
Proof.
  intros variants ctype colour b r H. unfold enrich_band in H.
  destruct (band_label b) as [label|e] eqn:L; [|discriminate]. cbn [rbind] in H.
  destruct (find_match variants label ctype colour) as [[v|]|e] eqn:F;
    try discriminate; cbn [rbind] in H; [|left; congruence].
  destruct (Py.truthy v); [|left; congruence].
  destruct (find_match_some _ _ _ _ _ F) as [vs [Hvs [Iv Mv]]].
  destruct v as [| | | | | |dv]; try discriminate.
  unfold Py.get, Py.subscript in H. cbn [rbind] in H.
  destruct (Py.dict_get dv "id") as [id|] eqn:G; cbn [Py.truthy] in H;
    [|left; congruence].
  destruct (Py.truthy id) eqn:Tid; [|left; congruence].
  cbn [rbind] in H.
  destruct b as [| | | | | |d]; try discriminate.
  right.
  assert (Py.subscript (PDict dv) "id" = Ret id) as S
    by (unfold Py.subscript; rewrite G; reflexivity).
  destruct (Py.dict_get (Py.dict_set d "id" id) "price") as [p|] eqn:P.
  - destruct (format_price p) as [s|e]; [|discriminate]. cbn [rbind] in H.
    inversion H; subst r.
    eexists _, label, (PDict dv), id, vs. repeat split; try eassumption; try reflexivity.
    exists d. split; [reflexivity|]. right. exists s. reflexivity.
  - inversion H; subst r.
    eexists _, label, (PDict dv), id, vs. repeat split; try eassumption; try reflexivity.
    exists d. split; [reflexivity|]. left. reflexivity.
Qed.

(** A band no variant matches contributes nothing. *)
Lemma enrich_band_unmatched : forall variants ctype colour b r label vs,
  enrich_band variants ctype colour b = Ret r ->
  band_label b = Ret label -> py_iter variants = Ret vs ->
  (forall v, In v vs -> ~ matched colour v label ctype) ->
  r = [].
Proof.
  intros variants ctype colour b r label vs H L I N.
  destruct (enrich_band_spec _ _ _ _ _ H) as [->|[e [l' [v [id [vs' [_ [L' [I' [Iv [M _]]]]]]]]]]];
    [reflexivity|].
  rewrite L in L'. rewrite I in I'. inversion L'; inversion I'; subst.
  exfalso. exact (N v Iv M).
Qed.

End MatchFacts.

Import MatchFacts.

(** C3 (as amended).  Every band of the enriched output is an input band
    carrying the id of a variant of the returned list that matches the
    band's label and customer type: on the full (colour, label, customer
    type) tuple when a colour is passed, and otherwise on (label, customer
    type) at options 1-2 or, with the first option ignored, at options 2-3.
    A band that no variant matches is dropped. *)
Theorem enrich_bands_ids_come_from_matches :
  forall (bands : list pyval) (variants : pyval) (ctype : string)
         (colour : option string) (out : list pyval),
    enrich_bands_with_variant_ids bands variants ctype colour = Ret out ->
    (forall e, In e out ->
       exists b label v id vs,
         In b bands /\ band_label b = Ret label /\
         py_iter variants = Ret vs /\ In v vs /\ matched colour v label ctype /\
         Py.subscript v "id" = Ret id /\ Py.truthy id = true /\
         enriched_from b e id) /\
    (forall b rest label vs,
       bands = b :: rest ->
       band_label b = Ret label -> py_iter variants = Ret vs ->
       (forall v, In v vs -> ~ matched colour v label ctype) ->
       enrich_bands_with_variant_ids rest variants ctype colour = Ret out).
Proof.
  intros bands variants ctype colour out H. split.
  - intros e He. unfold enrich_bands_with_variant_ids in H.
    apply (SynthFacts.rconcat_ret _ _ _ H) in He.
    destruct He as [b [r [Ib [Hr Ie]]]].
    destruct (enrich_band_spec _ _ _ _ _ Hr)
      as [->|[e' [label [v [id [vs [-> [L [I [Iv [M [S [T E]]]]]]]]]]]]];
      [contradiction|].
    destruct Ie as [<-|[]]. exists b, label, v, id, vs. auto 10.
  - intros b rest label vs -> L I N.
    unfold enrich_bands_with_variant_ids in *. simpl in H.
    destruct (enrich_band variants ctype colour b) as [r|e] eqn:Hb; [|discriminate].
    cbn [rbind] in H.
    rewrite (enrich_band_unmatched _ _ _ _ _ _ _ Hb L I N) in H.
    destruct (rconcat (enrich_band variants ctype colour) rest) as [zs|e];
      [|discriminate].
    exact H.
Qed.

Lemma enrich_bands_ids_come_from_matches_witness :
  enrich_bands_with_variant_ids
    [band 1 10 (PFloat "5.0"); band 11 20 (PFloat "4.0")]
    (PList [confirmed 41 [("option1", "1-10"); ("option2", "Trade")];
            confirmed 42 [("option1", "1-10"); ("option2", "End Customer")]])
    "Trade" None
  = Ret [PDict [("min", PInt 1); ("max", PInt 10); ("price", PStr "5.00");
                ("id", PInt 41)]] /\
  exists b, In b [band 1 10 (PFloat "5.0"); band 11 20 (PFloat "4.0")] /\
            enriched_from b
              (PDict [("min", PInt 1); ("max", PInt 10); ("price", PStr "5.00");
                      ("id", PInt 41)])
              (PInt 41).
Proof.
  assert (enrich_bands_with_variant_ids
            [band 1 10 (PFloat "5.0"); band 11 20 (PFloat "4.0")]
            (PList [confirmed 41 [("option1", "1-10"); ("option2", "Trade")];
                    confirmed 42 [("option1", "1-10"); ("option2", "End Customer")]])
            "Trade" None
          = Ret [PDict [("min", PInt 1); ("max", PInt 10); ("price", PStr "5.00");
                        ("id", PInt 41)]]) as H by reflexivity.
  split; [exact H|].
  destruct (proj1 (enrich_bands_ids_come_from_matches _ _ _ _ _ H) _
                  (or_introl eq_refl))
    as [b [label [v [id [vs [Ib [L [I [Iv [M [S [T E]]]]]]]]]]]].
  exists b. split; [exact Ib|].
  assert (id = PInt 41) as ->.
  { destruct E as [d [-> [E|[s E]]]]; inversion I; subst vs; clear I;
      destruct Iv as [<-|[<-|[]]]; inversion S; subst; try reflexivity;
      destruct M as [[[d1 [E1 G1]] [d2 [E2 G2]]]|[[d1 [E1 G1]] [d2 [E2 G2]]]];
      inversion E1; inversion E2; subst; discriminate. }
  exact E.
Defined.

(** C3 (as stated) fails: [process_product] passes no colour, so for a
    product with a colour dimension a legacy variant without a colour is
    preferred to the variant whose full tuple matches. *)
Lemma enrich_without_colour_ignores_full_tuple :
  exists out e,
    enrich_bands_with_variant_ids
      [band 1 10 (PFloat "5.0")]
      (PList [confirmed 7 [("option1", "1-10"); ("option2", "Trade")];
              confirmed 8 [("option1", "Red"); ("option2", "1-10");
                           ("option3", "Trade")]])
      "Trade" None = Ret out /\
    out = [e] /\
    Py.subscript e "id" = Ret (PInt 7) /\
    matches_colour (confirmed 8 [("option1", "Red"); ("option2", "1-10");
                                 ("option3", "Trade")]) "Red" "1-10" "Trade" /\
    ~ (exists c, matches_colour (confirmed 7 [("option1", "1-10"); ("option2", "Trade")])
                                c "1-10" "Trade").
Proof.
  eexists. eexists. split; [vm_compute; reflexivity|]. split; [reflexivity|].
  split; [reflexivity|]. split.
  - repeat split; eexists; (split; [reflexivity|reflexivity]).
  - intros [c [_ [_ [d [E G]]]]]. inversion E; subst d. discriminate G.
Qed.

Module DictFacts.

Lemma dict_get_set_same : forall d k v, Py.dict_get (Py.dict_set d k v) k = Some v.
Proof.
  induction d as [|[k' v'] t IH]; intros k v; simpl.
  - rewrite String.eqb_refl. reflexivity.
  - destruct (String.eqb k' k) eqn:E; simpl.
    + rewrite String.eqb_refl. reflexivity.
    + rewrite E. apply IH.
Qed.

Lemma dict_get_set_other : forall d k v k', k' <> k ->
  Py.dict_get (Py.dict_set d k v) k' = Py.dict_get d k'.
Proof.
  induction d as [|[k0 v0] t IH]; intros k v k' N; simpl.
  - destruct (String.eqb k k') eqn:E; [apply String.eqb_eq in E; congruence|reflexivity].
  - destruct (String.eqb k0 k) eqn:E; simpl.
    + apply String.eqb_eq in E. subst k0.
      destruct (String.eqb k k') eqn:E'; [apply String.eqb_eq in E'; congruence|reflexivity].
    + destruct (String.eqb k0 k'); [reflexivity|apply IH, N].
Qed.

Lemma dict_set_keys : forall d k v x,
  Py.dict_get d k = Some x -> map fst (Py.dict_set d k v) = map fst d.
Proof.
  induction d as [|[k0 v0] t IH]; intros k v x H; simpl in *; [discriminate|].
  destruct (String.eqb k0 k) eqn:E; simpl.
  - apply String.eqb_eq in E. congruence.
  - f_equal. eapply IH. exact H.
Qed.

End DictFacts.

Section BandParsing.

Variable json_loads : string -> result pyval.
Variable float_of_str : string -> option string.

Lemma validate_iff_conforming : forall b,
  validate_band_structure b = true <-> conforming b.
Proof.
  intro b. unfold validate_band_structure, conforming, Py.has_key. split.
  - destruct b; try discriminate. intro H.
    apply andb_true_iff in H. destruct H as [H Hp].
    apply andb_true_iff in H. destruct H as [Hmin Hmax].
    exists d. split; [reflexivity|].
    destruct (Py.dict_get d "min"); [|discriminate].
    destruct (Py.dict_get d "max"); [|discriminate].
    destruct (Py.dict_get d "price"); [|discriminate].
    repeat split; eexists; reflexivity.
  - intros [d [-> [[x Hx] [[y Hy] [z Hz]]]]]. rewrite Hx, Hy, Hz. reflexivity.
Qed.

Lemma price_coerced_unchanged : forall d p,
  Py.dict_get d "price" = Some p -> coerced_value float_of_str p = p ->
  price_coerced float_of_str (PDict d) (PDict d).
Proof.
  intros d p Hp Hc. exists d, d.
  split; [reflexivity|]. split; [reflexivity|]. split; [reflexivity|].
  split; [intros; reflexivity|].
  intros q Hq. rewrite Hp in Hq. inversion Hq; subst q. rewrite Hc. exact Hp.
Qed.

Lemma coerce_price_spec : forall b,
  conforming b -> price_coerced float_of_str b (coerce_price float_of_str b).
Proof.
  intros b [d [-> [_ [_ [p Hp]]]]]. unfold coerce_price. rewrite Hp.
  destruct p; try (apply (price_coerced_unchanged d _ Hp); reflexivity).
  destruct (float_of_str s) as [r|] eqn:F.
  - exists d, (Py.dict_set d "price" (PFloat r)).
    split; [reflexivity|]. split; [reflexivity|].
    split; [eapply DictFacts.dict_set_keys; exact Hp|].
    split; [intros k N; apply DictFacts.dict_get_set_other; exact N|].
    intros q Hq. rewrite Hp in Hq. inversion Hq; subst q.
    rewrite DictFacts.dict_get_set_same. simpl. rewrite F. reflexivity.
  - apply (price_coerced_unchanged d _ Hp). simpl. rewrite F. reflexivity.
Qed.

(** C6.  [parse_bands] is all-or-nothing: it returns the empty list when
    the text does not decode, decodes to something that is not a list, or
    decodes to a list with an element that is not a mapping with keys
    [min], [max] and [price]; otherwise it returns every band, in order,
    with a text price replaced by the float it reads as, and left alone
    when it does not read as one. *)
Theorem parse_bands_all_or_nothing :
  forall s : string,
    (forall e, json_loads s = Raise e ->
               parse_bands json_loads float_of_str (PStr s) = []) /\
    (forall v, json_loads s = Ret v -> (forall l, v <> PList l) ->
               parse_bands json_loads float_of_str (PStr s) = []) /\
    (forall l, json_loads s = Ret (PList l) ->
               (exists b, In b l /\ ~ conforming b) ->
               parse_bands json_loads float_of_str (PStr s) = []) /\
    (forall l, json_loads s = Ret (PList l) -> Forall conforming l ->
               Forall2 (price_coerced float_of_str) l
                       (parse_bands json_loads float_of_str (PStr s))).
Proof.
  intro s. unfold parse_bands. repeat split.
  - intros e H. rewrite H. reflexivity.
  - intros v H N. rewrite H. destruct v; try reflexivity. exfalso. exact (N l eq_refl).
  - intros l H [b [Ib Nb]]. rewrite H.
    destruct (forallb validate_band_structure l) eqn:V; [|reflexivity].
    exfalso. apply Nb. apply validate_iff_conforming.
    rewrite forallb_forall in V. apply V, Ib.
  - intros l H C. rewrite H.
    replace (forallb validate_band_structure l) with true.
    + clear H. induction C as [|b t Cb _ IH]; simpl; constructor;
        [apply coerce_price_spec, Cb|exact IH].
    + symmetry. apply forallb_forall. intros b Ib.
      apply validate_iff_conforming. rewrite Forall_forall in C. apply C, Ib.
Qed.

End BandParsing.

Lemma parse_bands_all_or_nothing_witness :
  parse_bands example_loads example_float (PStr "not json") = [] /\
  parse_bands example_loads example_float (PStr "{}") = [] /\
  parse_bands example_loads example_float (PStr "[1]") = [] /\
  Forall2 (price_coerced example_float)
          [band 1 10 (PStr "5.00")]
          (parse_bands example_loads example_float (PStr example_band_text)) /\
  parse_bands example_loads example_float (PStr example_band_text)
  = [band 1 10 (PFloat "5.0")].
Proof.
  split; [|split; [|split; [|split]]].
  - exact (proj1 (parse_bands_all_or_nothing example_loads example_float "not json")
                 JSONDecodeError eq_refl).
  - refine (proj1 (proj2 (parse_bands_all_or_nothing example_loads example_float "{}"))
                  (PDict []) eq_refl _).
    intros l H. discriminate H.
  - refine (proj1 (proj2 (proj2 (parse_bands_all_or_nothing example_loads example_float
                                   "[1]")))
                  [PInt 1] eq_refl _).
    exists (PInt 1). split; [left; reflexivity|].
    intros [d [E _]]. discriminate E.
  - refine (proj2 (proj2 (proj2 (parse_bands_all_or_nothing example_loads example_float
                                   example_band_text)))
                  [band 1 10 (PStr "5.00")] eq_refl _).
    repeat constructor. exists [("min", PInt 1); ("max", PInt 10); ("price", PStr "5.00")].
    split; [reflexivity|]. repeat split; eexists; reflexivity.
  - reflexivity.
Defined.

Module TraceFacts.

Lemma writes_single : forall e,
  is_metafield_write e = false -> metafield_writes [e] = [].
Proof. intros e H. unfold metafield_writes. cbn [filter]. rewrite H. reflexivity. Qed.

Lemma extends_refl : forall w, extends_quietly w w.
Proof. intro w. exists []. rewrite app_nil_r. split; reflexivity. Qed.

Lemma extends_trans : forall a b c,
  extends_quietly a b -> extends_quietly b c -> extends_quietly a c.
Proof.
  intros a b c [e1 [H1 Q1]] [e2 [H2 Q2]]. exists (e1 ++ e2). split.
  - rewrite H2, H1, app_assoc. reflexivity.
  - unfold metafield_writes in *. rewrite filter_app, Q1, Q2. reflexivity.
Qed.

Lemma extends_writes : forall w w',
  extends_quietly w w' -> metafield_writes (trace w') = metafield_writes (trace w).
Proof.
  intros w w' [evs [H Q]]. unfold metafield_writes in *.
  rewrite H, filter_app, Q, app_nil_r. reflexivity.
Qed.

Lemma quiet_ret {A} (a : A) : quiet (ret a).
Proof. intro w. apply extends_refl. Qed.

Lemma quiet_raise {A} (e : exn) : quiet (@raise A e).
Proof. intro w. apply extends_refl. Qed.

Lemma quiet_lift {A} (r : result A) : quiet (lift r).
Proof. intro w. apply extends_refl. Qed.

Lemma quiet_bind {A B} (m : M A) (k : A -> M B) :
  quiet m -> (forall a, quiet (k a)) -> quiet (bind m k).
Proof.
  intros Hm Hk w. unfold bind. specialize (Hm w).
  destruct (m w) as [[a|e] w1]; simpl in *.
  - eapply extends_trans; [exact Hm|apply Hk].
  - exact Hm.
Qed.

Lemma quiet_try_catch {A} (m : M A) (h : exn -> M A) :
  quiet m -> (forall e, quiet (h e)) -> quiet (try_catch m h).
Proof.
  intros Hm Hh w. unfold try_catch. specialize (Hm w).
  destruct (m w) as [[a|e] w1]; simpl in *.
  - exact Hm.
  - eapply extends_trans; [exact Hm|apply Hh].
Qed.

Lemma quiet_sleep : forall ms, quiet (sleep ms).
Proof. intros ms w. exists [Slept ms]. split; reflexivity. Qed.

Lemma quiet_requests_request : forall rq,
  is_metafield_write (Sent rq) = false -> quiet (requests_request rq).
Proof.
  intros rq H w. unfold requests_request.
  destruct (replies w) as [|[r|] rest]; simpl; exists [Sent rq];
    (split; [reflexivity|apply writes_single, H]).
Qed.

Lemma safe_request_from_quiet : forall rq, is_metafield_write (Sent rq) = false ->
  forall pending done,
    exists evs, trace (snd (safe_request_from rq pending done)) = done ++ evs /\
                metafield_writes evs = [].
Proof.
  intros rq H. induction pending as [|[r|] rest IH]; intro done; simpl.
  - exists [Sent rq]. split; [reflexivity|].
    apply writes_single, H.
  - destruct (status_code r =? 429).
    + destruct (IH (done ++ [Sent rq; Slept 2000])) as [evs [E Q]].
      exists ([Sent rq; Slept 2000] ++ evs). split.
      * rewrite E, <- app_assoc. reflexivity.
      * unfold metafield_writes in *. rewrite filter_app, Q. cbn [filter].
        rewrite H. reflexivity.
    + exists [Sent rq]. split; [reflexivity|].
      apply writes_single, H.
  - exists [Sent rq]. split; [reflexivity|].
    apply writes_single, H.
Qed.

Lemma quiet_safe_request : forall rq,
  is_metafield_write (Sent rq) = false -> quiet (safe_request rq).
Proof.
  intros rq H w. unfold safe_request. apply safe_request_from_quiet. exact H.
Qed.

Lemma quiet_get_paginated_fuel : forall fuel url, quiet (get_paginated_fuel fuel url).
Proof.
  induction fuel as [|f IH]; intro url; simpl.
  - apply quiet_raise.
  - apply quiet_bind; [apply quiet_safe_request; reflexivity|]. intro resp.
    apply quiet_bind; [apply quiet_lift|]. intro data.
    destruct (link_next resp) as [u|]; [|apply quiet_ret].
    destruct (String.eqb u ""); [apply quiet_ret|].
    apply quiet_bind; [apply IH|]. intro rest. apply quiet_ret.
Qed.

Lemma quiet_get_paginated : forall url, quiet (_get_paginated url).
Proof. intros url w. unfold _get_paginated. apply quiet_get_paginated_fuel. Qed.

Lemma quiet_get_metafields_by_keys : forall pid keys,
  quiet (get_metafields_by_keys pid keys).
Proof.
  intros pid keys. unfold get_metafields_by_keys, get_all_metafields.
  apply quiet_bind; [|intro; apply quiet_lift].
  apply quiet_bind; [apply quiet_get_paginated|intro; apply quiet_lift].
Qed.

Lemma quiet_peek : forall pid, quiet (peek_metafields pid).
Proof.
  intro pid. unfold peek_metafields.
  apply quiet_try_catch; [|intro; apply quiet_ret].
  apply quiet_bind; [apply quiet_requests_request; reflexivity|intro; apply quiet_ret].
Qed.

Ltac quiet_step :=
  first
    [ apply quiet_ret | apply quiet_raise | apply quiet_lift | apply quiet_sleep
    | apply quiet_requests_request; reflexivity
    | apply quiet_safe_request; reflexivity
    | apply quiet_bind; [|intro]
    | apply quiet_try_catch; [|intro]
    | match goal with
      | |- quiet (if ?c then _ else _) => destruct c
      | |- quiet (match ?x with _ => _ end) => destruct x
      end ].

Lemma quiet_delete_existing_variants : forall pid, quiet (delete_existing_variants pid).
Proof. intro pid. unfold delete_existing_variants. repeat quiet_step. Qed.

Lemma quiet_update_product_variants : forall pid variants colours,
  quiet (update_product_variants pid variants colours).
Proof. intros. unfold update_product_variants. repeat quiet_step. Qed.

End TraceFacts.

Import TraceFacts.

Section PipelineFacts.

Variable json_loads : string -> result pyval.
Variable json_dumps : pyval -> string.
Variable float_of_str : string -> option string.
Variable int_of_text : string -> result Z.
Variable int_of_float : string -> result Z.
Variable set_order : list string -> list string.
Variable attach_main_image_to_variants :
  pyval -> pyval -> list string -> pyval -> M bool.

Local Abbreviation prepare_ :=
  (prepare json_loads float_of_str int_of_text int_of_float set_order).
Local Abbreviation process_product_ :=
  (process_product json_loads json_dumps float_of_str int_of_text int_of_float
                   set_order attach_main_image_to_variants).

Lemma quiet_prepare : forall product, quiet (prepare_ product).
Proof.
  intro product. unfold prepare.
  apply quiet_bind; [apply quiet_lift|intro product_id].
  apply quiet_bind; [apply quiet_lift|intro product_name].
  destruct (negb (Py.truthy product_id)); [apply quiet_ret|].
  apply quiet_bind; [apply quiet_lift|intro name].
  destruct (Text.contains "origination" name); [apply quiet_ret|].
  apply quiet_bind; [apply quiet_get_metafields_by_keys|intro metafields].
  apply quiet_bind;
    [destruct (Py.has_key metafields "product_colours");
     [apply quiet_ret|apply quiet_peek]|intros _].
  apply quiet_bind; [apply quiet_lift|intro sku].
  apply quiet_bind; [apply quiet_lift|intro unit_weight].
  apply quiet_bind; [apply quiet_lift|intros [colours codes]].
  destruct (Py.dict_get metafields "pricejsontr"); [|apply quiet_ret].
  destruct (Py.dict_get metafields "pricejsoner"); [|apply quiet_ret].
  apply quiet_bind; [apply quiet_lift|intro tr_value].
  apply quiet_bind; [apply quiet_lift|intro er_value].
  match goal with |- quiet (if ?c then _ else _) => destruct c end;
    [apply quiet_ret|].
  apply quiet_bind; [apply quiet_lift|intro variants].
  apply quiet_bind; [apply quiet_delete_existing_variants|intros _].
  apply quiet_ret.
Qed.

(** C7.  When the variant update step of a product's run returns no
    variants, [process_product] returns [False] at that point, and the
    whole run has written no metafield. *)
Theorem process_product_aborts_without_metafield_writes :
  forall (product : pyval) (p : prepared) (w w1 w2 : world) (updated : pyval),
    prepare_ product w = (Ret (inr p), w1) ->
    update_product_variants (p_product_id p) (p_variants p) (p_colours p) w1
    = (Ret updated, w2) ->
    Py.truthy updated = false ->
    process_product_ product w = (Ret (Some false), w2) /\
    metafield_writes (trace w2) = metafield_writes (trace w).
Proof.
  intros product p w w1 w2 updated Hprep Hupd Hempty. split.
  - unfold process_product, try_catch, bind. rewrite Hprep.
    unfold finish, bind. rewrite Hupd. rewrite Hempty. reflexivity.
  - apply extends_writes. apply extends_trans with (b := w1).
    + pose proof (quiet_prepare product w) as Q. rewrite Hprep in Q. exact Q.
    + pose proof (quiet_update_product_variants
                    (p_product_id p) (p_variants p) (p_colours p) w1) as Q.
      rewrite Hupd in Q. exact Q.
Qed.


End PipelineFacts.

Lemma process_product_aborts_without_metafield_writes_witness :
  exists w2,
    example_run (product_json 1 "Mug")
                (fresh (replies_before_update ++ [answer 422 (PDict [])]))
    = (Ret (Some false), w2) /\
    replies w2 = [] /\
    metafield_writes (trace w2) = [].
Proof.
  eexists. split; [|split].
  - refine (proj1 (process_product_aborts_without_metafield_writes
                     example_loads example_dumps example_float Text.int_of_str
                     example_int_of_float insertion_order no_image_binder
                     (product_json 1 "Mug") _
                     (fresh (replies_before_update ++ [answer 422 (PDict [])]))
                     _ _ _ _ _ _)).
    + vm_compute. reflexivity.
    + vm_compute. reflexivity.
    + reflexivity.
  - reflexivity.
  - vm_compute. reflexivity.
Defined.

(** ** Rate limiting *)

(** X1.  [safe_request] retries: after [n] replies with status 429 it has sent
    the same request [n + 1] times, slept after each 429, and hands back
    the first other reply. *)
Lemma safe_request_retries_on_429 :
  forall (rq : request) (limited : list response) (r : response)
         (rest : list reply) (tr : list event),
    Forall (fun x => status_code x = 429) limited ->
    status_code r <> 429 ->
    safe_request rq {| replies := map Reply limited ++ Reply r :: rest; trace := tr |}
    = (_ <-? raise_for_status r ;; Ret r,
       {| replies := rest;
          trace := tr ++ flat_map (fun _ => [Sent rq; Slept 2000]) limited
                      ++ [Sent rq] |}).
Proof.
  intros rq limited r rest tr H Hr. unfold safe_request. simpl.
  revert tr. induction H as [|x xs Hx _ IH]; intro tr; simpl.
  - apply Z.eqb_neq in Hr. rewrite Hr. reflexivity.
  - rewrite Hx. simpl. rewrite IH. rewrite <- !app_assoc. reflexivity.
Qed.

(** [update_product_variants] sends its request once, whatever the reply,
    and never sleeps; a 429 makes it return no variants. *)
Lemma update_product_variants_sends_once :
  forall pid variants colours (w : world),
    exists updated,
      update_product_variants pid variants colours w
      = (Ret updated,
         {| replies := tl (replies w);
            trace := trace w ++
                     [Sent {| rq_method := PUT; rq_url := ProductResource pid;
                              rq_json := Some (variants_payload pid variants colours) |}] |})
      /\ (forall r rest, replies w = Reply r :: rest -> status_code r = 429 ->
                         updated = PList []).
Proof.
  intros pid variants colours [rs tr].
  unfold update_product_variants, try_catch, bind, requests_request, log. simpl.
  destruct rs as [|[r|] rest]; simpl.
  - eexists. split; [reflexivity|]. intros r rest H. discriminate H.
  - destruct (status_code r =? 200) eqn:S200.
    + unfold lift.
      destruct (json r) as [body|e]; cbn [rbind];
        [|eexists; split; [reflexivity|]; intros r' rest' H S; inversion H; subst;
          rewrite S in S200; discriminate S200].
      match goal with
      | |- context [match ?x with Ret _ => _ | Raise _ => _ end] =>
          destruct x as [v|e]
      end;
        (eexists; split; [reflexivity|]; intros r' rest' H S; inversion H; subst;
         rewrite S in S200; discriminate S200).
    + eexists. split; [reflexivity|]. reflexivity.
  - eexists. split; [reflexivity|]. intros r rest' H. discriminate H.
Qed.

(** C8, on the code.  The platform answers the variant update with 429 and
    would accept it next: the run sends the update once, does not sleep,
    leaves the accepting reply unread and reports failure; [safe_request]
    on the same request and replies retries and gets through. *)
Theorem variant_update_is_not_retried_on_429 :
  let w := fresh (replies_before_update ++ [answer 429 PNone; update_accepted]) in
  let '(verdict, w') := example_run (product_json 1 "Mug") w in
  verdict = Ret (Some false) /\
  replies w' = [update_accepted] /\
  List.length (filter is_variant_update (trace w')) = 1%nat /\
  filter is_sleep (trace w') = [] /\
  forall rq,
    safe_request rq (fresh [answer 429 PNone; update_accepted])
    = (Ret {| status_code := 200;
              json := Ret (PDict [("product",
                                   PDict [("variants",
                                           PList [confirmed 41 [("option1", "1-10");
                                                                ("option2", "Trade")]])])]);
              link_next := None |},
       {| replies := []; trace := [Sent rq; Slept 2000; Sent rq] |}).
Proof.
  vm_compute. repeat split; reflexivity.
Qed.

Section BatchFacts.

Variable json_loads : string -> result pyval.
Variable json_dumps : pyval -> string.
Variable float_of_str : string -> option string.
Variable int_of_text : string -> result Z.
Variable int_of_float : string -> result Z.
Variable set_order : list string -> list string.
Variable attach_main_image_to_variants :
  pyval -> pyval -> list string -> pyval -> M bool.

Local Abbreviation main_loop_ :=
  (main_loop json_loads json_dumps float_of_str int_of_text int_of_float
             set_order attach_main_image_to_variants).


End BatchFacts.

(** C9, on the code.  A batch of two products whose runs both fail (the
    platform answers their metafield fetch with 500, and each run returns
    [False]): the batch runs to its end, and reports 2 successful and 0
    failed. *)
Theorem batch_reports_failed_runs_as_successful :
  fst (example_run (product_json 1 "Mug") (fresh [answer 500 PNone]))
  = Ret (Some false) /\
  fst (example_run (product_json 2 "Cup") (fresh [answer 500 PNone]))
  = Ret (Some false) /\
  example_main []
    (fresh [answer 200 (PDict [("products",
                                PList [product_json 1 "Mug"; product_json 2 "Cup"])]);
            answer 500 PNone; answer 500 PNone])
  = (Ret 0,
     {| replies := [];
        trace := [Sent (get_request ProductsPage);
                  Sent (get_request (ProductMetafields (PInt 1) true));
                  Slept 700;
                  Sent (get_request (ProductMetafields (PInt 2) true));
                  Reported 2 0] |}).
Proof. vm_compute. repeat split; reflexivity. Qed.

(** ** Pagination never runs out of fuel *)

Lemma safe_request_from_consumes : forall rq pending done r w',
  safe_request_from rq pending done = (Ret r, w') ->
  (List.length (replies w') < List.length pending)%nat.
Proof.
  intros rq. induction pending as [|[x|] rest IH]; intros done r w' H; simpl in H.
  - discriminate H.
  - destruct (status_code x =? 429).
    + apply IH in H. simpl. lia.
    + inversion H; subst. simpl. lia.
  - discriminate H.
Qed.

Lemma get_paginated_fuel_enough : forall f1 f2 url w,
  (List.length (replies w) < f1)%nat -> (List.length (replies w) < f2)%nat ->
  get_paginated_fuel f1 url w = get_paginated_fuel f2 url w.
Proof.
  induction f1 as [|f1 IH]; intros f2 url w H1 H2; [lia|].
  destruct f2 as [|f2]; [lia|]. cbn [get_paginated_fuel]. unfold bind, lift.
  destruct (safe_request (get_request url) w) as [[resp|e] w1] eqn:Hreq;
    [|reflexivity].
  apply safe_request_from_consumes in Hreq.
  destruct (json resp) as [data|e]; [|reflexivity].
  destruct (link_next resp) as [u|]; [|reflexivity].
  destruct (String.eqb u ""); [reflexivity|].
  rewrite (IH f2 (NextPage u) w1) by lia. reflexivity.
Qed.

(* ===================================================================== *)
(** * Further properties of the pipeline *)
(* ===================================================================== *)

(** * More of the engine *)

Module RoundTrip.
Import Text TextFacts.

Lemma text_chars : forall s, text (chars s) = s.
Proof. intro s. apply string_of_list_ascii_of_string. Qed.


Lemma digit_val_digit_char : forall d, 0 <= d < 10 -> digit_val (digit_char d) = d.
Proof.
  intros d H.
  assert (d = 0 \/ d = 1 \/ d = 2 \/ d = 3 \/ d = 4 \/ d = 5 \/ d = 6 \/ d = 7
          \/ d = 8 \/ d = 9) as C by lia.
  repeat (destruct C as [->|C]; [reflexivity|]). subst; reflexivity.
Qed.

Lemma digits_value_app : forall l acc c,
  digits_value acc (l ++ [c]) = 10 * digits_value acc l + digit_val c.
Proof.
  induction l as [|x l IH]; intros acc c; simpl; [reflexivity|apply IH].
Qed.

(** Reading back the digits of a number gives the number. *)
Lemma digits_value_digits : forall n, 0 <= n -> digits_value 0 (digits n) = n.
Proof.
  apply digits_ind.
  - intros n H. rewrite digits_small by lia. simpl.
    rewrite digit_val_digit_char by lia. lia.
  - intros n H IH. rewrite digits_step by lia. rewrite digits_value_app, IH.
    rewrite digit_val_digit_char by (apply Z.mod_pos_bound; lia).
    pose proof (Z.div_mod n 10 ltac:(lia)). lia.
Qed.

Lemma is_digit_code : forall c, is_digit c = true -> 48 <= code c <= 57.
Proof.
  intros c H. unfold is_digit in H. apply andb_true_iff in H.
  destruct H as [H1 H2]. apply Z.leb_le in H1. apply Z.leb_le in H2. lia.
Qed.

Lemma code_not_eqb : forall c d, code c <> code d -> Ascii.eqb c d = false.
Proof.
  intros c d H. destruct (Ascii.eqb c d) eqn:E; [|reflexivity].
  apply Ascii.eqb_eq in E. subst. contradiction.
Qed.

Lemma digit_not_space : forall c, is_digit c = true -> is_space c = false.
Proof.
  intros c H. apply is_digit_code in H. unfold is_space.
  apply orb_false_iff. split; apply andb_false_iff.
  - right. apply Z.leb_gt. lia.
  - right. apply Z.leb_gt. lia.
Qed.


Lemma digit_not_char : forall c d,
  is_digit c = true -> (code d < 48 \/ 57 < code d) -> Ascii.eqb c d = false.
Proof.
  intros c d H Hd. apply is_digit_code in H. apply code_not_eqb. lia.
Qed.

Lemma strip_by_clean : forall sp l,
  Forall (fun c => sp c = false) l -> strip_by sp l = l.
Proof.
  intros sp l H. unfold strip_by.
  assert (forall m, Forall (fun c => sp c = false) m -> lstrip_by sp m = m) as L.
  { intros m Hm. destruct Hm as [|c t Hc _]; [reflexivity|]. simpl. rewrite Hc.
    reflexivity. }
  rewrite (L l H). rewrite L; [apply rev_involutive|].
  apply Forall_rev. exact H.
Qed.




Lemma span_digits_stop : forall l r,
  Forall (fun c => is_digit c = true) l ->
  match r with [] => True | c :: _ => is_digit c = false end ->
  Dec.span_digits (l ++ r) = (l, r).
Proof.
  induction l as [|c t IH]; intros r H Hr; simpl.
  - destruct r as [|c r]; [reflexivity|]. simpl. rewrite Hr. reflexivity.
  - inversion H as [|? ? Hc Ht]; subst. rewrite Hc. rewrite (IH r Ht Hr). reflexivity.
Qed.

End RoundTrip.

Module PriceRoundTrip.
Import Text TextFacts RoundTrip DecFacts PriceFacts.

Lemma filter_keeps_all {A} (f : A -> bool) : forall l,
  Forall (fun x => f x = true) l -> filter f l = l.
Proof.
  induction l as [|x t IH]; intro H; simpl; [reflexivity|].
  inversion H as [|? ? Hx Ht]; subst. rewrite Hx. f_equal. apply IH, Ht.
Qed.

Lemma cents_digits_value : forall n, 0 <= n ->
  digits_value 0 (digits (n / 100)
                  ++ [digit_char (n / 10 mod 10); digit_char (n mod 10)]) = n.
Proof.
  intros n Hn.
  change (digits (n / 100) ++ [digit_char (n / 10 mod 10); digit_char (n mod 10)])
    with (digits (n / 100) ++ [digit_char (n / 10 mod 10)] ++ [digit_char (n mod 10)]).
  rewrite app_assoc, !digits_value_app.
  rewrite digits_value_digits by (apply Z.div_pos; lia).
  rewrite !digit_val_digit_char by (apply Z.mod_pos_bound; lia).
  pose proof (Z.div_mod n 10 ltac:(lia)) as D1.
  pose proof (Z.div_mod (n / 10) 10 ltac:(lia)) as D2.
  rewrite Z.div_div in D2 by lia. change (10 * 10) with 100 in D2. lia.
Qed.

(** Reading a two-decimal text back gives the hundredths it was written
    from. *)
Lemma of_str_cents_text : forall neg n, 0 <= n ->
  Dec.of_str (cents_text neg n) = Ret (Dec.DFin neg n (-2)).
Proof.
  intros neg n Hn. unfold Dec.of_str, cents_text. rewrite chars_text.
  pose proof (digits_all_digits (n / 100) ltac:(apply Z.div_pos; lia)) as D.
  pose proof (digits_length_pos (n / 100) ltac:(apply Z.div_pos; lia)) as L.
  set (q := digits (n / 100)) in *.
  set (d1 := digit_char (n / 10 mod 10)).
  set (d2 := digit_char (n mod 10)).
  assert (is_digit d1 = true) as H1
    by (apply is_digit_digit_char, Z.mod_pos_bound; lia).
  assert (is_digit d2 = true) as H2
    by (apply is_digit_digit_char, Z.mod_pos_bound; lia).
  set (l := (if neg then ["-"%char] else []) ++ q ++ ["."%char; d1; d2]).
  assert (Forall (fun c => is_space c = false) l) as NS.
  { unfold l. apply Forall_app. split; [destruct neg; repeat constructor|].
    apply Forall_app. split.
    - eapply Forall_impl; [|exact D]. intros c Hc. apply digit_not_space, Hc.
    - repeat constructor; apply digit_not_space; assumption. }
  assert (Forall (fun c => negb (Ascii.eqb c "_"%char) = true) l) as NU.
  { unfold l. apply Forall_app. split; [destruct neg; repeat constructor|].
    apply Forall_app. split.
    - eapply Forall_impl; [|exact D]. intros c Hc.
      rewrite (digit_not_char c "_"%char Hc) by (right; vm_compute; reflexivity).
      reflexivity.
    - repeat constructor;
        rewrite digit_not_char by (assumption || (right; vm_compute; reflexivity));
        reflexivity. }
  unfold strip_chars. rewrite (strip_by_clean is_space l NS).
  rewrite (filter_keeps_all _ l NU).
  assert (Dec.parse_number neg (q ++ ["."%char; d1; d2])
          = Some (Dec.DFin neg n (-2))) as PN.
  { unfold Dec.parse_number.
    rewrite (span_digits_stop q ["."%char; d1; d2] D) by reflexivity.
    cbn [Ascii.eqb Bool.eqb]. 
    change (Ascii.eqb "." ".") with true. cbv iota.
    change [d1; d2] with ([d1; d2] ++ []).
    rewrite (span_digits_stop [d1; d2] []) by (repeat constructor; assumption).
    cbn [app].
    destruct (q ++ [d1; d2]) as [|x xs] eqn:E.
    - destruct q; discriminate E.
    - rewrite <- E. cbn [Dec.parse_exponent List.length Z.of_nat].
      unfold d1, d2, q. rewrite cents_digits_value by lia. reflexivity. }
  unfold l. destruct neg.
  - cbn [app]. change (Ascii.eqb "-" "-") with true. cbv iota. rewrite PN. reflexivity.
  - cbn [app]. destruct q as [|c t] eqn:E; [simpl in L; lia|].
    inversion D as [|? ? Hc Ht]; subst.
    cbn [app].
    rewrite (digit_not_char c "-"%char Hc) by (left; vm_compute; reflexivity).
    rewrite (digit_not_char c "+"%char Hc) by (left; vm_compute; reflexivity).
    cbn [app] in PN. rewrite PN. reflexivity.
Qed.

Lemma half_up_of_cents : forall n, half_up_cents n (-2) = n.
Proof. intro n. unfold half_up_cents. simpl. lia. Qed.

Lemma format_price_of_cents_text : forall neg n,
  0 <= n -> n < 10 ^ Dec.prec ->
  format_price (PStr (cents_text neg n)) = Ret (cents_text neg n).
Proof.
  intros neg n Hn Hfit. unfold format_price. cbn [Py.str].
  rewrite of_str_cents_text by assumption. cbn [rbind].
  rewrite quantize_cents_fits by (rewrite ?half_up_of_cents; assumption).
  rewrite half_up_of_cents. cbn [rbind Py.try_except].
  rewrite to_str_cents by assumption. reflexivity.
Qed.

End PriceRoundTrip.

(** X5.  Formatting twice is formatting once.  The text [format_price]
    returns for a numeric price is returned unchanged when it is formatted
    again (as the match-back does with a price already formatted). *)
Theorem format_price_idempotent :
  forall (price : pyval) (neg : bool) (c e : Z),
    numeric_price price neg c e ->
    half_up_cents c e < 10 ^ Dec.prec ->
    exists s, format_price price = Ret s /\ format_price (PStr s) = Ret s.
Proof.
  intros price neg c e [Hparse [Hc He]] Hfit.
  exists (cents_text neg (half_up_cents c e)). split.
  - unfold format_price. rewrite Hparse. cbn [rbind].
    rewrite PriceFacts.quantize_cents_fits by assumption. cbn [rbind Py.try_except].
    rewrite PriceFacts.to_str_cents by (apply DecFacts.half_up_nonneg; assumption).
    reflexivity.
  - apply PriceRoundTrip.format_price_of_cents_text; [|assumption].
    apply DecFacts.half_up_nonneg; assumption.
Qed.

Lemma format_price_idempotent_witness :
  exists s, format_price (PFloat "19.995") = Ret s /\ format_price (PStr s) = Ret s.
Proof.
  assert (numeric_price (PFloat "19.995") false 19995 (-3)) as N
    by (repeat split; vm_compute; congruence).
  assert (half_up_cents 19995 (-3) < 10 ^ Dec.prec) as F by (vm_compute; reflexivity).
  exact (format_price_idempotent _ _ _ _ N F).
Defined.

Module PriceErrors.



End PriceErrors.





Section ParserOutput.

Variable json_loads : string -> result pyval.
Variable float_of_str : string -> option string.

Lemma coerce_price_keeps_structure : forall b,
  validate_band_structure b = true ->
  validate_band_structure (coerce_price float_of_str b) = true /\
  band_label (coerce_price float_of_str b) = band_label b.
Proof.
  intros b V. apply validate_iff_conforming in V.
  destruct (coerce_price_spec float_of_str b V)
    as [d [d' [-> [E [_ [Other Price]]]]]].
  rewrite E. destruct V as [d0 [E0 [[x Hx] [[y Hy] [z Hz]]]]].
  inversion E0; subst d0. split.
  - unfold validate_band_structure, Py.has_key.
    rewrite (Other "min"), (Other "max") by discriminate.
    rewrite Hx, Hy, (Price z Hz). reflexivity.
  - unfold band_label, Py.subscript.
    rewrite (Other "min"), (Other "max") by discriminate. reflexivity.
Qed.

(** X8.  What the parser hands on is well formed: every band [parse_bands]
    returns is a mapping with [min], [max] and [price], so [band_label]
    returns on it and its price can be read; a value that is not text
    (a missing metafield value) parses to the empty list. *)
Theorem parse_bands_output_is_labelled :
  forall (value : pyval),
    (forall b, In b (parse_bands json_loads float_of_str value) ->
       validate_band_structure b = true /\
       (exists l, band_label b = Ret l) /\
       (exists p, Py.subscript b "price" = Ret p)) /\
    ((forall s, value <> PStr s) ->
     parse_bands json_loads float_of_str value = []).
Proof.
  intro value. split.
  - intros b Hb. unfold parse_bands in Hb.
    assert (exists b0, validate_band_structure b0 = true /\
                       b = coerce_price float_of_str b0) as [b0 [V ->]].
    { destruct (match value with PStr s => json_loads s | _ => Raise TypeError end)
        as [[| | | | |data|]|e]; try contradiction.
      destruct (forallb validate_band_structure data) eqn:F; [|contradiction].
      apply in_map_iff in Hb. destruct Hb as [b0 [<- I]].
      exists b0. split; [|reflexivity]. rewrite forallb_forall in F. apply F, I. }
    destruct (coerce_price_keeps_structure b0 V) as [V' L].
    split; [exact V'|].
    apply validate_iff_conforming in V'.
    destruct V' as [d [E [[x Hx] [[y Hy] [z Hz]]]]]. rewrite E. split.
    + unfold band_label, Py.subscript. rewrite Hx, Hy. cbn [rbind]. eauto.
    + unfold Py.subscript. rewrite Hz. eauto.
  - intro N. unfold parse_bands. destruct value; try reflexivity.
    exfalso. exact (N s eq_refl).
Qed.

End ParserOutput.

Lemma parse_bands_output_is_labelled_witness :
  (exists l, band_label (band 1 10 (PFloat "5.0")) = Ret l) /\
  parse_bands example_loads example_float PNone = [].
Proof.
  split.
  - refine (proj1 (proj2 (proj1 (parse_bands_output_is_labelled
                                   example_loads example_float (PStr example_band_text))
                                (band 1 10 (PFloat "5.0")) _))).
    left. reflexivity.
  - refine (proj2 (parse_bands_output_is_labelled example_loads example_float PNone) _).
    intros s H. discriminate H.
Defined.

Module UniqueFacts.
Import ResultFacts SynthFacts SynthTotal.

Lemma nodup_app {A} : forall (l1 l2 : list A),
  NoDup l1 -> NoDup l2 -> (forall a, In a l1 -> In a l2 -> False) ->
  NoDup (l1 ++ l2).
Proof.
  induction l1 as [|x t IH]; intros l2 N1 N2 D; simpl; [exact N2|].
  inversion N1 as [|? ? Hx Ht]; subst. constructor.
  - intro I. apply in_app_or in I. destruct I as [I|I]; [contradiction|].
    apply (D x); [left; reflexivity|exact I].
  - apply IH; try assumption. intros a Ia Ib. apply (D a); [right; exact Ia|exact Ib].
Qed.

(** Concatenating the outputs of distinct inputs keeps keys distinct when
    each output has distinct keys and different inputs give different keys. *)
Lemma rconcat_nodup {A B C} (f : A -> result (list B)) (g : B -> C) :
  forall l ys,
    NoDup l ->
    (forall x zs, In x l -> f x = Ret zs -> NoDup (map g zs)) ->
    (forall x y zs ws t, In x l -> In y l -> x <> y ->
        f x = Ret zs -> f y = Ret ws ->
        In t (map g zs) -> In t (map g ws) -> False) ->
    rconcat f l = Ret ys -> NoDup (map g ys).
Proof.
  induction l as [|x t IH]; intros ys N Each Cross H; simpl in H.
  - inversion H. constructor.
  - destruct (f x) as [zs|e] eqn:Fx; [|discriminate]. cbn [rbind] in H.
    destruct (rconcat f t) as [ws|e] eqn:Ft; [|discriminate]. cbn [rbind] in H.
    inversion H; subst. inversion N as [|? ? Hx Nt]; subst.
    rewrite map_app. apply nodup_app.
    + apply (Each x); [left; reflexivity|exact Fx].
    + apply (IH ws Nt); [| |reflexivity].
      * intros y zs' Iy Fy. apply (Each y); [right; exact Iy|exact Fy].
      * intros a b za zb k Ia Ib. apply Cross; right; assumption.
    + intros k Ik Ik'. apply (rconcat_map f g t ws Ft) in Ik'.
      destruct Ik' as [y [zs' [Iy [Fy Iky]]]].
      apply (Cross x y zs zs' k); auto with datatypes.
      intros ->. contradiction.
Qed.

Lemma shape_types_differ : forall colour label,
  shape colour label "Trade" <> shape colour label "End Customer".
Proof.
  intros colour label. unfold shape. destruct (colour_given colour); discriminate.
Qed.

Lemma shape_label_inj : forall colour l1 l2 t1 t2,
  shape colour l1 t1 = shape colour l2 t2 -> l1 = l2.
Proof.
  intros colour l1 l2 t1 t2. unfold shape.
  destruct (colour_given colour); intro H; inversion H; reflexivity.
Qed.

Lemma shape_colour_inj : forall c1 c2 l1 l2 t1 t2,
  shape (Some c1) l1 t1 = shape (Some c2) l2 t2 -> c1 = c2.
Proof.
  intros c1 c2 l1 l2 t1 t2. unfold shape, colour_given.
  destruct (String.eqb c1 "") eqn:E1; destruct (String.eqb c2 "") eqn:E2;
    intro H; inversion H; try reflexivity.
  apply String.eqb_eq in E1. apply String.eqb_eq in E2. congruence.
Qed.

(** One label contributes at most its Trade variant followed by its End
    Customer variant, each built from the first band with that label. *)
Lemma variants_for_label_layout : forall trade endc sku w colour label vs,
  variants_for_label trade endc sku w colour label = Ret vs ->
  exists tv ev,
    vs = tv ++ ev /\
    (tv = [] \/ exists b v, tv = [v] /\ In b trade /\
                 build_variant_for_band label b "Trade" sku w colour = Ret v) /\
    (ev = [] \/ exists b v, ev = [v] /\ In b endc /\
                 build_variant_for_band label b "End Customer" sku w colour = Ret v).
Proof.
  intros trade endc sku w colour label vs H. unfold variants_for_label in H.
  destruct (first_band trade label) as [tb|e] eqn:FT; [|discriminate]. cbn [rbind] in H.
  destruct (first_band endc label) as [eb|e] eqn:FE; [|discriminate]. cbn [rbind] in H.
  assert (forall bs o ty r, first_band bs label = Ret o ->
            (match o with
             | Some b => if Py.truthy b
                         then v <-? build_variant_for_band label b ty sku w colour ;; Ret [v]
                         else Ret []
             | None => Ret [] end) = Ret r ->
            r = [] \/ exists b v, r = [v] /\ In b bs /\
                        build_variant_for_band label b ty sku w colour = Ret v) as Step.
  { intros bs o ty r Fo Hr. destruct o as [b|]; [|left; congruence].
    destruct (first_band_some _ _ _ Fo) as [Ib Lb].
    destruct (Py.truthy b); [|left; congruence].
    destruct (build_variant_for_band label b ty sku w colour) as [v|e] eqn:B;
      [|discriminate].
    right. exists b, v. inversion Hr. auto. }
  match type of H with
  | (x <-? ?m ;; _) = _ => destruct m as [tv|e] eqn:Ht; [|discriminate]
  end.
  cbn [rbind] in H.
  match type of H with
  | (x <-? ?m ;; _) = _ => destruct m as [ev|e] eqn:He; [|discriminate]
  end.
  cbn [rbind] in H. inversion H; subst vs.
  exists tv, ev. split; [reflexivity|]. split.
  - exact (Step trade tb "Trade" tv FT Ht).
  - exact (Step endc eb "End Customer" ev FE He).
Qed.

Lemma variants_for_label_nodup : forall trade endc sku w colour label vs,
  variants_for_label trade endc sku w colour label = Ret vs ->
  NoDup (map option_tuple vs) /\
  forall t, In t (map option_tuple vs) -> exists ty, t = shape colour label ty.
Proof.
  intros trade endc sku w colour label vs H.
  destruct (variants_for_label_layout _ _ _ _ _ _ _ H)
    as [tv [ev [-> [[->|[b [v [-> [_ Bv]]]]] [->|[b' [v' [-> [_ Bv']]]]]]]]];
    simpl;
    repeat match goal with
           | B : build_variant_for_band _ _ _ _ _ _ = Ret _ |- _ =>
               apply build_variant_tuple in B
           end.
  - split; [constructor|]. intros t [].
  - split; [repeat constructor; intros []|].
    intros t [<-|[]]. eauto.
  - split; [repeat constructor; intros []|].
    intros t [<-|[]]. eauto.
  - split.
    + constructor; [|repeat constructor; intros []].
      intros [E|[]]. rewrite Bv, Bv' in E.
      exact (shape_types_differ colour label (eq_sym E)).
    + intros t [<-|[<-|[]]]; eauto.
Qed.

End UniqueFacts.

Section UniqueVariants.

Variable int_of_text : string -> result Z.
Variable set_order : list string -> list string.
Hypothesis set_order_legal : set_order_ok set_order.

Local Abbreviation build_variants_ := (build_variants int_of_text set_order).

Lemma collect_nodup : forall trade endc labels,
  collect_unique_band_labels int_of_text set_order trade endc = Ret labels ->
  NoDup labels.
Proof.
  intros trade endc labels H.
  destruct (SynthTotal.collect_ret_labels _ _ _ _ _ H) as [ls HL].
  destruct (collect_spec int_of_text set_order set_order_legal _ _ _ HL)
    as [out [Ho [N _]]].
  rewrite H in Ho. inversion Ho; subst. exact N.
Qed.

Lemma labels_block_nodup : forall trade endc sku w colour labels vs,
  NoDup labels ->
  rconcat (variants_for_label trade endc sku w colour) labels = Ret vs ->
  NoDup (map option_tuple vs) /\
  forall t, In t (map option_tuple vs) -> exists l ty, t = shape colour l ty.
Proof.
  intros trade endc sku w colour labels vs N H. split.
  - refine (UniqueFacts.rconcat_nodup _ option_tuple labels vs N _ _ H).
    + intros l zs _ Hz. apply (UniqueFacts.variants_for_label_nodup _ _ _ _ _ _ _ Hz).
    + intros l1 l2 zs ws t _ _ Ne H1 H2 I1 I2.
      destruct (proj2 (UniqueFacts.variants_for_label_nodup _ _ _ _ _ _ _ H1) t I1)
        as [ty1 E1].
      destruct (proj2 (UniqueFacts.variants_for_label_nodup _ _ _ _ _ _ _ H2) t I2)
        as [ty2 E2].
      apply Ne. rewrite E1 in E2. exact (UniqueFacts.shape_label_inj _ _ _ _ _ E2).
  - intros t I. apply (SynthTotal.rconcat_map _ option_tuple _ _ H) in I.
    destruct I as [l [zs [_ [Hz Iz]]]].
    destruct (proj2 (UniqueFacts.variants_for_label_nodup _ _ _ _ _ _ _ Hz) t Iz)
      as [ty E].
    eauto.
Qed.

(** X9.  The option tuple is a key: when the colour list has no repeated
    name, no two variants that [build_variants] returns carry the same
    (option1, option2, option3). *)
Theorem build_variants_tuples_are_unique :
  forall (trade endc : list pyval) (sku : pyval) (w : Z)
         (colours : list string) (codes : list (string * string))
         (vs : list variant),
    NoDup colours ->
    build_variants_ trade endc sku w colours codes = Ret vs ->
    NoDup (map option_tuple vs).
Proof.
  intros trade endc sku w colours codes vs NC H. unfold build_variants in H.
  destruct (collect_unique_band_labels int_of_text set_order trade endc)
    as [labels|e] eqn:C; [|discriminate].
  cbn [rbind] in H. pose proof (collect_nodup _ _ _ C) as NL.
  destruct colours as [|c0 cs].
  - exact (proj1 (labels_block_nodup _ _ _ _ _ _ _ NL H)).
  - set (colours := c0 :: cs) in *.
    assert (forall c zs,
              (variant_sku <-? (if String.eqb (lookup_code codes c) "" then Ret sku
                                else add_text sku ("/" ++ lookup_code codes c)) ;;
               rconcat (variants_for_label trade endc variant_sku w (Some c)) labels)
              = Ret zs ->
              NoDup (map option_tuple zs) /\
              forall t, In t (map option_tuple zs) ->
                        exists l ty, t = shape (Some c) l ty) as Block.
    { intros c zs Hz.
      destruct (if String.eqb (lookup_code codes c) "" then Ret sku
                else add_text sku ("/" ++ lookup_code codes c)) as [vsku|e];
        [|discriminate].
      cbn [rbind] in Hz. exact (labels_block_nodup _ _ _ _ _ _ _ NL Hz). }
    refine (UniqueFacts.rconcat_nodup _ option_tuple colours vs NC _ _ H).
    + intros c zs _ Hz. exact (proj1 (Block c zs Hz)).
    + intros c1 c2 zs ws t _ _ Ne H1 H2 I1 I2.
      destruct (proj2 (Block c1 zs H1) t I1) as [l1 [t1 E1]].
      destruct (proj2 (Block c2 ws H2) t I2) as [l2 [t2 E2]].
      apply Ne. rewrite E1 in E2. exact (UniqueFacts.shape_colour_inj _ _ _ _ _ _ E2).
Qed.

End UniqueVariants.

Lemma build_variants_tuples_are_unique_witness :
  exists vs,
    build_variants Text.int_of_str insertion_order
      [band 1 10 (PFloat "5.0"); band 1 10 (PFloat "6.0")] [band 1 10 (PFloat "4.5")]
      (PStr "SKU") 12 ["Red"; "Blue"] [("Red", "r")] = Ret vs /\
    List.length vs = 4%nat /\
    NoDup (map option_tuple vs).
Proof.
  destruct (build_variants Text.int_of_str insertion_order
              [band 1 10 (PFloat "5.0"); band 1 10 (PFloat "6.0")]
              [band 1 10 (PFloat "4.5")]
              (PStr "SKU") 12 ["Red"; "Blue"] [("Red", "r")]) as [vs|e] eqn:H;
    [|vm_compute in H; discriminate H].
  exists vs. split; [reflexivity|]. split.
  - vm_compute in H. inversion H. reflexivity.
  - assert (NoDup ["Red"; "Blue"]) as N.
    { constructor; [simpl; intros [E|[]]; discriminate E|].
      constructor; [intros []|constructor]. }
    exact (build_variants_tuples_are_unique Text.int_of_str insertion_order
             insertion_order_ok _ _ _ _ _ _ vs N H).
Defined.

Module FieldFacts.
Import SynthFacts SynthTotal.



End FieldFacts.



Module EnrichFacts.
Import DictFacts MatchFacts.

Lemma rconcat_at_most_one {A B} (f : A -> result (list B)) : forall l ys,
  (forall x r, f x = Ret r -> (List.length r <= 1)%nat) ->
  rconcat f l = Ret ys -> (List.length ys <= List.length l)%nat.
Proof.
  induction l as [|x t IH]; intros ys Each H; simpl in H.
  - inversion H. simpl. lia.
  - destruct (f x) as [r|e] eqn:Fx; [|discriminate]. cbn [rbind] in H.
    destruct (rconcat f t) as [zs|e] eqn:Ft; [|discriminate]. cbn [rbind] in H.
    inversion H; subst. rewrite length_app. simpl.
    pose proof (Each x r Fx). pose proof (IH zs Each eq_refl). lia.
Qed.

(** An enriched band: the band's own entries, an [id] that is truthy, and
    a price, when the band has one, that is text. *)
Lemma enrich_band_shape : forall variants ctype colour b r,
  enrich_band variants ctype colour b = Ret r ->
  r = [] \/
  exists e id,
    r = [e] /\ Py.subscript e "id" = Ret id /\ Py.truthy id = true /\
    band_label e = band_label b /\
    (forall p, Py.subscript e "price" = Ret p -> exists s, p = PStr s).
Proof.
  intros variants ctype colour b r H. unfold enrich_band in H.
  destruct (band_label b) as [label|e] eqn:L; [|discriminate]. cbn [rbind] in H.
  destruct (find_match variants label ctype colour) as [[v|]|e];
    try discriminate; cbn [rbind] in H; [|left; congruence].
  destruct (Py.truthy v); [|left; congruence].
  destruct v as [| | | | | |dv]; try discriminate.
  unfold Py.get, Py.subscript in H. cbn [rbind] in H.
  destruct (Py.dict_get dv "id") as [id|] eqn:G; cbn [Py.truthy] in H;
    [|left; congruence].
  destruct (Py.truthy id) eqn:Tid; [|left; congruence].
  cbn [rbind] in H.
  destruct b as [| | | | | |d]; try discriminate.
  right.
  assert (forall d', (forall k, k <> "id" -> k <> "price" ->
                                Py.dict_get d' k = Py.dict_get d k) ->
                     band_label (PDict d') = band_label (PDict d)) as Keep.
  { intros d' K. unfold band_label, Py.subscript.
    rewrite (K "min"), (K "max") by discriminate. reflexivity. }
  destruct (Py.dict_get (Py.dict_set d "id" id) "price") as [p|] eqn:P.
  - destruct (format_price p) as [s|e]; [|discriminate]. cbn [rbind] in H.
    inversion H; subst r.
    eexists _, id. split; [reflexivity|]. split; [|split; [exact Tid|split]].
    + unfold Py.subscript. rewrite dict_get_set_other by discriminate.
      rewrite dict_get_set_same. reflexivity.
    + rewrite <- L. apply Keep. intros k N1 N2. rewrite !dict_get_set_other by assumption.
      reflexivity.
    + intros q Hq. unfold Py.subscript in Hq. rewrite dict_get_set_same in Hq.
      inversion Hq. eauto.
  - inversion H; subst r.
    eexists _, id. split; [reflexivity|]. split; [|split; [exact Tid|split]].
    + unfold Py.subscript. rewrite dict_get_set_same. reflexivity.
    + rewrite <- L. apply Keep. intros k N1 N2. rewrite dict_get_set_other by assumption.
      reflexivity.
    + intros q Hq. unfold Py.subscript in Hq. rewrite P in Hq. discriminate Hq.
Qed.

End EnrichFacts.

(** X11.  The enriched list has at most one entry per band, and every
    entry keeps its band's label, carries a truthy [id], and has its
    price, when it has one, as text. *)
Theorem enrich_bands_output_shape :
  forall (bands : list pyval) (variants : pyval) (ctype : string)
         (colour : option string) (out : list pyval),
    enrich_bands_with_variant_ids bands variants ctype colour = Ret out ->
    (List.length out <= List.length bands)%nat /\
    forall e, In e out ->
      exists b id,
        In b bands /\ band_label e = band_label b /\
        Py.subscript e "id" = Ret id /\ Py.truthy id = true /\
        (forall p, Py.subscript e "price" = Ret p -> exists s, p = PStr s).
Proof.
  intros bands variants ctype colour out H.
  unfold enrich_bands_with_variant_ids in H. split.
  - apply (EnrichFacts.rconcat_at_most_one _ _ _) with (2 := H).
    intros b r Hr.
    destruct (EnrichFacts.enrich_band_shape _ _ _ _ _ Hr) as [->|[e [id [-> _]]]];
      simpl; lia.
  - intros e Ie. apply (SynthFacts.rconcat_ret _ _ _ H) in Ie.
    destruct Ie as [b [r [Ib [Hr Ie]]]].
    destruct (EnrichFacts.enrich_band_shape _ _ _ _ _ Hr)
      as [->|[e' [id [-> [S [T [L P]]]]]]]; [contradiction|].
    destruct Ie as [<-|[]]. exists b, id. auto.
Qed.

Lemma enrich_bands_output_shape_witness :
  exists out,
    enrich_bands_with_variant_ids
      [band 1 10 (PFloat "5.0"); band 11 20 (PFloat "4.0")]
      (PList [confirmed 41 [("option1", "1-10"); ("option2", "Trade")]])
      "Trade" None = Ret out /\
    (List.length out <= 2)%nat.
Proof.
  eexists. split; [vm_compute; reflexivity|].
  exact (proj1 (enrich_bands_output_shape
                  [band 1 10 (PFloat "5.0"); band 11 20 (PFloat "4.0")]
                  (PList [confirmed 41 [("option1", "1-10"); ("option2", "Trade")]])
                  "Trade" None _ eq_refl)).
Defined.

Module RequestFacts.

Lemma retries_app : forall rq n evs,
  [Sent rq; Slept 2000] ++ retries rq n ++ evs = retries rq (S n) ++ evs.
Proof. reflexivity. Qed.

(** Every run of [safe_request] logs some rounds of the same request
    followed by a sleep, then the request once more. *)
Lemma safe_request_from_trace : forall rq pending done,
  exists n,
    trace (snd (safe_request_from rq pending done))
    = done ++ retries rq n ++ [Sent rq] /\
    (n < S (List.length pending))%nat.
Proof.
  intros rq. induction pending as [|[r|] rest IH]; intro done; simpl.
  - exists O. split; [reflexivity|lia].
  - destruct (status_code r =? 429).
    + destruct (IH (done ++ [Sent rq; Slept 2000])) as [n [E B]].
      exists (S n). split; [|lia]. rewrite E, <- app_assoc. reflexivity.
    + exists O. split; [reflexivity|lia].
  - exists O. split; [reflexivity|lia].
Qed.

Lemma safe_request_from_status : forall rq pending done r w',
  safe_request_from rq pending done = (Ret r, w') ->
  status_code r <> 429 /\ ~ (400 <= status_code r < 600).
Proof.
  intros rq. induction pending as [|[x|] rest IH]; intros done r w' H; simpl in H.
  - discriminate H.
  - destruct (status_code x =? 429) eqn:E.
    + eapply IH. exact H.
    + unfold raise_for_status in H.
      destruct ((400 <=? status_code x) && (status_code x <? 600)) eqn:B;
        [discriminate H|].
      cbn [rbind] in H. inversion H; subst. apply Z.eqb_neq in E.
      split; [exact E|]. intros [A1 A2].
      apply andb_false_iff in B. destruct B as [B|B];
        [apply Z.leb_gt in B|apply Z.ltb_ge in B]; lia.
  - discriminate H.
Qed.

End RequestFacts.

(** X2.  [safe_request] never hands back a rate-limited or failed
    response: a response it returns has a status other than 429 and
    outside 400..599, and on the way it sent nothing but the same request,
    each earlier sending followed by a two-second sleep. *)
Theorem safe_request_returns_only_good_status :
  forall (rq : request) (w w' : world) (r : response),
    safe_request rq w = (Ret r, w') ->
    status_code r <> 429 /\ ~ (400 <= status_code r < 600) /\
    exists n, trace w' = trace w ++ retries rq n ++ [Sent rq].
Proof.
  intros rq w w' r H. unfold safe_request in H.
  destruct (RequestFacts.safe_request_from_status _ _ _ _ _ H) as [S1 S2].
  split; [exact S1|]. split; [exact S2|].
  destruct (RequestFacts.safe_request_from_trace rq (replies w) (trace w)) as [n [E _]].
  rewrite H in E. exists n. exact E.
Qed.

Lemma safe_request_returns_only_good_status_witness :
  exists r w',
    safe_request (get_request ProductsPage)
                 (fresh [answer 429 PNone; answer 201 (PDict [])]) = (Ret r, w') /\
    status_code r <> 429 /\
    trace w' = [Sent (get_request ProductsPage); Slept 2000;
                Sent (get_request ProductsPage)].
Proof.
  eexists. eexists. split; [reflexivity|]. split.
  - exact (proj1 (safe_request_returns_only_good_status
                    (get_request ProductsPage)
                    (fresh [answer 429 PNone; answer 201 (PDict [])]) _ _ eq_refl)).
  - reflexivity.
Defined.

Lemma safe_request_retries_on_429_witness :
  safe_request (get_request ProductsPage)
    {| replies := [answer 429 PNone; answer 429 PNone; answer 200 (PDict []);
                   answer 200 PNone];
       trace := [] |}
  = (Ret (page (PDict []) None),
     {| replies := [answer 200 PNone];
        trace := [Sent (get_request ProductsPage); Slept 2000;
                  Sent (get_request ProductsPage); Slept 2000;
                  Sent (get_request ProductsPage)] |}).
Proof.
  assert (Forall (fun x => status_code x = 429)
                 [{| status_code := 429; json := Ret PNone; link_next := None |};
                  {| status_code := 429; json := Ret PNone; link_next := None |}])
    as L by (repeat constructor).
  assert (status_code (page (PDict []) None) <> 429) as G by (simpl; lia).
  exact (safe_request_retries_on_429 (get_request ProductsPage) _ _
           [answer 200 PNone] [] L G).
Defined.

Module PageFacts.

Lemma page_not_limited : forall data next rq rest done,
  safe_request_from rq (Reply (page data next) :: rest) done
  = (Ret (page data next), {| replies := rest; trace := done ++ [Sent rq] |}).
Proof. reflexivity. Qed.

Lemma follows_links : forall (pages : list (pyval * string)) last url rest tr fuel,
  Forall (fun p => snd p <> "") pages ->
  (List.length pages < fuel)%nat ->
  get_paginated_fuel fuel url
    {| replies := map (fun p => Reply (page (fst p) (Some (snd p)))) pages
                  ++ Reply (page last None) :: rest;
       trace := tr |}
  = (Ret (map fst pages ++ [last]),
     {| replies := rest; trace := tr ++ page_requests url (map snd pages) |}).
Proof.
  induction pages as [|[data next] pages IH]; intros last url rest tr fuel H L;
    (destruct fuel as [|fuel]; [simpl in L; lia|]).
  - reflexivity.
  - inversion H as [|? ? Hn Hp]; subst. simpl in Hn.
    cbn [get_paginated_fuel map app fst snd].
    unfold bind at 1. unfold safe_request at 1.
    cbn [replies trace]. rewrite page_not_limited.
    unfold bind at 1. unfold lift at 1. cbn [json page link_next fst snd].
    destruct (String.eqb next "") eqn:E; [apply String.eqb_eq in E; contradiction|].
    unfold bind at 1.
    rewrite (IH last (NextPage next) rest (tr ++ [Sent (get_request url)]) fuel Hp)
      by (simpl in L; lia).
    unfold ret. cbn [fst snd map]. f_equal. f_equal.
    unfold page_requests. cbn [map]. rewrite <- app_assoc. reflexivity.
Qed.

End PageFacts.

(** X3.  [_get_paginated] follows the next links to the end: for pages
    that each name a next URL and a last page that names none, it returns
    the bodies of all the pages in order, has requested the first URL and
    then each next URL once, and leaves the later replies unread. *)
Theorem get_paginated_follows_links :
  forall (pages : list (pyval * string)) (last : pyval) (url : endpoint)
         (rest : list reply) (tr : list event),
    Forall (fun p => snd p <> "") pages ->
    _get_paginated url
      {| replies := map (fun p => Reply (page (fst p) (Some (snd p)))) pages
                    ++ Reply (page last None) :: rest;
         trace := tr |}
    = (Ret (map fst pages ++ [last]),
       {| replies := rest;
          trace := tr ++ page_requests url (map snd pages) |}).
Proof.
  intros pages last url rest tr H. unfold _get_paginated.
  apply PageFacts.follows_links; [exact H|].
  cbn [replies]. rewrite length_app, length_map. simpl. lia.
Qed.

Lemma get_paginated_follows_links_witness :
  _get_paginated ProductsPage
    (fresh [Reply (page (PInt 1) (Some "https://shop/next1"));
            Reply (page (PInt 2) (Some "https://shop/next2"));
            Reply (page (PInt 3) None); answer 200 PNone])
  = (Ret [PInt 1; PInt 2; PInt 3],
     {| replies := [answer 200 PNone];
        trace := [Sent (get_request ProductsPage);
                  Sent (get_request (NextPage "https://shop/next1"));
                  Sent (get_request (NextPage "https://shop/next2"))] |}).
Proof.
  assert (Forall (fun p : pyval * string => snd p <> "")
                 [(PInt 1, "https://shop/next1"); (PInt 2, "https://shop/next2")]) as H
    by (repeat constructor; discriminate).
  exact (get_paginated_follows_links _ (PInt 3) ProductsPage [answer 200 PNone] [] H).
Defined.

Module SelectFacts.

Lemma is_text_true : forall v s, is_text v s = true -> v = PStr s.
Proof.
  intros v s H. destruct v; simpl in H; try discriminate.
  apply String.eqb_eq in H. congruence.
Qed.

Lemma is_text_false : forall v s, is_text v s = false -> v <> PStr s.
Proof.
  intros v s H E. subst. simpl in H. rewrite String.eqb_refl in H. discriminate.
Qed.

Lemma existsb_in : forall key keys,
  existsb (String.eqb key) keys = true <-> In key keys.
Proof.
  intros key keys. rewrite existsb_exists. split.
  - intros [x [I E]]. apply String.eqb_eq in E. subst. exact I.
  - intros I. exists key. split; [exact I|apply String.eqb_refl].
Qed.

(** One round of the loop of [get_metafields_by_keys]. *)
Lemma select_step : forall keys mf rest acc res,
  select_metafields keys (mf :: rest) acc = Ret res ->
  exists d acc',
    mf = PDict d /\ select_metafields keys rest acc' = Ret res /\
    ((acc' = acc /\ forall key, In key keys -> unkept key mf) \/
     (exists k e, In k keys /\ kept_metafield mf k e /\ acc' = Py.dict_set acc k e)).
Proof.
  intros keys mf rest acc res H. cbn [select_metafields] in H.
  destruct mf as [| | | | | |d]; try discriminate H.
  exists d. cbn [Py.get rbind] in H.
  set (ns := match Py.dict_get d "namespace" with Some x => x | None => PNone end) in *.
  set (k := match Py.dict_get d "key" with Some x => x | None => PNone end) in *.
  set (id := match Py.dict_get d "id" with Some x => x | None => PNone end) in *.
  set (value := match Py.dict_get d "value" with Some x => x | None => PNone end) in *.
  destruct (is_text ns "custom") eqn:N.
  - destruct k as [| | | |key| | ] eqn:K;
      try (exists acc; split; [reflexivity|]; split; [exact H|]; left;
           split; [reflexivity|]; intros key0 _ e [i [v [_ [A _]]]];
           cbn [Py.get] in A; fold k in A; rewrite K in A; discriminate A).
    destruct (existsb (String.eqb key) keys) eqn:E.
    + exists (Py.dict_set acc key (PDict [("id", id); ("value", value)])).
      split; [reflexivity|]. split; [exact H|]. right.
      exists key, (PDict [("id", id); ("value", value)]).
      split; [apply existsb_in; exact E|]. split; [|reflexivity].
      exists id, value. cbn [Py.get]. fold ns k id value.
      apply is_text_true in N. rewrite N, K. repeat split.
    + exists acc. split; [reflexivity|]. split; [exact H|]. left.
      split; [reflexivity|]. intros key0 I e [i [v [_ [A _]]]].
      cbn [Py.get] in A. fold k in A. rewrite K in A. inversion A; subst.
      apply existsb_in in I. congruence.
  - exists acc. split; [reflexivity|]. split; [exact H|]. left.
    split; [reflexivity|]. intros key0 _ e [i [v [A _]]].
    cbn [Py.get] in A. fold ns in A. apply is_text_false in N.
    inversion A. contradiction.
Qed.

Lemma kept_key_unique : forall mf k1 k2 e1 e2,
  kept_metafield mf k1 e1 -> kept_metafield mf k2 e2 -> k1 = k2 /\ e1 = e2.
Proof.
  intros mf k1 k2 e1 e2 [i1 [v1 [_ [A1 [B1 [C1 D1]]]]]] [i2 [v2 [_ [A2 [B2 [C2 D2]]]]]].
  rewrite A1 in A2. rewrite B1 in B2. rewrite C1 in C2.
  inversion A2; inversion B2; inversion C2; subst. split; reflexivity.
Qed.

(** Where an entry of the result comes from. *)
Lemma select_sound : forall keys mfs acc res,
  select_metafields keys mfs acc = Ret res ->
  forall key entry, Py.dict_get res key = Some entry ->
    (Py.dict_get acc key = Some entry /\ (In key keys -> Forall (unkept key) mfs)) \/
    (In key keys /\
     exists pre mf post, mfs = pre ++ mf :: post /\ kept_metafield mf key entry /\
                         Forall (unkept key) post).
Proof.
  intros keys. induction mfs as [|mf rest IH]; intros acc res H key entry G.
  - simpl in H. inversion H; subst. left. split; [exact G|]. intros _. constructor.
  - destruct (select_step _ _ _ _ _ H) as [d [acc' [Emf [Hrest Hacc]]]].
    destruct (IH acc' res Hrest key entry G) as [[Ga Un]|[I [pre [m [post [E [K Un]]]]]]].
    + destruct Hacc as [[Eacc U]|[k [e [Ik [Kk Eacc]]]]].
      * subst acc'. left. split; [exact Ga|]. intros I. constructor; auto.
      * subst acc'. destruct (string_dec k key) as [Ek|Nk].
        -- subst k. rewrite DictFacts.dict_get_set_same in Ga. inversion Ga; subst e.
           right. split; [exact Ik|]. exists [], mf, rest.
           split; [reflexivity|]. split; [exact Kk|]. apply Un. exact Ik.
        -- rewrite DictFacts.dict_get_set_other in Ga by congruence.
           left. split; [exact Ga|]. intros I. constructor; [|apply Un; exact I].
           intros e' K'. destruct (kept_key_unique _ _ _ _ _ Kk K'). contradiction.
    + right. split; [exact I|]. exists (mf :: pre), m, post.
      split; [rewrite E; reflexivity|]. split; assumption.
Qed.

Lemma has_key_set : forall d k v k',
  Py.has_key d k' = true -> Py.has_key (Py.dict_set d k v) k' = true.
Proof.
  intros d k v k' H. unfold Py.has_key in *. destruct (string_dec k' k) as [E|N].
  - subst. rewrite DictFacts.dict_get_set_same. reflexivity.
  - rewrite DictFacts.dict_get_set_other by exact N. exact H.
Qed.

(** A key once held is held to the end. *)
Lemma select_keeps : forall keys mfs acc res key,
  select_metafields keys mfs acc = Ret res ->
  Py.has_key acc key = true -> Py.has_key res key = true.
Proof.
  intros keys. induction mfs as [|mf rest IH]; intros acc res key H G.
  - simpl in H. inversion H; subst. exact G.
  - destruct (select_step _ _ _ _ _ H) as [d [acc' [_ [Hrest Hacc]]]].
    apply (IH acc' res key Hrest).
    destruct Hacc as [[E _]|[k [e [_ [_ E]]]]]; subst acc'; [exact G|].
    apply has_key_set. exact G.
Qed.

Lemma select_complete : forall keys mfs acc res key mf e,
  select_metafields keys mfs acc = Ret res ->
  In key keys -> In mf mfs -> kept_metafield mf key e ->
  Py.has_key res key = true.
Proof.
  intros keys. induction mfs as [|m rest IH]; intros acc res key mf e H I Imf K.
  - destruct Imf.
  - destruct (select_step _ _ _ _ _ H) as [d [acc' [_ [Hrest Hacc]]]].
    destruct Imf as [Em|Imf].
    + subst m. apply (select_keeps _ _ _ _ _ Hrest).
      destruct Hacc as [[_ U]|[k [e' [_ [K' E]]]]].
      * exfalso. exact (U key I e K).
      * destruct (kept_key_unique _ _ _ _ _ K K'). subst.
        unfold Py.has_key. rewrite DictFacts.dict_get_set_same. reflexivity.
    + exact (IH acc' res key mf e Hrest I Imf K).
Qed.

End SelectFacts.

(** X4.  What [get_metafields_by_keys] returns is built from the
    metafields [get_all_metafields] fetched, and nothing else is sent:
    every entry of the result stands under a requested key and holds the id
    and the value of the last fetched metafield of namespace custom that
    has this key; and every requested key that some fetched custom
    metafield has is in the result. *)
Theorem get_metafields_by_keys_selects :
  forall (product_id : pyval) (keys : list string) (w w' : world)
         (res : list (string * pyval)),
    get_metafields_by_keys product_id keys w = (Ret res, w') ->
    exists metafields,
      get_all_metafields product_id w = (Ret metafields, w') /\
      (forall key entry, Py.dict_get res key = Some entry ->
         In key keys /\
         exists pre mf post,
           metafields = pre ++ mf :: post /\ kept_metafield mf key entry /\
           Forall (unkept key) post) /\
      (forall key mf e, In key keys -> In mf metafields -> kept_metafield mf key e ->
         Py.has_key res key = true).
Proof.
  intros product_id keys w w' res H. unfold get_metafields_by_keys, bind in H.
  destruct (get_all_metafields product_id w) as [[mfs|e] w1] eqn:G; [|discriminate H].
  unfold lift in H.
  destruct (select_metafields keys mfs []) as [r|e] eqn:S; inversion H; subst.
  exists mfs. split; [reflexivity|]. split.
  - intros key entry D.
    destruct (SelectFacts.select_sound _ _ _ _ S key entry D) as [[A _]|B].
    + discriminate A.
    + exact B.
  - intros key mf e I Imf K. exact (SelectFacts.select_complete _ _ _ _ _ _ _ S I Imf K).
Qed.

Lemma get_metafields_by_keys_selects_witness :
  exists res w',
    get_metafields_by_keys (PInt 7) keys_to_fetch
      (fresh [Reply (page (PDict [("metafields",
                PList [PDict [("namespace", PStr "custom"); ("key", PStr "sku");
                              ("id", PInt 1); ("value", PStr "A")];
                       PDict [("namespace", PStr "global"); ("key", PStr "sku");
                              ("id", PInt 2); ("value", PStr "B")];
                       PDict [("namespace", PStr "custom"); ("key", PStr "other");
                              ("id", PInt 3); ("value", PStr "C")];
                       PDict [("namespace", PStr "custom"); ("key", PStr "sku");
                              ("id", PInt 4); ("value", PStr "D")]])]) None)])
    = (Ret res, w') /\
    Py.dict_get res "sku" = Some (PDict [("id", PInt 4); ("value", PStr "D")]) /\
    exists metafields,
      get_all_metafields (PInt 7)
        (fresh [Reply (page (PDict [("metafields",
                PList [PDict [("namespace", PStr "custom"); ("key", PStr "sku");
                              ("id", PInt 1); ("value", PStr "A")];
                       PDict [("namespace", PStr "global"); ("key", PStr "sku");
                              ("id", PInt 2); ("value", PStr "B")];
                       PDict [("namespace", PStr "custom"); ("key", PStr "other");
                              ("id", PInt 3); ("value", PStr "C")];
                       PDict [("namespace", PStr "custom"); ("key", PStr "sku");
                              ("id", PInt 4); ("value", PStr "D")]])]) None)])
      = (Ret metafields, w') /\
      (forall key entry, Py.dict_get res key = Some entry ->
         In key keys_to_fetch /\
         exists pre mf post,
           metafields = pre ++ mf :: post /\ kept_metafield mf key entry /\
           Forall (unkept key) post) /\
      (forall key mf e, In key keys_to_fetch -> In mf metafields ->
         kept_metafield mf key e -> Py.has_key res key = true).
Proof.
  eexists. eexists. split; [vm_compute; reflexivity|]. split; [reflexivity|].
  eapply get_metafields_by_keys_selects. vm_compute. reflexivity.
Defined.

(** ** The variant update *)


Module OptionFacts.

Lemma string_leb_total : forall a b, String.leb a b = true \/ String.leb b a = true.
Proof.
  intros a b. unfold String.leb. rewrite (String.compare_antisym b a).
  destruct (String.compare a b); simpl; auto.
Qed.

(** [sorted(list(set))] of texts: strictly ascending, same members. *)
Lemma sorted_set : forall l,
  StronglySorted (fun a b => String.ltb a b = true)
                 (sort_by String.leb (nodup string_dec l)) /\
  forall s, In s (sort_by String.leb (nodup string_dec l)) <-> In s l.
Proof.
  intro l. split.
  - apply SortFacts.sorted_impl
      with (R := fun a b => String.leb a b = true /\ a <> b).
    + intros a b _ _ [L N]. apply SortFacts.string_leb_neq_ltb; assumption.
    + apply SortFacts.sorted_nodup_strict.
      * apply SortFacts.sort_by_sorted;
          [apply string_leb_total|apply SortFacts.string_leb_trans].
      * apply (Permutation_NoDup
                 (Permutation_sym (SortFacts.sort_by_perm String.leb _))).
        apply NoDup_nodup.
  - intro s. rewrite <- (nodup_In string_dec l s). split; intro H.
    + exact (Permutation_in _ (SortFacts.sort_by_perm String.leb _) H).
    + exact (Permutation_in _ (Permutation_sym (SortFacts.sort_by_perm String.leb _)) H).
Qed.

Lemma used_values : forall (read : variant -> string) variants s,
  In s (map read (filter (fun v => negb (String.eqb (option1 v) "")) variants))
  <-> exists v, In v variants /\ option1 v <> "" /\ read v = s.
Proof.
  intros read variants s. rewrite in_map_iff. split.
  - intros [v [E I]]. apply filter_In in I. destruct I as [I N].
    exists v. split; [exact I|]. split; [|exact E].
    intro Z. rewrite Z in N. discriminate N.
  - intros [v [I [N E]]]. exists v. split; [exact E|]. apply filter_In.
    split; [exact I|]. destruct (String.eqb (option1 v) "") eqn:Q; [|reflexivity].
    apply String.eqb_eq in Q. contradiction.
Qed.

End OptionFacts.

(** X13.  The option values [update_product_variants] sends: the options
    are Colour, Quantity and Customer Type in colour mode and Quantity and
    Customer Type otherwise; the values of each are in strictly ascending
    order, so without repeats, and are exactly the values that option takes
    on the variants with a non-empty first option. *)
Theorem option_values_are_sorted_sets :
  forall (colour_mode : bool) (variants : list variant),
    map fst (option_values colour_mode variants)
    = (if colour_mode then ["Colour"; "Quantity"; "Customer Type"]
       else ["Quantity"; "Customer Type"]) /\
    forall name vals,
      In (name, vals) (option_values colour_mode variants) ->
      exists read,
        option_reader colour_mode name = Some read /\
        StronglySorted (fun a b => String.ltb a b = true) vals /\
        forall s, In s vals <->
                  exists v, In v variants /\ option1 v <> "" /\ read v = s.
Proof.
  intros colour_mode variants. split; [destruct colour_mode; reflexivity|].
  intros name vals H. unfold option_values in H.
  destruct colour_mode; cbn [In] in H;
    repeat match goal with
           | H : _ \/ _ |- _ => destruct H as [H|H]
           | H : False |- _ => destruct H
           end;
    inversion H; subst; clear H;
    (eexists; split; [reflexivity|]; split;
     [apply OptionFacts.sorted_set|];
     intro s; rewrite (proj2 (OptionFacts.sorted_set _));
     apply OptionFacts.used_values).
Qed.

Lemma option_values_are_sorted_sets_witness :
  In ("Quantity", ["1-10"; "11+"])
     (option_values false [variant_of_options "11+" "Trade" None;
                           variant_of_options "1-10" "End" None;
                           variant_of_options "" "Lost" None;
                           variant_of_options "11+" "End" None]) /\
  exists read,
    option_reader false "Quantity" = Some read /\
    StronglySorted (fun a b => String.ltb a b = true) ["1-10"; "11+"] /\
    forall s, In s ["1-10"; "11+"] <->
              exists v, In v [variant_of_options "11+" "Trade" None;
                              variant_of_options "1-10" "End" None;
                              variant_of_options "" "Lost" None;
                              variant_of_options "11+" "End" None] /\
                        option1 v <> "" /\ read v = s.
Proof.
  assert (In ("Quantity", ["1-10"; "11+"])
             (option_values false [variant_of_options "11+" "Trade" None;
                                   variant_of_options "1-10" "End" None;
                                   variant_of_options "" "Lost" None;
                                   variant_of_options "11+" "End" None])) as I
    by (vm_compute; left; reflexivity).
  split; [exact I|].
  exact (proj2 (option_values_are_sorted_sets false _) "Quantity" ["1-10"; "11+"] I).
Defined.

(** ** Metafield writes *)

Module WriteFacts.

Section Writers.
Variable json_dumps : pyval -> string.

Lemma update_metafield_runs : forall id value w,
  snd (update_metafield json_dumps id value w)
  = snd (safe_request (update_request json_dumps id value) w) /\
  forall r w', safe_request (update_request json_dumps id value) w = (Ret r, w') ->
               exists b, update_metafield json_dumps id value w = (Ret b, w').
Proof.
  intros id value w. unfold update_metafield, bind. fold (update_request json_dumps id value).
  destruct (safe_request (update_request json_dumps id value) w) as [[r|e] w1].
  - split; [reflexivity|]. intros r' w' H. inversion H; subst. eexists. reflexivity.
  - split; [reflexivity|]. intros r' w' H. discriminate H.
Qed.

Lemma create_metafield_runs : forall pid key value w,
  snd (create_metafield json_dumps pid key value w)
  = snd (safe_request (create_request json_dumps pid key value) w) /\
  forall r w', safe_request (create_request json_dumps pid key value) w = (Ret r, w') ->
               status_code r <> 201 ->
               create_metafield json_dumps pid key value w = (Ret PNone, w').
Proof.
  intros pid key value w. unfold create_metafield, bind.
  fold (create_request json_dumps pid key value).
  destruct (safe_request (create_request json_dumps pid key value) w) as [[r|e] w1].
  - split.
    + destruct (status_code r =? 201); reflexivity.
    + intros r' w' H N. inversion H; subst. apply Z.eqb_neq in N. rewrite N. reflexivity.
  - split; [reflexivity|]. intros r' w' H. discriminate H.
Qed.

Lemma then_unit_world : forall {A} (m : M A) w,
  snd ((m ;;; ret tt) w) = snd (m w).
Proof. intros A m w. unfold bind. destruct (m w) as [[a|e] w1]; reflexivity. Qed.

Lemma then_unit_value : forall {A} (m : M A) w a w',
  m w = (Ret a, w') -> (m ;;; ret tt) w = (Ret tt, w').
Proof. intros A m w a w' H. unfold bind. rewrite H. reflexivity. Qed.

End Writers.

End WriteFacts.

(** X14.  [set_or_update_metafield] makes one request through
    [safe_request]: the update of the fetched metafield when the fetched
    entry of the key has a truthy id, the creation of the metafield
    otherwise.  Nothing else is sent but the retries of that request.  A
    response that is not the success status is not an error to it: when
    the request comes back with a status other than 201, it returns
    normally. *)
Theorem set_or_update_metafield_sends_one_request :
  forall (json_dumps : pyval -> string) (metafields : list (string * pyval))
         (product_id : pyval) (key : string) (value : pyval) (w : world),
    (forall mf, Py.dict_get metafields key = Some mf -> exists d, mf = PDict d) ->
    let rq := metafield_request json_dumps metafields product_id key value in
    (exists n,
       trace (snd (set_or_update_metafield json_dumps metafields product_id key value w))
       = trace w ++ retries rq n ++ [Sent rq] /\
       (n <= List.length (replies w))%nat) /\
    (forall r w', safe_request rq w = (Ret r, w') -> status_code r <> 201 ->
       set_or_update_metafield json_dumps metafields product_id key value w
       = (Ret tt, w')).
Proof.
  intros json_dumps metafields pid key value w Hmap rq.
  assert (forall rq0, exists n,
             trace (snd (safe_request rq0 w)) = trace w ++ retries rq0 n ++ [Sent rq0] /\
             (n <= List.length (replies w))%nat) as T.
  { intro rq0. unfold safe_request.
    destruct (RequestFacts.safe_request_from_trace rq0 (replies w) (trace w))
      as [n [E B]].
    exists n. split; [exact E|lia]. }
  assert (forall (m : M unit) rq0,
             (exists A (m0 : M A),
                m = (m0 ;;; ret tt) /\
                snd (m0 w) = snd (safe_request rq0 w) /\
                forall r w', safe_request rq0 w = (Ret r, w') -> status_code r <> 201 ->
                             exists a, m0 w = (Ret a, w')) ->
             (exists n, trace (snd (m w)) = trace w ++ retries rq0 n ++ [Sent rq0] /\
                        (n <= List.length (replies w))%nat) /\
             (forall r w', safe_request rq0 w = (Ret r, w') -> status_code r <> 201 ->
                           m w = (Ret tt, w'))) as Step.
  { intros m rq0 [A [m0 [-> [W V]]]]. split.
    - rewrite WriteFacts.then_unit_world, W. apply T.
    - intros r w' H N. destruct (V r w' H N) as [a Ha].
      exact (WriteFacts.then_unit_value _ _ _ _ Ha). }
  assert (forall id, exists A (m0 : M A),
             (update_metafield json_dumps id value ;;; ret tt) = (m0 ;;; ret tt) /\
             snd (m0 w) = snd (safe_request (update_request json_dumps id value) w) /\
             forall r w', safe_request (update_request json_dumps id value) w = (Ret r, w') ->
                          status_code r <> 201 -> exists a, m0 w = (Ret a, w')) as U.
  { intro id. exists bool, (update_metafield json_dumps id value).
    split; [reflexivity|].
    split; [apply WriteFacts.update_metafield_runs|].
    intros r w' H _.
    exact (proj2 (WriteFacts.update_metafield_runs json_dumps id value w) r w' H). }
  assert (exists A (m0 : M A),
             (create_metafield json_dumps pid key value ;;; ret tt) = (m0 ;;; ret tt) /\
             snd (m0 w) = snd (safe_request (create_request json_dumps pid key value) w) /\
             forall r w',
               safe_request (create_request json_dumps pid key value) w = (Ret r, w') ->
               status_code r <> 201 -> exists a, m0 w = (Ret a, w')) as C.
  { exists pyval, (create_metafield json_dumps pid key value).
    split; [reflexivity|].
    split; [apply WriteFacts.create_metafield_runs|].
    intros r w' H N. exists PNone.
    exact (proj2 (WriteFacts.create_metafield_runs json_dumps pid key value w) r w' H N). }
  subst rq. unfold metafield_request.
  unfold set_or_update_metafield.
  destruct (Py.dict_get metafields key) as [mf|] eqn:G.
  - destruct (Hmap mf eq_refl) as [d ->].
    destruct (Py.dict_get d "id") as [id|] eqn:I.
    + destruct (Py.truthy id) eqn:Tr.
      * destruct (Step _ _ (U id)) as [S1 S2].
        assert ((id0 <- lift (Py.get (PDict d) "id" PNone) ;;
                 (if Py.truthy id0
                  then id' <- lift (Py.subscript (PDict d) "id") ;;
                       update_metafield json_dumps id' value ;;; ret tt
                  else create_metafield json_dumps pid key value ;;; ret tt)) w
                = (update_metafield json_dumps id value ;;; ret tt) w) as E.
        { unfold bind at 1. unfold lift at 1. cbn [Py.get]. rewrite I, Tr.
          unfold bind at 1. unfold lift at 1. cbn [Py.subscript]. rewrite I.
          reflexivity. }
        rewrite E. split; assumption.
      * destruct (Step _ _ C) as [S1 S2].
        assert ((id0 <- lift (Py.get (PDict d) "id" PNone) ;;
                 (if Py.truthy id0
                  then id' <- lift (Py.subscript (PDict d) "id") ;;
                       update_metafield json_dumps id' value ;;; ret tt
                  else create_metafield json_dumps pid key value ;;; ret tt)) w
                = (create_metafield json_dumps pid key value ;;; ret tt) w) as E.
        { unfold bind at 1. unfold lift at 1. cbn [Py.get]. rewrite I, Tr.
          reflexivity. }
        rewrite E. split; assumption.
    + destruct (Step _ _ C) as [S1 S2].
      assert ((id0 <- lift (Py.get (PDict d) "id" PNone) ;;
               (if Py.truthy id0
                then id' <- lift (Py.subscript (PDict d) "id") ;;
                     update_metafield json_dumps id' value ;;; ret tt
                else create_metafield json_dumps pid key value ;;; ret tt)) w
              = (create_metafield json_dumps pid key value ;;; ret tt) w) as E.
      { unfold bind at 1. unfold lift at 1. cbn [Py.get]. rewrite I.
        reflexivity. }
      rewrite E. split; assumption.
  - destruct (Step _ _ C) as [S1 S2]. split; assumption.
Qed.

Lemma set_or_update_metafield_sends_one_request_witness :
  let metafields := [("pricejsontid", PDict [("id", PInt 55); ("value", PStr "[]")])] in
  let w := fresh [answer 429 PNone; answer 204 PNone] in
  metafield_request example_dumps metafields (PInt 7) "pricejsontid" (PList [])
  = update_request example_dumps (PInt 55) (PList []) /\
  set_or_update_metafield example_dumps metafields (PInt 7) "pricejsontid" (PList []) w
  = (Ret tt,
     {| replies := [];
        trace := [Sent (update_request example_dumps (PInt 55) (PList [])); Slept 2000;
                  Sent (update_request example_dumps (PInt 55) (PList []))] |}).
Proof.
  intros metafields w. split; [reflexivity|].
  assert (forall mf, Py.dict_get metafields "pricejsontid" = Some mf ->
                     exists d, mf = PDict d) as Hmap.
  { intros mf H. vm_compute in H. inversion H. eexists. reflexivity. }
  refine (proj2 (set_or_update_metafield_sends_one_request
                   example_dumps metafields (PInt 7) "pricejsontid" (PList []) w Hmap)
                {| status_code := 204; json := Ret PNone; link_next := None |} _ _ _).
  - reflexivity.
  - simpl. lia.
Defined.

(** ** Runs of [process_product] *)

Module ConfinedFacts.

Section Confined.
Variable allowed : event -> bool.

Lemma confined_ret {A} (a : A) : confined allowed (ret a).
Proof. intro w. exists []. rewrite app_nil_r. split; reflexivity. Qed.

Lemma confined_raise {A} (e : exn) : confined allowed (@raise A e).
Proof. intro w. exists []. rewrite app_nil_r. split; reflexivity. Qed.

Lemma confined_lift {A} (r : result A) : confined allowed (lift r).
Proof. intro w. exists []. rewrite app_nil_r. split; reflexivity. Qed.

Lemma confined_bind {A B} (m : M A) (k : A -> M B) :
  confined allowed m -> (forall a, confined allowed (k a)) ->
  confined allowed (bind m k).
Proof.
  intros Hm Hk w. unfold bind. destruct (Hm w) as [e1 [E1 F1]].
  destruct (m w) as [[a|e] w1]; simpl in *.
  - destruct (Hk a w1) as [e2 [E2 F2]]. exists (e1 ++ e2). split.
    + rewrite E2, E1, app_assoc. reflexivity.
    + rewrite forallb_app, F1, F2. reflexivity.
  - exists e1. split; assumption.
Qed.

Lemma confined_try_catch {A} (m : M A) (h : exn -> M A) :
  confined allowed m -> (forall e, confined allowed (h e)) ->
  confined allowed (try_catch m h).
Proof.
  intros Hm Hh w. unfold try_catch. destruct (Hm w) as [e1 [E1 F1]].
  destruct (m w) as [[a|e] w1]; simpl in *.
  - exists e1. split; assumption.
  - destruct (Hh e w1) as [e2 [E2 F2]]. exists (e1 ++ e2). split.
    + rewrite E2, E1, app_assoc. reflexivity.
    + rewrite forallb_app, F1, F2. reflexivity.
Qed.

Lemma confined_sleep : forall ms,
  allowed (Slept ms) = true -> confined allowed (sleep ms).
Proof.
  intros ms H w. exists [Slept ms]. split; [reflexivity|]. simpl. rewrite H. reflexivity.
Qed.

Lemma confined_requests_request : forall rq,
  allowed (Sent rq) = true -> confined allowed (requests_request rq).
Proof.
  intros rq H w. unfold requests_request.
  destruct (replies w) as [|[r|] rest]; simpl; exists [Sent rq];
    (split; [reflexivity|simpl; rewrite H; reflexivity]).
Qed.

Lemma retries_allowed : forall rq n,
  allowed (Sent rq) = true -> allowed (Slept 2000) = true ->
  forallb allowed (retries rq n ++ [Sent rq]) = true.
Proof.
  intros rq n H1 H2. induction n as [|n IH]; simpl.
  - rewrite H1. reflexivity.
  - rewrite H1, H2. exact IH.
Qed.

Lemma confined_safe_request : forall rq,
  allowed (Sent rq) = true -> allowed (Slept 2000) = true ->
  confined allowed (safe_request rq).
Proof.
  intros rq H1 H2 w. unfold safe_request.
  destruct (RequestFacts.safe_request_from_trace rq (replies w) (trace w)) as [n [E _]].
  exists (retries rq n ++ [Sent rq]). split; [exact E|].
  apply retries_allowed; assumption.
Qed.

Lemma confined_get_paginated_fuel : forall fuel url,
  (forall u, allowed (Sent (get_request u)) = true) ->
  allowed (Slept 2000) = true ->
  confined allowed (get_paginated_fuel fuel url).
Proof.
  intros fuel url H1 H2. revert url.
  induction fuel as [|f IH]; intro url; simpl.
  - apply confined_raise.
  - apply confined_bind; [apply confined_safe_request; [apply H1|exact H2]|].
    intro resp. apply confined_bind; [apply confined_lift|]. intro data.
    destruct (link_next resp) as [u|]; [|apply confined_ret].
    destruct (String.eqb u ""); [apply confined_ret|].
    apply confined_bind; [apply IH|]. intro rest. apply confined_ret.
Qed.

Lemma confined_get_metafields_by_keys : forall pid keys,
  (forall u, allowed (Sent (get_request u)) = true) ->
  allowed (Slept 2000) = true ->
  confined allowed (get_metafields_by_keys pid keys).
Proof.
  intros pid keys H1 H2. unfold get_metafields_by_keys, get_all_metafields.
  apply confined_bind; [|intro; apply confined_lift].
  apply confined_bind; [|intro; apply confined_lift].
  intro w. unfold _get_paginated. apply confined_get_paginated_fuel; assumption.
Qed.

Lemma confined_peek : forall pid,
  (forall u, allowed (Sent (get_request u)) = true) ->
  confined allowed (peek_metafields pid).
Proof.
  intros pid H. unfold peek_metafields.
  apply confined_try_catch; [|intro; apply confined_ret].
  apply confined_bind; [apply confined_requests_request, H|intro; apply confined_ret].
Qed.

End Confined.

Lemma reads_get : forall u, is_read (Sent (get_request u)) = true.
Proof. reflexivity. Qed.

(** A variant update sent before any metafield write: the events of a
    run that was quiet up to the update. *)
Lemma update_comes_first : forall (before after : list event) (u : event),
  metafield_writes before = [] -> is_metafield_write u = false ->
  forall pre e post,
    before ++ u :: after = pre ++ e :: post -> is_metafield_write e = true ->
    In u pre.
Proof.
  induction before as [|a before IH]; intros after u Q U pre e post E W.
  - destruct pre as [|y pre]; simpl in E; inversion E; subst.
    + rewrite W in U. discriminate U.
    + left. reflexivity.
  - unfold metafield_writes in Q. cbn [filter] in Q.
    destruct (is_metafield_write a) eqn:A; [discriminate Q|].
    destruct pre as [|y pre]; simpl in E; inversion E; subst.
    + rewrite W in A. discriminate A.
    + right. eapply IH; eauto.
Qed.

Lemma no_write_in_quiet : forall evs pre e post,
  metafield_writes evs = [] -> evs = pre ++ e :: post ->
  is_metafield_write e = false.
Proof.
  intros evs pre e post Q E. subst evs. unfold metafield_writes in Q.
  rewrite filter_app in Q. apply app_eq_nil in Q. destruct Q as [_ Q].
  cbn [filter] in Q. destruct (is_metafield_write e); [discriminate Q|reflexivity].
Qed.

End ConfinedFacts.

Section RunFacts.

Variable json_loads : string -> result pyval.
Variable json_dumps : pyval -> string.
Variable float_of_str : string -> option string.
Variable int_of_text : string -> result Z.
Variable int_of_float : string -> result Z.
Variable set_order : list string -> list string.
Variable attach_main_image_to_variants :
  pyval -> pyval -> list string -> pyval -> M bool.

Local Abbreviation prepare_ :=
  (prepare json_loads float_of_str int_of_text int_of_float set_order).
Local Abbreviation finish_ :=
  (finish json_dumps attach_main_image_to_variants).
Local Abbreviation process_product_ :=
  (process_product json_loads json_dumps float_of_str int_of_text int_of_float
                   set_order attach_main_image_to_variants).

Lemma decides_ret : forall b, decides (ret (Some b)).
Proof. intros b w r w' H. inversion H. discriminate. Qed.

Lemma decides_bind {A} (m : M A) (k : A -> M (option bool)) :
  (forall a, decides (k a)) -> decides (bind m k).
Proof.
  intros Hk w r w' H. unfold bind in H.
  destruct (m w) as [[a|e] w1]; [|discriminate H]. exact (Hk a w1 r w' H).
Qed.

Lemma finish_decides : forall product p, decides (finish_ product p).
Proof.
  intros product p. unfold finish.
  apply decides_bind. intro updated. apply decides_bind. intros _.
  destruct (negb (Py.truthy updated)); [apply decides_ret|].
  repeat (apply decides_bind; intro). apply decides_ret.
Qed.


Lemma handler_decides : forall (r : result pyval) w v w',
  (_ <- lift r ;; ret (Some false)) w = (Ret v, w') -> v <> None.
Proof.
  intros r w v w' H. unfold bind, lift, ret in H. destruct r; inversion H. discriminate.
Qed.

Lemma handler_world : forall (r : result pyval) w,
  snd ((_ <- lift r ;; ret (Some false)) w) = w.
Proof. intros r w. unfold bind, lift, ret. destruct r; reflexivity. Qed.

Lemma early_ret : forall x, reads_until_early (ret (inl x) : M (option bool + prepared)).
Proof.
  intros x w y w' H. inversion H; subst. exists []. rewrite app_nil_r.
  split; reflexivity.
Qed.

Lemma early_bind {A} (m : M A) (k : A -> M (option bool + prepared)) :
  confined is_read m -> (forall a, reads_until_early (k a)) ->
  reads_until_early (bind m k).
Proof.
  intros Hm Hk w x w' H. unfold bind in H. destruct (Hm w) as [e1 [E1 F1]].
  destruct (m w) as [[a|e] w1]; [|discriminate H]. simpl in E1.
  destruct (Hk a w1 x w' H) as [e2 [E2 F2]]. exists (e1 ++ e2). split.
  - rewrite E2, E1, app_assoc. reflexivity.
  - rewrite forallb_app, F1, F2. reflexivity.
Qed.

Lemma prepare_reads_until_early : forall product, reads_until_early (prepare_ product).
Proof.
  intro product. unfold prepare.
  apply early_bind; [apply ConfinedFacts.confined_lift|intro product_id].
  apply early_bind; [apply ConfinedFacts.confined_lift|intro product_name].
  destruct (negb (Py.truthy product_id)); [apply early_ret|].
  apply early_bind; [apply ConfinedFacts.confined_lift|intro name].
  destruct (Text.contains "origination" name); [apply early_ret|].
  apply early_bind;
    [apply ConfinedFacts.confined_get_metafields_by_keys; reflexivity|intro metafields].
  apply early_bind;
    [destruct (Py.has_key metafields "product_colours");
     [apply ConfinedFacts.confined_ret|apply ConfinedFacts.confined_peek; reflexivity]
    |intros _].
  apply early_bind; [apply ConfinedFacts.confined_lift|intro sku].
  apply early_bind; [apply ConfinedFacts.confined_lift|intro unit_weight].
  apply early_bind; [apply ConfinedFacts.confined_lift|intros [colours codes]].
  destruct (Py.dict_get metafields "pricejsontr"); [|apply early_ret].
  destruct (Py.dict_get metafields "pricejsoner"); [|apply early_ret].
  apply early_bind; [apply ConfinedFacts.confined_lift|intro tr_value].
  apply early_bind; [apply ConfinedFacts.confined_lift|intro er_value].
  match goal with |- reads_until_early (if ?c then _ else _) => destruct c end;
    [apply early_ret|].
  intros w x w' H. exfalso. unfold bind, lift, ret in H.
  match type of H with
  | context [build_variants ?a ?b ?c ?d ?e ?f ?g ?h] =>
      destruct (build_variants a b c d e f g h)
  end; [|discriminate H].
  destruct (delete_existing_variants product_id w) as [[u|e] w1]; discriminate H.
Qed.

Lemma confined_set_or_update : forall metafields pid key value,
  confined any_event (set_or_update_metafield json_dumps metafields pid key value).
Proof.
  intros metafields pid key value.
  assert (forall id, confined any_event (update_metafield json_dumps id value ;;; ret tt)) as U.
  { intro id. unfold update_metafield.
    apply ConfinedFacts.confined_bind; [|intro; apply ConfinedFacts.confined_ret].
    apply ConfinedFacts.confined_bind; [|intro; apply ConfinedFacts.confined_ret].
    apply ConfinedFacts.confined_safe_request; reflexivity. }
  assert (confined any_event (create_metafield json_dumps pid key value ;;; ret tt)) as C.
  { unfold create_metafield.
    apply ConfinedFacts.confined_bind; [|intro; apply ConfinedFacts.confined_ret].
    apply ConfinedFacts.confined_bind;
      [apply ConfinedFacts.confined_safe_request; reflexivity|intro resp].
    destruct (status_code resp =? 201);
      [apply ConfinedFacts.confined_lift|apply ConfinedFacts.confined_ret]. }
  unfold set_or_update_metafield.
  destruct (Py.dict_get metafields key) as [mf|]; [|exact C].
  apply ConfinedFacts.confined_bind; [apply ConfinedFacts.confined_lift|intro id].
  destruct (Py.truthy id); [|exact C].
  apply ConfinedFacts.confined_bind; [apply ConfinedFacts.confined_lift|intro id'].
  apply U.
Qed.

(** From the variant update on, a run first sends the update. *)
Lemma finish_trace :
  (forall a b c d, confined any_event (attach_main_image_to_variants a b c d)) ->
  forall product p w,
    exists after,
      trace (snd (finish_ product p w))
      = trace w ++ Sent (variants_request (p_product_id p) (p_variants p) (p_colours p))
                :: after.
Proof.
  intros Hb product p w. unfold finish. unfold bind at 1.
  destruct (update_product_variants_sends_once
              (p_product_id p) (p_variants p) (p_colours p) w) as [updated [E _]].
  rewrite E.
  match goal with
  | |- context [?k {| replies := ?rs; trace := ?tr |}] =>
      assert (confined any_event k) as K
  end.
  { apply ConfinedFacts.confined_bind;
      [destruct (Py.truthy updated);
       [apply ConfinedFacts.confined_lift|apply ConfinedFacts.confined_ret]|intros _].
    destruct (negb (Py.truthy updated)); [apply ConfinedFacts.confined_ret|].
    apply ConfinedFacts.confined_bind; [apply ConfinedFacts.confined_lift|intro].
    apply ConfinedFacts.confined_bind; [apply ConfinedFacts.confined_lift|intro].
    apply ConfinedFacts.confined_bind; [apply confined_set_or_update|intro].
    apply ConfinedFacts.confined_bind; [apply confined_set_or_update|intro].
    apply ConfinedFacts.confined_bind; [apply ConfinedFacts.confined_lift|intro].
    apply ConfinedFacts.confined_bind; [apply Hb|intro].
    apply ConfinedFacts.confined_ret. }
  match goal with
  | |- context [?k {| replies := ?rs; trace := ?tr |}] =>
      destruct (K {| replies := rs; trace := tr |}) as [after [E3 _]]
  end.
  exists after. rewrite E3. cbn [trace]. rewrite <- app_assoc. reflexivity.
Qed.


(** X16.  A product without a truthy id, or with [origination] in its
    lower-cased title, is skipped at once: [process_product] returns
    [None], and nothing was requested. *)
Theorem process_product_skips_without_request :
  forall (d : list (string * pyval)) (w : world),
    ((exists id, Py.get (PDict d) "id" PNone = Ret id /\ Py.truthy id = false) \/
     exists t, Py.dict_get d "title" = Some (PStr t) /\
               Text.contains "origination" (Text.lower t) = true) ->
    process_product_ (PDict d) w = (Ret None, w).
Proof.
  intros d w H. unfold process_product, try_catch, prepare.
  unfold bind at 2. unfold lift at 1. cbn [Py.get].
  unfold bind at 2. unfold lift at 1.
  destruct (Py.truthy match Py.dict_get d "id" with Some x => x | None => PNone end)
    eqn:T; cbn [negb].
  - destruct H as [H|[t [Ht C]]].
    + destruct H as [id [H F]]. cbn [Py.get] in H. inversion H as [E].
      rewrite E, F in T. discriminate T.
    + rewrite Ht. unfold bind at 2. unfold lift at 1. rewrite C. reflexivity.
  - reflexivity.
Qed.


(** X17.  A skipped product has only been read: when [process_product]
    returns [None], every request of the run was a GET. *)
Theorem skipped_product_is_only_read :
  forall (product : pyval) (w w' : world),
    process_product_ product w = (Ret None, w') ->
    exists evs, trace w' = trace w ++ evs /\ forallb is_read evs = true.
Proof.
  intros product w w' H. unfold process_product, try_catch in H.
  unfold bind at 1 in H.
  pose proof (prepare_reads_until_early product w) as R.
  destruct (prepare_ product w) as [[[early|p]|e] w1].
  - unfold ret in H. inversion H; subst. exact (R None w' eq_refl).
  - destruct (finish_ product p w1) as [[r|e] w2] eqn:F.
    + inversion H; subst. exfalso. exact (finish_decides product p w1 None w' F eq_refl).
    + exfalso. exact (handler_decides _ _ _ _ H eq_refl).
  - exfalso. exact (handler_decides _ _ _ _ H eq_refl).
Qed.


(** X18.  No metafield is written before the variants were sent: in
    every run of [process_product], with an image binder that only adds
    to the trace, each metafield write comes after the PUT of the product's
    variants. *)
Theorem metafield_writes_follow_variant_update :
  (forall a b c d, confined any_event (attach_main_image_to_variants a b c d)) ->
  forall (product : pyval) (w : world),
    exists evs,
      trace (snd (process_product_ product w)) = trace w ++ evs /\
      forall pre e post,
        evs = pre ++ e :: post -> is_metafield_write e = true ->
        exists u, In u pre /\ is_variant_update u = true.
Proof.
  intros Hb product w. unfold process_product, try_catch. unfold bind at 1.
  destruct (quiet_prepare json_loads float_of_str int_of_text int_of_float set_order
                          product w) as [before [E1 Q1]].
  destruct (prepare_ product w) as [[[early|p]|e] w1]; cbn [snd] in E1.
  - exists before. split; [exact E1|]. intros pre e post E W.
    rewrite (ConfinedFacts.no_write_in_quiet _ _ _ _ Q1 E) in W. discriminate W.
  - destruct (finish_trace Hb product p w1) as [after E2].
    exists (before ++ Sent (variants_request (p_product_id p) (p_variants p)
                                             (p_colours p)) :: after).
    split.
    + destruct (finish_ product p w1) as [[r|e] w2]; cbn [snd] in E2 |- *;
        [|rewrite handler_world]; rewrite E2, E1, <- app_assoc; reflexivity.
    + intros pre e post E W.
      exists (Sent (variants_request (p_product_id p) (p_variants p) (p_colours p))).
      split; [|reflexivity].
      eapply ConfinedFacts.update_comes_first; [exact Q1|reflexivity|exact E|exact W].
  - rewrite handler_world. exists before. split; [exact E1|].
    intros pre e' post E W.
    rewrite (ConfinedFacts.no_write_in_quiet _ _ _ _ Q1 E) in W. discriminate W.
Qed.

End RunFacts.

Lemma process_product_skips_without_request_witness :
  example_run (product_json 5 "Artwork Origination Fee")
              (fresh [answer 200 (PDict [])])
  = (Ret None, fresh [answer 200 (PDict [])]).
Proof.
  unfold example_run, product_json.
  apply (process_product_skips_without_request
           example_loads example_dumps example_float Text.int_of_str
           example_int_of_float insertion_order no_image_binder
           [("id", PInt 5); ("title", PStr "Artwork Origination Fee")]
           (fresh [answer 200 (PDict [])])).
  right. exists "Artwork Origination Fee". split; reflexivity.
Defined.

Lemma skipped_product_is_only_read_witness :
  exists w' evs,
    example_run (product_json 1 "Mug")
                (fresh [answer 429 PNone;
                        answer 200 (PDict [("metafields", PList [])]);
                        answer 200 (PDict [("metafields", PList [])])])
    = (Ret None, w') /\
    trace w' = [] ++ evs /\ forallb is_read evs = true /\ List.length evs = 4%nat.
Proof.
  destruct (example_run (product_json 1 "Mug")
              (fresh [answer 429 PNone;
                      answer 200 (PDict [("metafields", PList [])]);
                      answer 200 (PDict [("metafields", PList [])])]))
    as [r w'] eqn:H.
  assert (r = Ret None) as -> by (vm_compute in H; inversion H; reflexivity).
  destruct (skipped_product_is_only_read
              example_loads example_dumps example_float Text.int_of_str
              example_int_of_float insertion_order no_image_binder _ _ _ H)
    as [evs [E F]].
  exists w', evs. split; [reflexivity|]. split; [exact E|]. split; [exact F|].
  vm_compute in H. inversion H as [W]. rewrite <- W in E. simpl in E. rewrite <- E.
  reflexivity.
Defined.

Lemma metafield_writes_follow_variant_update_witness :
  exists evs,
    trace (snd (example_run (product_json 1 "Mug")
                  (fresh (replies_before_update
                          ++ [update_accepted; answer 200 PNone; answer 201 (PDict [])]))))
    = [] ++ evs /\
    metafield_writes evs <> [] /\
    forall pre e post,
      evs = pre ++ e :: post -> is_metafield_write e = true ->
      exists u, In u pre /\ is_variant_update u = true.
Proof.
  assert (forall a b c d, confined any_event (no_image_binder a b c d)) as Hb.
  { intros a b c d w. exists []. rewrite app_nil_r. split; reflexivity. }
  destruct (metafield_writes_follow_variant_update
              example_loads example_dumps example_float Text.int_of_str
              example_int_of_float insertion_order no_image_binder Hb
              (product_json 1 "Mug")
              (fresh (replies_before_update
                      ++ [update_accepted; answer 200 PNone; answer 201 (PDict [])])))
    as [evs [E F]].
  exists evs. split; [exact E|]. split; [|exact F].
  simpl in E. rewrite <- E. vm_compute. discriminate.
Defined.

(** ** The batch *)

Module FilterFacts.

Lemma filter_by_text_keeps : forall flt products out,
  filter_by_text flt products = Ret out ->
  exists keep,
    out = filter keep products /\
    forall p, keep p = true ->
              exists d id, p = PDict d /\ Py.dict_get d "id" = Some id.
Proof.
  intros flt products out H.
  exists (fun p =>
            match p with
            | PDict d =>
                match Py.dict_get d "id" with
                | Some id =>
                    match lowered_or_empty
                            (match Py.dict_get d "title" with
                             | Some t => t | None => PNone end) with
                    | Ret name =>
                        String.eqb flt (Text.lower (Py.str id))
                        || String.eqb flt (Text.lower name)
                        || String.eqb flt (Text.lower (first_variant_sku d))
                        || Text.contains flt name
                        || Text.contains flt (first_variant_sku d)
                    | Raise _ => false
                    end
                | None => false
                end
            | _ => false
            end).
  split.
  - revert out H. induction products as [|p rest IH]; intros out H; simpl in H.
    + inversion H. reflexivity.
    + destruct p as [| | | | | |d]; try (cbn [filter]; apply IH; exact H).
      cbn [filter]. destruct (Py.dict_get d "id") as [id|]; [|apply IH; exact H].
      destruct (lowered_or_empty _) as [name|e]; [|discriminate H].
      cbn [rbind] in H.
      destruct (filter_by_text flt rest) as [out'|e]; [|discriminate H].
      cbn [rbind] in H. inversion H; subst.
      rewrite (IH out' eq_refl). reflexivity.
  - intros p K. destruct p as [| | | | | |d]; try discriminate K.
    destruct (Py.dict_get d "id") as [id|] eqn:I; [|discriminate K].
    exists d, id. split; [reflexivity|exact I].
Qed.

End FilterFacts.

(** X19.  [_filter_products] only removes products and keeps the order of
    the rest.  Under a non-empty list of ids it keeps exactly the mappings
    whose id, as text, is one of the stripped ids; under a non-empty text
    filter every product it keeps is a mapping with an id; with neither,
    it returns the products unchanged. *)
Theorem filter_products_selects :
  forall (products : list pyval) (product_ids : option (list string))
         (product_filter : option string) (out : list pyval),
    _filter_products products product_ids product_filter = Ret out ->
    (exists keep, out = filter keep products) /\
    (forall i ids, product_ids = Some (i :: ids) ->
       forall p, In p out <-> In p products /\ wanted_by_id (i :: ids) p) /\
    (product_ids = None \/ product_ids = Some [] ->
     forall f, product_filter = Some f -> f <> "" ->
       forall p, In p out -> exists d id, p = PDict d /\ Py.dict_get d "id" = Some id) /\
    (product_ids = None \/ product_ids = Some [] ->
     product_filter = None \/ product_filter = Some "" -> out = products).
Proof.
  intros products ids flt out H. unfold _filter_products in H.
  assert (forall l : list pyval, l = filter (fun _ => true) l) as All.
  { induction l as [|x l IH]; simpl; [reflexivity|]. rewrite <- IH. reflexivity. }
  destruct ids as [[|i ids]|].
  - (* an empty list of ids *)
    split; [|split; [intros ? ? E; discriminate E|split]].
    + destruct flt as [f|]; [|inversion H; eexists; apply All].
      destruct (String.eqb f ""); [inversion H; eexists; apply All|].
      destruct (FilterFacts.filter_by_text_keeps _ _ _ H) as [keep [E _]].
      exists keep. exact E.
    + intros _ f -> N p I. apply String.eqb_neq in N. rewrite N in H.
      destruct (FilterFacts.filter_by_text_keeps _ _ _ H) as [keep [E K]].
      subst out. apply filter_In in I. apply K, I.
    + intros _ [->| ->]; [inversion H; reflexivity|].
      simpl in H. inversion H. reflexivity.
  - (* ids *)
    inversion H as [E]. clear H. split; [eexists; reflexivity|].
    split; [|split; intros [D|D]; discriminate D].
    intros i' ids' Eq p. inversion Eq; subst i' ids'. clear Eq.
    rewrite filter_In. unfold wanted_by_id. split.
    + intros [I K]. split; [exact I|].
      destruct p as [| | | | | |d]; try discriminate K.
      exists d. split; [reflexivity|].
      apply (proj1 (existsb_exists
                      (String.eqb (Py.str match Py.dict_get d "id" with
                                          | Some x => x | None => PNone end))
                      (map Text.strip (i :: ids)))) in K.
      destruct K as [x [Ix Ex]].
      apply String.eqb_eq in Ex. rewrite Ex. exact Ix.
    + intros [I [d [-> W]]]. split; [exact I|].
      apply (proj2 (existsb_exists
                      (String.eqb (Py.str match Py.dict_get d "id" with
                                          | Some x => x | None => PNone end))
                      (map Text.strip (i :: ids)))).
      eexists. split; [exact W|apply String.eqb_refl].
  - (* no ids *)
    split; [|split; [intros ? ? E; discriminate E|split]].
    + destruct flt as [f|]; [|inversion H; eexists; apply All].
      destruct (String.eqb f ""); [inversion H; eexists; apply All|].
      destruct (FilterFacts.filter_by_text_keeps _ _ _ H) as [keep [E _]].
      exists keep. exact E.
    + intros _ f -> N p I. apply String.eqb_neq in N. rewrite N in H.
      destruct (FilterFacts.filter_by_text_keeps _ _ _ H) as [keep [E K]].
      subst out. apply filter_In in I. apply K, I.
    + intros _ [->| ->]; [inversion H; reflexivity|].
      simpl in H. inversion H. reflexivity.
Qed.

Lemma filter_products_selects_witness :
  exists out,
    _filter_products [product_json 1 "Mug"; PInt 3; product_json 2 "Cup";
                      product_json 12 "Pen"]
                     (Some [" 12"; "1 "]) None = Ret out /\
    out = [product_json 1 "Mug"; product_json 12 "Pen"] /\
    (forall p, In p out <->
               In p [product_json 1 "Mug"; PInt 3; product_json 2 "Cup";
                     product_json 12 "Pen"] /\ wanted_by_id [" 12"; "1 "] p).
Proof.
  eexists. split; [vm_compute; reflexivity|]. split; [reflexivity|].
  refine (proj1 (proj2 (filter_products_selects _ (Some [" 12"; "1 "]) None _ _))
                " 12" ["1 "] eq_refl).
  vm_compute. reflexivity.
Defined.

Section BatchRuns.

Variable json_loads : string -> result pyval.
Variable json_dumps : pyval -> string.
Variable float_of_str : string -> option string.
Variable int_of_text : string -> result Z.
Variable int_of_float : string -> result Z.
Variable set_order : list string -> list string.
Variable attach_main_image_to_variants :
  pyval -> pyval -> list string -> pyval -> M bool.

Local Abbreviation main_loop_ :=
  (main_loop json_loads json_dumps float_of_str int_of_text int_of_float
             set_order attach_main_image_to_variants).
Local Abbreviation main_ :=
  (main json_loads json_dumps float_of_str int_of_text int_of_float
        set_order attach_main_image_to_variants).


Lemma bind_value {A B} (m : M A) (k : A -> M B) : forall w a w1,
  m w = (Ret a, w1) -> bind m k w = k a w1.
Proof. intros w a w1 H. unfold bind. rewrite H. reflexivity. Qed.

Lemma nonempty_app : forall {A} (l : list A) x r, nonempty (l ++ x :: r) = true.
Proof. intros A l x r. destruct l; reflexivity. Qed.


(** X22.  The loop of [main] stops at the first product that is not a
    mapping: reading its title raises [AttributeError] in the loop's
    handler too, so the exception leaves the loop and the products after
    it are never run. *)
Theorem main_loop_stops_at_non_mapping :
  forall (before : list pyval) (p : pyval) (rest : list pyval)
         (successful failed : Z) (w : world),
    Forall (fun x => is_mapping x = true) before ->
    is_mapping p = false ->
    main_loop_ (before ++ p :: rest) successful failed w
    = main_loop_ (before ++ [p]) successful failed w /\
    exists w', main_loop_ (before ++ p :: rest) successful failed w
               = (Raise AttributeError, w').
Proof.
  induction before as [|x before IH]; intros p rest s f w Hm Hp.
  - destruct p; try discriminate Hp; split; try reflexivity; eexists; reflexivity.
  - inversion Hm as [|? ? Hx Hb]; subst.
    destruct x as [| | | | | |d]; try discriminate Hx.
    cbn [app main_loop].
    match goal with
    | |- context [bind (try_catch ?m ?h) _ w] =>
        assert (exists c w1, try_catch m h w = (Ret c, w1)) as [[[s1 f1] ok] [w1 T]]
    end.
    { unfold try_catch, bind, lift, ret. cbn [Py.get].
      destruct (run_product _ _ _ _ _ _ _ (PDict d) w) as [[v|e] w2];
        eexists; eexists; reflexivity. }
    rewrite !(bind_value _ _ _ _ _ T). rewrite !nonempty_app.
    destruct ok; cbn [andb];
      [rewrite !(bind_value (sleep 700) _ w1 tt (log (Slept 700) w1) eq_refl)
      |rewrite !(bind_value (ret tt) _ w1 tt w1 eq_refl)];
      exact (IH p rest s1 f1 _ Hb Hp).
Qed.

End BatchRuns.

Lemma main_loop_stops_at_non_mapping_witness :
  exists w',
    main_loop example_loads example_dumps example_float Text.int_of_str
              example_int_of_float insertion_order no_image_binder
              ([product_json 5 "Origination"] ++ PInt 3 :: [product_json 2 "Cup"])
              0 0 (fresh [])
    = (Raise AttributeError, w').
Proof.
  assert (Forall (fun x => is_mapping x = true) [product_json 5 "Origination"]) as H1
    by (repeat constructor).
  assert (is_mapping (PInt 3) = false) as H2 by reflexivity.
  exact (proj2 (main_loop_stops_at_non_mapping
                  example_loads example_dumps example_float Text.int_of_str
                  example_int_of_float insertion_order no_image_binder
                  [product_json 5 "Origination"] (PInt 3) [product_json 2 "Cup"]
                  0 0 (fresh []) H1 H2)).
Defined.


(** ** Fetching the products *)

Module FetchFacts.

Lemma collect_lists : forall key (pages : list (list pyval)),
  collect_pages key (map (fun items => PDict [(key, PList items)]) pages)
  = Ret (List.concat pages).
Proof.
  intros key. induction pages as [|items pages IH]; [reflexivity|].
  unfold collect_pages in *. cbn [map rconcat]. rewrite IH.
  cbn [Py.get Py.dict_get]. rewrite String.eqb_refl. reflexivity.
Qed.



End FetchFacts.

(** X24.  [get_all_products] over linked pages: when each page of the
    collection carries a list of products and names the next page, and
    the last page names none, it returns the products of all pages in
    page order, for one GET per page. *)
Theorem get_all_products_concatenates_pages :
  forall (pages : list (list pyval * string)) (last : list pyval)
         (rest : list reply) (tr : list event),
    Forall (fun p => snd p <> "") pages ->
    get_all_products
      {| replies :=
           map (fun p => Reply (page (PDict [("products", PList (fst p))])
                                     (Some (snd p)))) pages
           ++ Reply (page (PDict [("products", PList last)]) None) :: rest;
         trace := tr |}
    = (Ret (List.concat (map fst pages) ++ last),
       {| replies := rest;
          trace := tr ++ page_requests ProductsPage (map snd pages) |}).
Proof.
  intros pages last rest tr H. unfold get_all_products, bind, _get_paginated.
  pose proof (PageFacts.follows_links
                (map (fun p => (PDict [("products", PList (fst p))], snd p)) pages)
                (PDict [("products", PList last)]) ProductsPage rest tr) as F.
  rewrite !map_map in F. cbn [fst snd] in F.
  rewrite F.
  - unfold lift. f_equal.
    replace (map (fun p : list pyval * string => PDict [("products", PList (fst p))]) pages
             ++ [PDict [("products", PList last)]])
      with (map (fun items => PDict [("products", PList items)])
                (map fst pages ++ [last]))
      by (rewrite map_app, map_map; reflexivity).
    rewrite FetchFacts.collect_lists. rewrite List.concat_app. simpl.
    rewrite app_nil_r. reflexivity.
  - apply Forall_map. exact H.
  - cbn [replies]. rewrite length_app, !length_map. simpl. lia.
Qed.

Lemma get_all_products_concatenates_pages_witness :
  get_all_products
    (fresh [Reply (page (PDict [("products", PList [product_json 1 "Mug"])])
                        (Some "https://shop/page2"));
            Reply (page (PDict [("products", PList [product_json 2 "Cup";
                                                   product_json 3 "Pen"])]) None)])
  = (Ret [product_json 1 "Mug"; product_json 2 "Cup"; product_json 3 "Pen"],
     {| replies := [];
        trace := [Sent (get_request ProductsPage);
                  Sent (get_request (NextPage "https://shop/page2"))] |}).
Proof.
  assert (Forall (fun p : list pyval * string => snd p <> "")
                 [([product_json 1 "Mug"], "https://shop/page2")]) as H
    by (repeat constructor; discriminate).
  exact (get_all_products_concatenates_pages
           _ [product_json 2 "Cup"; product_json 3 "Pen"] [] [] H).
Defined.


(** ** Matching bands to confirmed variants *)

Module MatchComplete.

Lemma get_is_complete : forall v k x, opt_is v k x -> get_is v k x = Ret true.
Proof.
  intros v k x [d [-> G]]. unfold get_is. cbn [Py.get rbind]. rewrite G.
  rewrite String.eqb_refl. reflexivity.
Qed.

Lemma match_plain_complete : forall v label ctype,
  matches_plain v label ctype -> match_plain label ctype v = Ret true.
Proof.
  intros v label ctype [A B]. unfold match_plain, and_then.
  rewrite (get_is_complete _ _ _ A). cbn [rbind]. exact (get_is_complete _ _ _ B).
Qed.

Lemma match_plain_mapping : forall d label ctype,
  exists b, match_plain label ctype (PDict d) = Ret b.
Proof.
  intros d label ctype. unfold match_plain, and_then, get_is. cbn [Py.get rbind].
  match goal with |- context [if ?c then _ else _] => destruct c end;
    eexists; reflexivity.
Qed.

Lemma match_plain_refuses : forall u label ctype,
  is_mapping u = true -> ~ matches_plain u label ctype ->
  match_plain label ctype u = Ret false.
Proof.
  intros u label ctype M N. destruct u as [| | | | | |d]; try discriminate M.
  destruct (match_plain_mapping d label ctype) as [[|] E]; [|exact E].
  exfalso. apply N. apply MatchFacts.match_plain_true. exact E.
Qed.

Lemma first_match_first : forall test pre v post,
  Forall (fun u => test u = Ret false) pre -> test v = Ret true ->
  first_match test (pre ++ v :: post) = Ret (Some v).
Proof.
  intros test pre v post H T. induction H as [|u pre Hu _ IH]; simpl.
  - rewrite T. reflexivity.
  - rewrite Hu. cbn [rbind]. exact IH.
Qed.

Lemma rconcat_in {A B} (f : A -> result (list B)) : forall l ys x zs z,
  rconcat f l = Ret ys -> In x l -> f x = Ret zs -> In z zs -> In z ys.
Proof.
  induction l as [|a l IH]; intros ys x zs z H Ix Fx Iz; [destruct Ix|].
  simpl in H. destruct (f a) as [as_|e] eqn:Fa; [|discriminate H]. cbn [rbind] in H.
  destruct (rconcat f l) as [ws|e] eqn:Fl; [|discriminate H]. cbn [rbind] in H.
  inversion H; subst. apply in_or_app. destruct Ix as [<-|Ix].
  - left. rewrite Fx in Fa. inversion Fa; subst. exact Iz.
  - right. exact (IH ws x zs z eq_refl Ix Fx Iz).
Qed.

End MatchComplete.

(** X26.  Without a colour, [enrich_bands_with_variant_ids] gives a band
    the id of the first returned variant whose first two options are the
    band's label and the customer type: when the variants before it are
    mappings that do not match, and its id is truthy, the band is in the
    output with that id. *)
Theorem enrich_takes_first_plain_match :
  forall (bands before : list pyval) (v : pyval) (after : list pyval)
         (customer_type : string) (b : pyval) (label : string) (id : pyval)
         (out : list pyval),
    enrich_bands_with_variant_ids bands (PList (before ++ v :: after))
                                  customer_type None = Ret out ->
    In b bands -> band_label b = Ret label ->
    Forall (fun u => is_mapping u = true /\ ~ matches_plain u label customer_type)
           before ->
    matches_plain v label customer_type ->
    Py.subscript v "id" = Ret id -> Py.truthy id = true ->
    exists e, In e out /\ enriched_from b e id.
Proof.
  intros bands before v after ctype b label id out H Ib L Hb Mv Sid Tid.
  unfold enrich_bands_with_variant_ids in H.
  destruct (SynthTotal.rconcat_ret_all _ _ _ H b Ib) as [r Hr].
  assert (exists e, r = [e] /\ enriched_from b e id) as [e [-> E]].
  { unfold enrich_band in Hr. rewrite L in Hr. cbn [rbind] in Hr.
    unfold find_match in Hr. cbn [py_iter rbind colour_given] in Hr.
    rewrite (MatchComplete.first_match_first (match_plain label ctype) before v after)
      in Hr.
    - destruct v as [| | | | | |dv]; try discriminate Sid.
      unfold Py.subscript in Sid.
      destruct (Py.dict_get dv "id") as [id0|] eqn:G; [|discriminate Sid].
      inversion Sid; subst id0.
      assert (Py.truthy (PDict dv) = true) as Tv
        by (destruct dv; [discriminate G|reflexivity]).
      destruct b as [| | | | | |d]; try discriminate L.
      repeat first [ rewrite Tv in Hr | rewrite G in Hr | rewrite Tid in Hr
                   | progress cbn [rbind is_some_truthy Py.get Py.subscript] in Hr ].
      destruct (Py.dict_get (Py.dict_set d "id" id) "price") as [p|].
      + destruct (format_price p) as [s|x]; [|discriminate Hr].
        cbn [rbind] in Hr. inversion Hr. eexists. split; [reflexivity|].
        exists d. split; [reflexivity|]. right. exists s. reflexivity.
      + inversion Hr. eexists. split; [reflexivity|].
        exists d. split; [reflexivity|]. left. reflexivity.
    - eapply Forall_impl; [|exact Hb]. intros u [M N].
      apply MatchComplete.match_plain_refuses; assumption.
    - apply MatchComplete.match_plain_complete. exact Mv. }
  exists e. split; [|exact E].
  exact (MatchComplete.rconcat_in _ _ _ _ _ _ H Ib Hr (or_introl eq_refl)).
Qed.

Lemma enrich_takes_first_plain_match_witness :
  exists out e,
    enrich_bands_with_variant_ids
      [band 1 10 (PFloat "5.0")]
      (PList ([confirmed 40 [("option1", "11-20"); ("option2", "Trade")]]
              ++ confirmed 41 [("option1", "1-10"); ("option2", "Trade")]
              :: [confirmed 42 [("option1", "1-10"); ("option2", "Trade")]]))
      "Trade" None = Ret out /\
    In e out /\ enriched_from (band 1 10 (PFloat "5.0")) e (PInt 41).
Proof.
  destruct (enrich_bands_with_variant_ids
              [band 1 10 (PFloat "5.0")]
              (PList ([confirmed 40 [("option1", "11-20"); ("option2", "Trade")]]
                      ++ confirmed 41 [("option1", "1-10"); ("option2", "Trade")]
                      :: [confirmed 42 [("option1", "1-10"); ("option2", "Trade")]]))
              "Trade" None) as [out|x] eqn:H; [|vm_compute in H; discriminate H].
  assert (Forall (fun u => is_mapping u = true /\ ~ matches_plain u "1-10" "Trade")
                 [confirmed 40 [("option1", "11-20"); ("option2", "Trade")]]) as Hb.
  { repeat constructor. intros [[d [E G]] _]. inversion E; subst d.
    vm_compute in G. discriminate G. }
  assert (matches_plain (confirmed 41 [("option1", "1-10"); ("option2", "Trade")])
                        "1-10" "Trade") as Mv
    by (split; eexists; split; reflexivity).
  destruct (enrich_takes_first_plain_match
              _ _ _ _ "Trade" (band 1 10 (PFloat "5.0")) "1-10" (PInt 41) out H
              (or_introl eq_refl) eq_refl Hb Mv eq_refl eq_refl) as [e [I E]].
  exists out, e. split; [reflexivity|]. split; assumption.
Defined.

(** ** The colours of a product *)

Module ColourFacts.






End ColourFacts.


